(** * OpenPII Watcher: the client-side PII detector (pii_detector.js)

    A shallow embedding of class [PIIDetector] and of the part of the
    ECMAScript runtime it relies on (strings as sequences of UTF-16 code
    units, [RegExp.prototype.exec] with the [g] flag, [String.prototype]
    [match], [split], [substring], property lookup on object literals),
    followed by the properties of the detector. *)

From Stdlib Require Import String Ascii.
From Stdlib Require Import List Arith Lia Bool NArith ZArith.
From Stdlib Require Import Sorted Permutation.
Import ListNotations.

Set Implicit Arguments.

(** ** JavaScript strings *)

(** A JavaScript string is a finite sequence of UTF-16 code units.  None of
    the regular expressions of the detector carries the [u] or [i] flag, so
    matching works code unit by code unit. *)
Definition jsstring := list N.

(** String literals of the source, written as Rocq strings. *)
Fixpoint str (s : string) : jsstring :=
  match s with
  | EmptyString => []
  | String a s' => N_of_ascii a :: str s'
  end.

Definition code (a : ascii) : N := N_of_ascii a.

Fixpoint jsstring_eqb (a b : jsstring) : bool :=
  match a, b with
  | [], [] => true
  | x :: a', y :: b' => N.eqb x y && jsstring_eqb a' b'
  | _, _ => false
  end.

(** [String.prototype.substring(start, end)]: both arguments are clamped to
    the length and swapped when out of order. *)
Definition substring (s : jsstring) (a b : nat) : jsstring :=
  let finalStart := Nat.min a (length s) in
  let finalEnd := Nat.min b (length s) in
  let from := Nat.min finalStart finalEnd in
  let to := Nat.max finalStart finalEnd in
  firstn (to - from) (skipn from s).

(** [substring(start)] with the end argument left undefined. *)
Definition substring_from (s : jsstring) (a : nat) : jsstring :=
  substring s a (length s).

(** [String.prototype.toUpperCase] on the Basic Latin block, where it maps
    [a-z] to [A-Z] and leaves every other code unit alone.  The detector
    only applies it to the labels of [piiLabels], which are ASCII. *)
Definition upper_unit (c : N) : N :=
  if (N.leb 97 c && N.leb c 122)%bool then (c - 32)%N else c.

Definition toUpperCase (s : jsstring) : jsstring := map upper_unit s.

(** ** Regular expressions *)

(** Members of a character class. *)
Inductive class_item : Type :=
| CChar (c : ascii)            (* a literal character *)
| CRange (lo hi : ascii)       (* lo-hi *)
| CDigit                       (* \d *)
| CSpace.                      (* \s *)

(** The pattern syntax used by the detector.  Groups, capturing or not, are
    left implicit in the tree: the detector only reads [match[0]] and
    [match.index], and no pattern has a backreference. *)
Inductive regex : Type :=
| Eps                                         (* empty pattern *)
| Class (items : list class_item)             (* [...] or a single atom *)
| WordBoundary                                (* \b *)
| Seq (r1 r2 : regex)
| Alt (r1 r2 : regex)                         (* r1|r2 *)
| Repeat (min : nat) (max : option nat) (r : regex).  (* greedy r{min,max} *)

(** [\d] is [0-9]. *)
Definition is_digit (c : N) : bool := (N.leb 48 c && N.leb c 57)%bool.

(** [\s]: WhiteSpace and LineTerminator code points. *)
Definition is_space (c : N) : bool :=
  ((N.leb 9 c && N.leb c 13) || N.eqb c 32 || N.eqb c 160 || N.eqb c 5760
   || (N.leb 8192 c && N.leb c 8202) || N.eqb c 8232 || N.eqb c 8233
   || N.eqb c 8239 || N.eqb c 8287 || N.eqb c 12288 || N.eqb c 65279)%bool.

(** IsWordChar: [A-Za-z0-9_]. *)
Definition is_word_char (c : N) : bool :=
  ((N.leb 97 c && N.leb c 122) || (N.leb 65 c && N.leb c 90)
   || is_digit c || N.eqb c 95)%bool.

Definition item_mem (c : N) (it : class_item) : bool :=
  match it with
  | CChar a => N.eqb c (code a)
  | CRange lo hi => (N.leb (code lo) c && N.leb c (code hi))%bool
  | CDigit => is_digit c
  | CSpace => is_space c
  end.

Definition class_mem (c : N) (items : list class_item) : bool :=
  existsb (item_mem c) items.

(** *** The backtracking matcher

    The matcher follows the continuation semantics of the ECMAScript
    specification: a matcher takes the current end index [x] and a
    continuation [c], and answers with the end index of the whole match or
    with failure ([None]). *)
Section Matcher.

Variable input : jsstring.

Definition Continuation := nat -> option nat.
Definition Matcher := nat -> Continuation -> option nat.

(** The word-character test of [\b]; index [-1] is modelled by [None]. *)
Definition word_at (i : option nat) : bool :=
  match i with
  | None => false
  | Some i =>
      match nth_error input i with
      | Some ch => is_word_char ch
      | None => false
      end
  end.

Definition before (x : nat) : option nat :=
  match x with 0 => None | S p => Some p end.

(** The minimum part of a quantifier: exactly [n] iterations. *)
Fixpoint repeat_min (m : Matcher) (n : nat) (x : nat) (c : Continuation)
  : option nat :=
  match n with
  | 0 => c x
  | S n' => m x (fun y => repeat_min m n' y c)
  end.

(** The optional part of a greedy quantifier: at most [n] further
    iterations, each tried before the continuation, and an iteration that
    matches the empty string is rejected (the empty check of RepeatMatcher). *)
Fixpoint repeat_greedy (m : Matcher) (n : nat) (x : nat) (c : Continuation)
  : option nat :=
  match n with
  | 0 => c x
  | S n' =>
      match m x (fun y => if Nat.eqb y x then None
                          else repeat_greedy m n' y c) with
      | Some z => Some z
      | None => c x
      end
  end.

(** An unbounded quantifier cannot iterate more than [length input - x]
    times past its minimum, since every such iteration consumes at least
    one code unit; see [repeat_greedy_enough] below. *)
Fixpoint matcher (r : regex) (x : nat) (c : Continuation) {struct r}
  : option nat :=
  match r with
  | Eps => c x
  | Class items =>
      match nth_error input x with
      | Some ch => if class_mem ch items then c (S x) else None
      | None => None
      end
  | WordBoundary =>
      if xorb (word_at (before x)) (word_at (Some x)) then c x else None
  | Seq r1 r2 => matcher r1 x (fun y => matcher r2 y c)
  | Alt r1 r2 =>
      match matcher r1 x c with
      | Some z => Some z
      | None => matcher r2 x c
      end
  | Repeat min max r =>
      repeat_min (matcher r) min x
        (fun y =>
           repeat_greedy (matcher r)
             (match max with
              | Some mx => mx - min
              | None => length input - y
              end) y c)
  end.

(** One attempt to match at index [i]; the result is the end index. *)
Definition match_at (r : regex) (i : nat) : option nat :=
  matcher r i (fun y => Some y).

(** The search loop of RegExpBuiltinExec for a global, non-sticky pattern:
    starting at [lastIndex], try every index up to [length input]. *)
Fixpoint search (r : regex) (n : nat) (lastIndex : nat)
  : option (nat * nat) :=
  match n with
  | 0 => None
  | S n' =>
      match match_at r lastIndex with
      | Some e => Some (lastIndex, e)
      | None => search r n' (S lastIndex)
      end
  end.

(** [pattern.exec(input)] with [pattern.lastIndex = lastIndex]: [None] is
    the [null] result (and [lastIndex] is reset to 0), [Some (index, e)] is
    a match array with [match.index = index], [match[0]] the code units
    from [index] to [e], and [lastIndex] is set to [e]. *)
Definition exec (r : regex) (lastIndex : nat) : option (nat * nat) :=
  search r (S (length input) - lastIndex) lastIndex.

End Matcher.

(** *** Pattern notation *)

Fixpoint seqs (rs : list regex) : regex :=
  match rs with
  | [] => Eps
  | [r] => r
  | r :: rs' => Seq r (seqs rs')
  end.

Fixpoint alts (rs : list regex) : regex :=
  match rs with
  | [] => Class []
  | [r] => r
  | r :: rs' => Alt r (alts rs')
  end.

Definition chr (a : ascii) : regex := Class [CChar a].

Fixpoint lit (s : string) : regex :=
  match s with
  | EmptyString => Eps
  | String a EmptyString => chr a
  | String a s' => Seq (chr a) (lit s')
  end.

Definition opt (r : regex) : regex := Repeat 0 (Some 1) r.     (* r?  *)
Definition star (r : regex) : regex := Repeat 0 None r.        (* r*  *)
Definition plus (r : regex) : regex := Repeat 1 None r.        (* r+  *)
Definition times (n : nat) (r : regex) : regex := Repeat n (Some n) r.  (* r{n} *)

Definition digit : regex := Class [CDigit].                    (* \d, [0-9] *)
Definition space : regex := Class [CSpace].                    (* \s *)
Definition upper : regex := Class [CRange "A" "Z"].            (* [A-Z] *)
Definition lower : regex := Class [CRange "a" "z"].            (* [a-z] *)
Definition alnum : list class_item :=                          (* A-Za-z0-9 *)
  [CRange "A" "Z"; CRange "a" "z"; CRange "0" "9"].

(** ** Objects, sets and arrays of the runtime *)

(** The outcome of running a piece of the detector: a value, a thrown
    [TypeError], or a loop that is still running when its iteration budget is
    used up. *)
Inductive outcome (A : Type) : Type :=
| Ret (a : A)
| Throw
| Timeout.

Arguments Ret {A} a.
Arguments Throw {A}.
Arguments Timeout {A}.

Definition bind {A B : Type} (o : outcome A) (k : A -> outcome B)
  : outcome B :=
  match o with
  | Ret a => k a
  | Throw => Throw
  | Timeout => Timeout
  end.

Notation "x <- o ;; k" := (bind o (fun x => k))
  (at level 61, o at next level, right associativity).

(** An object with string keys, as the list of its own enumerable
    properties in creation order, which is the order of [for ... in]. *)
Definition object (A : Type) := list (jsstring * A).

Fixpoint obj_get {A : Type} (o : object A) (k : jsstring) : option A :=
  match o with
  | [] => None
  | (k', v) :: o' => if jsstring_eqb k k' then Some v else obj_get o' k
  end.

(** [o[k] = v]: an existing property keeps its place, a new one goes last. *)
Fixpoint obj_set {A : Type} (o : object A) (k : jsstring) (v : A)
  : object A :=
  match o with
  | [] => [(k, v)]
  | (k', v') :: o' =>
      if jsstring_eqb k k' then (k', v) :: o' else (k', v') :: obj_set o' k v
  end.

Definition keys {A : Type} (o : object A) : list jsstring := map fst o.

(** The properties every object literal inherits from [Object.prototype].
    Each of them is a function or an object: truthy, and without a method
    [exec]. *)
Definition Object_prototype : list jsstring :=
  map str [ "constructor"; "hasOwnProperty"; "isPrototypeOf";
            "propertyIsEnumerable"; "toLocaleString"; "toString"; "valueOf";
            "__proto__"; "__defineGetter__"; "__defineSetter__";
            "__lookupGetter__"; "__lookupSetter__" ]%string.

(** What [o[k]] evaluates to for an object literal [o]. *)
Inductive property (A : Type) : Type :=
| Own (v : A)          (* an own property *)
| Inherited            (* found on Object.prototype *)
| Undefined.

Arguments Own {A} v.
Arguments Inherited {A}.
Arguments Undefined {A}.

Definition get_property {A : Type} (o : object A) (k : jsstring)
  : property A :=
  match obj_get o k with
  | Some v => Own v
  | None =>
      if existsb (jsstring_eqb k) Object_prototype then Inherited
      else Undefined
  end.

(** [new Set(values)] followed by spreading: insertion order, one entry per
    distinct string. *)
Definition Set_add (s : list jsstring) (v : jsstring) : list jsstring :=
  if existsb (jsstring_eqb v) s then s else s ++ [v].

Definition Set_of (values : list jsstring) : list jsstring :=
  fold_left Set_add values [].

(** [Array.prototype.sort(cmp)] is stable; for a consistent comparator its
    result is the stable insertion sort. *)
Section Sort.
Variable A : Type.
Variable cmp : A -> A -> Z.

Fixpoint sort_insert (a : A) (l : list A) : list A :=
  match l with
  | [] => [a]
  | b :: l' => if (cmp a b <=? 0)%Z then a :: l else b :: sort_insert a l'
  end.

Fixpoint Array_sort (l : list A) : list A :=
  match l with
  | [] => []
  | a :: l' => sort_insert a (Array_sort l')
  end.
End Sort.

(** [String.prototype.match] with a global pattern: every match in turn, an
    empty match advancing [lastIndex] by one; [None] is the [null] returned
    when there is no match at all. *)
Fixpoint match_loop (fuel : nat) (r : regex) (s : jsstring) (lastIndex : nat)
  (A : list jsstring) : list jsstring :=
  match fuel with
  | 0 => A
  | S fuel' =>
      match exec s r lastIndex with
      | None => A
      | Some (index, e) =>
          match_loop fuel' r s (if Nat.eqb e index then S e else e)
            (A ++ [substring s index e])
      end
  end.

Definition String_match (s : jsstring) (r : regex) : option (list jsstring) :=
  match match_loop (S (S (length s))) r s 0 [] with
  | [] => None
  | A => Some A
  end.

(** [String.prototype.split] with a pattern as separator and no limit: [p] is
    the start of the piece being built, [q] the index where the separator is
    tried next. *)
Fixpoint split_loop (fuel : nat) (r : regex) (s : jsstring) (p q : nat)
  (A : list jsstring) : list jsstring :=
  match fuel with
  | 0 => A ++ [substring s p (length s)]
  | S fuel' =>
      if Nat.ltb q (length s) then
        match match_at s r q with
        | None => split_loop fuel' r s p (S q) A
        | Some e0 =>
            let e := Nat.min e0 (length s) in
            if Nat.eqb e p then split_loop fuel' r s p (S q) A
            else split_loop fuel' r s e e (A ++ [substring s p q])
        end
      else A ++ [substring s p (length s)]
  end.

Definition String_split (s : jsstring) (r : regex) : list jsstring :=
  match s with
  | [] => match match_at s r 0 with Some _ => [] | None => [s] end
  | _ => split_loop (S (2 * length s)) r s 0 0 []
  end.

(** [parseInt] of a string that starts with decimal digits: the value of
    the leading digits.  (Beyond 2^53 the runtime rounds to a double; the
    rounding is monotone and so does not change a comparison with 12 or
    31.) *)
Fixpoint parseInt_from (acc : N) (s : jsstring) : N :=
  match s with
  | [] => acc
  | c :: s' => if is_digit c then parseInt_from (10 * acc + (c - 48))%N s'
               else acc
  end.

Definition parseInt (s : jsstring) : N := parseInt_from 0%N s.

(** ** The detector *)

Module PIIDetector.

(** *** [this.patterns] *)

(** /\b[A-Za-z0-9][A-Za-z0-9._%+\-]*@[A-Za-z0-9][A-Za-z0-9.\-]*\.[A-Za-z]{2,}\b/g *)
Definition email_pattern : regex :=
  seqs [ WordBoundary;
         Class alnum;
         star (Class (alnum ++ [CChar "."; CChar "_"; CChar "%"; CChar "+"; CChar "-"]));
         chr "@";
         Class alnum;
         star (Class (alnum ++ [CChar "."; CChar "-"]));
         chr ".";
         Repeat 2 None (Class [CRange "A" "Z"; CRange "a" "z"]);
         WordBoundary ].

(** [-.\s] *)
Definition phone_sep : regex := Class [CChar "-"; CChar "."; CSpace].

(** /\b(?:\+?1[-.\s]?)?\(?([0-9]{3})\)?[-.\s]?([0-9]{3})[-.\s]?([0-9]{4})\b/g *)
Definition phone_pattern : regex :=
  seqs [ WordBoundary;
         opt (seqs [opt (chr "+"); chr "1"; opt phone_sep]);
         opt (chr "(");
         times 3 (Class [CRange "0" "9"]);
         opt (chr ")");
         opt phone_sep;
         times 3 (Class [CRange "0" "9"]);
         opt phone_sep;
         times 4 (Class [CRange "0" "9"]);
         WordBoundary ].

(** [A-Z][a-z]+(?:[-'][A-Z][a-z]+)? *)
Definition name_word : regex :=
  seqs [ upper; plus lower;
         opt (seqs [Class [CChar "-"; CChar "'"]; upper; plus lower]) ].

(** /\b(?:(?:Dr|Mr|Ms|Mrs|Prof)\.?\s+)?([A-Z][a-z]+(?:[-'][A-Z][a-z]+)?)\s+(?:([A-Z]\.?\s+))?([A-Z][a-z]+(?:[-'][A-Z][a-z]+)?)\b/g *)
Definition name_pattern : regex :=
  seqs [ WordBoundary;
         opt (seqs [ alts [lit "Dr"; lit "Mr"; lit "Ms"; lit "Mrs"; lit "Prof"];
                     opt (chr "."); plus space ]);
         name_word;
         plus space;
         opt (seqs [upper; opt (chr "."); plus space]);
         name_word;
         WordBoundary ].

(** /\b\d{1,5}\s+[A-Za-z0-9\s]+(?:Street|St|Avenue|Ave|Road|Rd|Boulevard|Blvd|Lane|Ln|Drive|Dr|Court|Ct|Circle|Cir)\b/g *)
Definition address_pattern : regex :=
  seqs [ WordBoundary;
         Repeat 1 (Some 5) digit;
         plus space;
         plus (Class (alnum ++ [CSpace]));
         alts [ lit "Street"; lit "St"; lit "Avenue"; lit "Ave"; lit "Road";
                lit "Rd"; lit "Boulevard"; lit "Blvd"; lit "Lane"; lit "Ln";
                lit "Drive"; lit "Dr"; lit "Court"; lit "Ct"; lit "Circle";
                lit "Cir" ];
         WordBoundary ].

(** /\b\d{3}-\d{2}-\d{4}\b/g *)
Definition ssn_pattern : regex :=
  seqs [ WordBoundary; times 3 digit; chr "-"; times 2 digit; chr "-";
         times 4 digit; WordBoundary ].

(** [-\s] *)
Definition card_sep : regex := Class [CChar "-"; CSpace].

(** /\b\d{4}[-\s]?\d{4}[-\s]?\d{4}[-\s]?\d{4}\b/g *)
Definition credit_card_pattern : regex :=
  seqs [ WordBoundary; times 4 digit; opt card_sep; times 4 digit;
         opt card_sep; times 4 digit; opt card_sep; times 4 digit;
         WordBoundary ].

(** [this.patterns], in the order of the object literal. *)
Definition patterns : object regex :=
  [ (str "email", email_pattern);
    (str "phone", phone_pattern);
    (str "name", name_pattern);
    (str "address", address_pattern);
    (str "ssn", ssn_pattern);
    (str "credit_card", credit_card_pattern) ].

(** [this.piiLabels]. *)
Definition piiLabels : object jsstring :=
  [ (str "email", str "Email Addresses");
    (str "phone", str "Phone Numbers");
    (str "name", str "Names");
    (str "address", str "Street Addresses");
    (str "ssn", str "Social Security Numbers");
    (str "credit_card", str "Credit Card Numbers") ].

(** The match records pushed by [detect]. *)
Record Match : Type := mkMatch {
  value : jsstring;
  start : nat;
  end_ : nat
}.

(** *** [filterPhoneFalsePositives] *)

(** The callback of [matches.filter]; [/\d+/g] is [plus digit]. *)
Definition phone_keep (m : Match) : bool :=
  match String_match (value m) (plus digit) with
  | Some digits =>
      if Nat.eqb (length digits) 3 then
        let first := parseInt (nth 0 digits []) in
        let second := parseInt (nth 1 digits []) in
        if (N.leb first 12 && N.leb second 31)%bool then false else true
      else true
  | None => true
  end.

Definition filterPhoneFalsePositives (matches : list Match) : list Match :=
  filter phone_keep matches.

(** *** [filterNameFalsePositives] *)

Definition commonWords : list jsstring :=
  map str [ "The"; "This"; "That"; "Will"; "May"; "June"; "July";
            "August"; "March"; "April"; "January"; "February" ]%string.

(** [commonWords.has(word)] *)
Definition commonWords_has (word : jsstring) : bool :=
  existsb (jsstring_eqb word) commonWords.

(** The callback of [matches.filter]; [/\s+/] is [plus space]. *)
Definition name_keep (m : Match) : bool :=
  let words := String_split (value m) (plus space) in
  negb (existsb commonWords_has words).

Definition filterNameFalsePositives (matches : list Match) : list Match :=
  filter name_keep matches.

(** *** [detect] *)

(** The [while ((match = pattern.exec(text)) !== null)] loop.  [fuel] bounds
    the number of calls of [exec]; [lastIndex] is the property of the
    pattern object, which [exec] sets to the end of each match. *)
Fixpoint scan (fuel : nat) (pattern : regex) (text : jsstring)
  (lastIndex : nat) (matches : list Match) : outcome (list Match) :=
  match fuel with
  | 0 => Timeout
  | S fuel' =>
      match exec text pattern lastIndex with
      | None => Ret matches
      | Some (index, e) =>
          let match0 := substring text index e in
          scan fuel' pattern text e
            (matches ++ [ {| value := match0;
                             start := index;
                             end_ := index + length match0 |} ])
      end
  end.

Definition detect (fuel : nat) (text : jsstring) (piiType : jsstring)
  : outcome (list Match) :=
  match get_property patterns piiType with
  | Undefined => Ret []                (* !this.patterns[piiType] *)
  | Inherited => Throw                 (* pattern.exec is not a function *)
  | Own pattern =>
      matches <- scan fuel pattern text 0 [] ;;
      if jsstring_eqb piiType (str "phone") then
        Ret (filterPhoneFalsePositives matches)
      else if jsstring_eqb piiType (str "name") then
        Ret (filterNameFalsePositives matches)
      else Ret matches
  end.

(** *** [detectAll] *)

Fixpoint detectAll_loop (fuel : nat) (text : jsstring)
  (piiTypes : list jsstring) (results : object (list Match))
  : outcome (object (list Match)) :=
  match piiTypes with
  | [] => Ret results
  | piiType :: rest =>
      ms <- detect fuel text piiType ;;
      detectAll_loop fuel text rest (obj_set results piiType ms)
  end.

Definition detectAll (fuel : nat) (text : jsstring)
  : outcome (object (list Match)) :=
  detectAll_loop fuel text (keys patterns) [].

(** *** [getSummary] *)

(** [for (const piiType in results)] visits the own properties of [results]
    in order, and [results[piiType]] is the value of the visited one. *)
Definition getSummary (fuel : nat) (text : jsstring) : outcome (object nat) :=
  results <- detectAll fuel text ;;
  Ret (fold_left
         (fun summary '(piiType, ms) => obj_set summary piiType (length ms))
         results []).

(** *** [getUniqueValues] *)

Definition getUniqueValues (fuel : nat) (text : jsstring)
  : outcome (object (list jsstring)) :=
  results <- detectAll fuel text ;;
  Ret (fold_left
         (fun unique '(piiType, ms) =>
            obj_set unique piiType (Set_of (map value ms)))
         results []).

(** *** [anonymize] *)

(** The elements of [allMatches]: a match record with its [type]. *)
Record TypedMatch : Type := mkTyped {
  base : Match;
  type : jsstring
}.

(** The two nested loops that fill [allMatches]. *)
Definition collect (results : object (list Match)) : list TypedMatch :=
  fold_left
    (fun allMatches '(piiType, ms) =>
       fold_left
         (fun allMatches m => allMatches ++ [ {| base := m; type := piiType |} ])
         ms allMatches)
    results [].

(** The comparator [(a, b) => b.start - a.start]. *)
Definition by_start_desc (a b : TypedMatch) : Z :=
  (Z.of_nat (start (base b)) - Z.of_nat (start (base a)))%Z.

Definition placeholder (label : jsstring) : jsstring :=
  str "[" ++ toUpperCase label ++ str "]".

(** The replacement loop. *)
Fixpoint replace_all (allMatches : list TypedMatch) (anonymized : jsstring)
  : outcome jsstring :=
  match allMatches with
  | [] => Ret anonymized
  | m :: rest =>
      match obj_get piiLabels (type m) with
      | None => Throw                  (* undefined.toUpperCase() *)
      | Some label =>
          replace_all rest
            (substring anonymized 0 (start (base m))
               ++ placeholder label
               ++ substring_from anonymized (end_ (base m)))
      end
  end.

Definition anonymize (fuel : nat) (text : jsstring) : outcome jsstring :=
  results <- detectAll fuel text ;;
  replace_all (Array_sort by_start_desc (collect results)) text.

(** *** [getLabel] *)

(** The value of [this.piiLabels[piiType] || piiType]: a string, or, for a
    name found on [Object.prototype], the inherited function or object. *)
Inductive label_value : Type :=
| LabelString (s : jsstring)
| LabelInherited.

Definition getLabel (piiType : jsstring) : label_value :=
  match get_property piiLabels piiType with
  | Own [] => LabelString piiType           (* an empty label is falsy *)
  | Own l => LabelString l
  | Inherited => LabelInherited
  | Undefined => LabelString piiType
  end.

End PIIDetector.

(** ** More of the runtime: numbers as text, [trim], captures, URIs *)

(** The decimal text of a count, as a template literal or [textContent]
    renders it. *)
Fixpoint digits_of (u : Decimal.uint) : jsstring :=
  match u with
  | Decimal.Nil => []
  | Decimal.D0 u' => 48%N :: digits_of u'
  | Decimal.D1 u' => 49%N :: digits_of u'
  | Decimal.D2 u' => 50%N :: digits_of u'
  | Decimal.D3 u' => 51%N :: digits_of u'
  | Decimal.D4 u' => 52%N :: digits_of u'
  | Decimal.D5 u' => 53%N :: digits_of u'
  | Decimal.D6 u' => 54%N :: digits_of u'
  | Decimal.D7 u' => 55%N :: digits_of u'
  | Decimal.D8 u' => 56%N :: digits_of u'
  | Decimal.D9 u' => 57%N :: digits_of u'
  end.

Definition Number_toString (n : nat) : jsstring := digits_of (Nat.to_uint n).

(** [String.prototype.trim]: white space and line terminators are dropped
    at both ends; they are the code units of [\s]. *)
Fixpoint trimStart (s : jsstring) : jsstring :=
  match s with
  | [] => []
  | c :: s' => if is_space c then trimStart s' else s
  end.

Definition trim (s : jsstring) : jsstring :=
  rev (trimStart (rev (trimStart s))).

(** The matcher again, with a continuation that may answer with any kind of
    result: this is what lets a capture group record where it began. *)
Section CaptureMatcher.

Variable input : jsstring.
Variable R : Type.

Fixpoint repeat_minR (m : nat -> (nat -> option R) -> option R) (n : nat)
  (x : nat) (c : nat -> option R) : option R :=
  match n with
  | 0 => c x
  | S n' => m x (fun y => repeat_minR m n' y c)
  end.

Fixpoint repeat_greedyR (m : nat -> (nat -> option R) -> option R)
  (n : nat) (x : nat) (c : nat -> option R) : option R :=
  match n with
  | 0 => c x
  | S n' =>
      match m x (fun y => if Nat.eqb y x then None
                          else repeat_greedyR m n' y c) with
      | Some z => Some z
      | None => c x
      end
  end.

Fixpoint matcherR (r : regex) (x : nat) (c : nat -> option R) {struct r}
  : option R :=
  match r with
  | Eps => c x
  | Class items =>
      match nth_error input x with
      | Some ch => if class_mem ch items then c (S x) else None
      | None => None
      end
  | WordBoundary =>
      if xorb (word_at input (before x)) (word_at input (Some x))
      then c x else None
  | Seq r1 r2 => matcherR r1 x (fun y => matcherR r2 y c)
  | Alt r1 r2 =>
      match matcherR r1 x c with
      | Some z => Some z
      | None => matcherR r2 x c
      end
  | Repeat min max r =>
      repeat_minR (matcherR r) min x
        (fun y =>
           repeat_greedyR (matcherR r)
             (match max with
              | Some mx => mx - min
              | None => length input - y
              end) y c)
  end.

End CaptureMatcher.

(** A pattern [pre(grp)]: one capture group, which closes the pattern.  A
    match at [i] answers with the index where the group began and the index
    where it, and the match, ended. *)
Definition match_group_at (input : jsstring) (pre grp : regex) (i : nat)
  : option (nat * nat) :=
  matcherR input pre i
    (fun x => matcherR input grp x (fun y => Some (x, y))).

Fixpoint search_group (input : jsstring) (pre grp : regex) (n : nat)
  (index : nat) : option (nat * nat * nat) :=
  match n with
  | 0 => None
  | S n' =>
      match match_group_at input pre grp index with
      | Some (x, y) => Some (index, x, y)
      | None => search_group input pre grp n' (S index)
      end
  end.

(** [s.match(/pre(grp)/)] for a pattern without the [g] flag: the search
    starts at index 0; the result is [match[0]] and [match[1]], or [null]. *)
Definition String_match_group (s : jsstring) (pre grp : regex)
  : option (jsstring * jsstring) :=
  match search_group s pre grp (S (length s)) 0 with
  | Some (index, x, y) => Some (substring s index y, substring s x y)
  | None => None
  end.

(** [encodeURIComponent]: the unreserved marks and alphanumerics stay,
    every other code point becomes the percent-escapes of its UTF-8 octets;
    [None] is the [URIError] thrown at a lone surrogate. *)
Definition uri_unreserved (c : N) : bool :=
  ((N.leb 65 c && N.leb c 90) || (N.leb 97 c && N.leb c 122)
   || (N.leb 48 c && N.leb c 57)
   || existsb (N.eqb c) (str "-_.!~*'()"))%bool.

Definition hex_digit (d : N) : N :=
  if N.ltb d 10 then (48 + d)%N else (55 + d)%N.

Definition percent (octet : N) : jsstring :=
  [code "%"; hex_digit (octet / 16); hex_digit (octet mod 16)]%N.

Definition utf8 (v : N) : list N :=
  if N.ltb v 128 then [v]
  else if N.ltb v 2048 then [192 + v / 64; 128 + v mod 64]%N
  else if N.ltb v 65536 then
    [224 + v / 4096; 128 + (v / 64) mod 64; 128 + v mod 64]%N
  else
    [240 + v / 262144; 128 + (v / 4096) mod 64; 128 + (v / 64) mod 64;
     128 + v mod 64]%N.

Definition is_high_surrogate (c : N) : bool :=
  (N.leb 55296 c && N.leb c 56319)%bool.

Definition is_low_surrogate (c : N) : bool :=
  (N.leb 56320 c && N.leb c 57343)%bool.

Fixpoint encodeURIComponent (s : jsstring) : option jsstring :=
  match s with
  | [] => Some []
  | c :: rest =>
      if uri_unreserved c then option_map (cons c) (encodeURIComponent rest)
      else if is_low_surrogate c then None
      else if is_high_surrogate c then
        match rest with
        | k :: rest' =>
            if is_low_surrogate k then
              option_map
                (app (flat_map percent
                        (utf8 ((c - 55296) * 1024 + (k - 56320) + 65536)%N)))
                (encodeURIComponent rest')
            else None
        | [] => None
        end
      else
        option_map (app (flat_map percent (utf8 c)))
          (encodeURIComponent rest)
  end.

(** ** The content fetcher (content_fetcher.js) *)

Module ContentFetcher.

(** [this.platformPatterns]: each pattern is a literal followed by its
    capture group. *)

(** /pastebin\.com\/([A-Za-z0-9]+)/ *)
Definition pastebin_pattern : regex * regex :=
  (lit "pastebin.com/", plus (Class alnum)).

(** /docs\.google\.com\/document\/d\/([A-Za-z0-9_-]+)/ *)
Definition google_docs_pattern : regex * regex :=
  (lit "docs.google.com/document/d/",
   plus (Class (alnum ++ [CChar "_"; CChar "-"]))).

Definition platformPatterns : object (regex * regex) :=
  [ (str "pastebin", pastebin_pattern);
    (str "google_docs", google_docs_pattern) ].

(** [this.corsProxy] *)
Definition corsProxy : jsstring := str "https://api.allorigins.win/raw?url=".

(** The object [{ platform, docId }]; [docId: null] is [None]. *)
Record PlatformInfo : Type := mkPlatformInfo {
  platform : jsstring;
  docId : option jsstring
}.

(** The loop over [Object.entries(this.platformPatterns)]. *)
Fixpoint detectPlatform_loop (entries : object (regex * regex))
  (url : jsstring) : PlatformInfo :=
  match entries with
  | [] => {| platform := str "unknown"; docId := None |}
  | (name, (pre, grp)) :: rest =>
      match String_match_group url pre grp with
      | Some (_, group1) => {| platform := name; docId := Some group1 |}
      | None => detectPlatform_loop rest url
      end
  end.

Definition detectPlatform (url : jsstring) : PlatformInfo :=
  detectPlatform_loop platformPatterns url.

Definition transformPastebinUrl (pasteId : jsstring) : jsstring :=
  str "https://pastebin.com/raw/" ++ pasteId.

Definition transformGoogleDocsUrl (docId : jsstring) : jsstring :=
  str "https://docs.google.com/document/d/" ++ docId
    ++ str "/export?format=txt".

(** The object returned by [validateUrl]; the fields [platform] and [docId]
    are only there when the URL is valid. *)
Record Validation : Type := mkValidation {
  valid : bool;
  message : jsstring;
  valid_platform : option jsstring;
  valid_docId : option jsstring
}.

Definition invalid (msg : jsstring) : Validation :=
  {| valid := false; message := msg;
     valid_platform := None; valid_docId := None |}.

Definition validateUrl (url : jsstring) : Validation :=
  match url, trim url with
  | [], _ | _, [] => invalid (str "Empty URL")      (* !url || !url.trim() *)
  | _, _ =>
      let info := detectPlatform url in
      if jsstring_eqb (platform info) (str "unknown") then
        invalid (str "Unsupported platform. Supported: Pastebin, Google Docs")
      else
        match docId info with
        | None | Some [] =>                          (* !docId *)
            invalid (str "Could not extract document ID from "
                       ++ platform info)
        | Some id =>
            {| valid := true;
               message := str "Valid " ++ platform info ++ str " URL";
               valid_platform := Some (platform info);
               valid_docId := Some id |}
        end
  end.

(** What [await fetch(url)] and [await response.text()] can do.  The network
    is a parameter of the model. *)
Inductive Body : Type :=
| Text (content : jsstring)
| TextFails (message : jsstring).       (* response.text() rejects *)

Inductive FetchResult : Type :=
| Rejected (message : jsstring)         (* fetch rejects: network, CORS *)
| Response (ok : bool) (status : nat) (body : Body).

Definition Fetch := jsstring -> FetchResult.

(** The object the fetch methods return; an absent field is [None], and so
    is [content: null]. *)
Record FetchReport : Type := mkReport {
  success : bool;
  content : option jsstring;
  report_platform : option jsstring;
  method : option jsstring;
  error : option jsstring
}.

Definition fetchPastebin (fetch : Fetch) (pasteId : jsstring) : FetchReport :=
  let url := transformPastebinUrl pasteId in
  let failed msg :=
    {| success := false; content := None;
       report_platform := Some (str "pastebin"); method := None;
       error := Some msg |} in
  match fetch url with
  | Rejected msg => failed msg
  | Response ok status body =>
      if negb ok then
        failed (str "HTTP error! status: " ++ Number_toString status)
      else
        match body with
        | TextFails msg => failed msg
        | Text c =>
            {| success := true; content := Some c;
               report_platform := Some (str "pastebin");
               method := Some (str "direct"); error := None |}
        end
  end.

(** One strategy of [fetchGoogleDocs]: the content, when the response is
    [ok] and its text arrives. *)
Definition fetched_text (r : FetchResult) : option jsstring :=
  match r with
  | Response true _ (Text c) => Some c
  | _ => None
  end.

Definition fetchGoogleDocs (fetch : Fetch) (docId : jsstring)
  : outcome FetchReport :=
  let primaryUrl := transformGoogleDocsUrl docId in
  let found how c :=
    {| success := true; content := Some c;
       report_platform := Some (str "google_docs");
       method := Some how; error := None |} in
  match fetched_text (fetch primaryUrl) with
  | Some c => Ret (found (str "direct") c)
  | None =>
      match encodeURIComponent primaryUrl with
      | None => Throw                             (* URIError *)
      | Some encoded =>
          let fallbackUrl := corsProxy ++ encoded in
          match fetched_text (fetch fallbackUrl) with
          | Some c => Ret (found (str "proxy") c)
          | None =>
              Ret {| success := false; content := None;
                     report_platform := Some (str "google_docs");
                     method := None;
                     error := Some (str "Both direct and proxy fetch methods failed. The document may require authentication or may not exist.") |}
          end
      end
  end.

Definition fetchContent (fetch : Fetch) (url : jsstring)
  : outcome FetchReport :=
  let validation := validateUrl url in
  let refused msg :=
    {| success := false; content := None; report_platform := None;
       method := None; error := Some msg |} in
  if negb (valid validation) then Ret (refused (message validation))
  else
    match valid_platform validation, valid_docId validation with
    | Some p, Some id =>
        if jsstring_eqb p (str "pastebin") then Ret (fetchPastebin fetch id)
        else if jsstring_eqb p (str "google_docs") then
          fetchGoogleDocs fetch id
        else Ret (refused (str "Unsupported platform"))
    | _, _ => Ret (refused (str "Unsupported platform"))
    end.

End ContentFetcher.

(** ** The page logic (the main script) *)

Module App.

Import PIIDetector ContentFetcher.

(** A [span] of class [pii-tag]: its text, and whether it is set in
    italics. *)
Record Tag : Type := mkTag {
  tag_text : jsstring;
  tag_italic : bool
}.

(** A [div] of class [pii-item]: the text of its heading and its tags.  The
    heading is [None] when [getLabel] hands back a member of
    [Object.prototype], whose text is up to the runtime. *)
Record Item : Type := mkItem {
  title : option jsstring;
  tags : list Tag
}.

(** What the element [pii-details] holds in the end. *)
Inductive Details : Type :=
| Message (html : jsstring)
| Items (items : list Item).

(** The tags of one category: up to ten values, then a note on the rest.
    [values.slice(0, 10)] is [firstn 10]. *)
Definition value_tags (values : list jsstring) : list Tag :=
  map (fun v => {| tag_text := v; tag_italic := false |}) (firstn 10 values)
    ++ (if Nat.ltb 10 (length values) then
          [ {| tag_text := str "... and "
                             ++ Number_toString (length values - 10)
                             ++ str " more";
               tag_italic := true |} ]
        else []).

Definition item_title (piiType : jsstring) (found : nat) : option jsstring :=
  match getLabel piiType with
  | LabelString l =>
      Some (l ++ str " (" ++ Number_toString found ++ str " found)")
  | LabelInherited => None
  end.

Definition no_pii_message : jsstring :=
  str "<p style=" ++ [34%N]
    ++ str "color: var(--secondary-color); font-weight: 500;" ++ [34%N]
    ++ str ">" ++ [10003%N] ++ str " No PII detected in this document.</p>".

Definition displayPIIBreakdown (piiResults : object (list jsstring))
  : Details :=
  let container :=
    fold_left
      (fun container '(piiType, values) =>
         if Nat.eqb (length values) 0 then container
         else container
                ++ [ {| title := item_title piiType (length values);
                        tags := value_tags values |} ])
      piiResults [] in
  match container with
  | [] => Message no_pii_message          (* container.innerHTML === '' *)
  | _ => Items container
  end.

(** The text put into [content-display]. *)
Definition displayContentPreview (fuel : nat) (content : jsstring)
  : outcome jsstring :=
  anonymized <- anonymize fuel content ;;
  let preview := substring anonymized 0 1000 in
  Ret (preview
         ++ (if Nat.ltb 1000 (length anonymized) then
               [10%N; 10%N] ++ str "... (content truncated)"
             else [])).

(** [piiResults.email && piiResults.email.length > 0], for any of the
    property names used. *)
Definition has_values (piiResults : object (list jsstring)) (name : string)
  : bool :=
  match obj_get piiResults (str name) with
  | Some values => Nat.ltb 0 (length values)
  | None => false
  end.

Definition count_of (piiResults : object (list jsstring)) (name : string)
  : nat :=
  match obj_get piiResults (str name) with
  | Some values => length values
  | None => 0
  end.

Definition warning_sign : jsstring := [9888%N; 65039%N].

(** The texts of the list items put into [recommendations-list]. *)
Definition displayRecommendations (piiResults : object (list jsstring))
  (totalPII : nat) : list jsstring :=
  if Nat.eqb totalPII 0 then
    [ str "No PII detected. This document appears safe for public sharing." ]
  else
    [ str "This document contains personally identifiable information (PII)." ]
      ++ (if has_values piiResults "email" then
            [ str "Found " ++ Number_toString (count_of piiResults "email")
                ++ str " email address(es). Consider removing or redacting them." ]
          else [])
      ++ (if has_values piiResults "phone" then
            [ str "Found " ++ Number_toString (count_of piiResults "phone")
                ++ str " phone number(s). These should not be publicly accessible." ]
          else [])
      ++ (if has_values piiResults "ssn" then
            [ warning_sign
                ++ str " CRITICAL: Social Security Numbers detected. Remove immediately!" ]
          else [])
      ++ (if has_values piiResults "credit_card" then
            [ warning_sign
                ++ str " CRITICAL: Credit card numbers detected. Remove immediately!" ]
          else [])
      ++ [ str "Review document permissions and limit access to specific individuals only.";
           str "Do not use " ++ [34%N] ++ str "anyone with the link" ++ [34%N]
             ++ str " sharing for sensitive documents.";
           str "Consider using password protection or expiration dates for shared links." ].

(** The loop of [displayResults] over the categories: [totalPII] and
    [typesDetected]. *)
Definition totals (piiResults : object (list jsstring)) : nat * nat :=
  fold_left
    (fun '(totalPII, typesDetected) '(piiType, values) =>
       let count := length values in
       if Nat.ltb 0 count then (totalPII + count, S typesDetected)
       else (totalPII, typesDetected))
    piiResults (0, 0).

(** What [displayResults] writes: the three figures of the summary, the
    class of the risk card, and the three parts filled by the other display
    functions. *)
Record Page : Type := mkPage {
  total_pii : nat;
  pii_types : nat;
  risk_level : jsstring;
  risk_card_class : jsstring;
  pii_details : Details;
  content_display : jsstring;
  recommendations_list : list jsstring
}.

Definition displayResults (fuel : nat) (piiResults : object (list jsstring))
  (content : jsstring) : outcome Page :=
  let '(totalPII, typesDetected) := totals piiResults in
  let '(riskLevel, riskClass) :=
    if Nat.ltb 20 totalPII then (str "HIGH", str "risk-high")
    else if Nat.ltb 5 totalPII then (str "MEDIUM", str "risk-medium")
    else (str "LOW", []) in
  preview <- displayContentPreview fuel content ;;
  Ret {| total_pii := totalPII;
         pii_types := typesDetected;
         risk_level := riskLevel;
         risk_card_class := str "stat-card risk-level " ++ riskClass;
         pii_details := displayPIIBreakdown piiResults;
         content_display := preview;
         recommendations_list := displayRecommendations piiResults totalPII |}.

(** What the user sees after [handleAnalyze]: an alert with a message of
    the script, an alert with the message of an error of the runtime, or
    the results. *)
Inductive Screen : Type :=
| Alert (message : jsstring)
| AlertRuntimeError
| Results (page : Page).

(** [handleAnalyze], with the value of the URL field and the network as
    parameters. *)
Definition handleAnalyze (fuel : nat) (fetch : Fetch) (urlInput : jsstring)
  : outcome Screen :=
  let url := trim urlInput in
  match url with
  | [] => Ret (Alert (str "Please enter a URL"))
  | _ =>
      match fetchContent fetch url with
      | Timeout => Timeout
      | Throw => Ret AlertRuntimeError
      | Ret fetchResult =>
          if negb (success fetchResult) then
            Ret (Alert (str "Error: "
                          ++ match error fetchResult with
                             | None | Some [] => str "Failed to fetch content"
                             | Some e => e
                             end))
          else
            match content fetchResult with
            | None => Ret AlertRuntimeError
            | Some text =>
                match (piiResults <- getUniqueValues fuel text ;;
                       displayResults fuel piiResults text) with
                | Ret page => Ret (Results page)
                | Throw => Ret AlertRuntimeError
                | Timeout => Timeout
                end
            end
      end
  end.

End App.

Import PIIDetector.

(** * Vocabulary of the properties *)

(** The least number of code units a pattern consumes. *)
Fixpoint minlen (r : regex) : nat :=
  match r with
  | Eps => 0
  | Class _ => 1
  | WordBoundary => 0
  | Seq r1 r2 => minlen r1 + minlen r2
  | Alt r1 r2 => Nat.min (minlen r1) (minlen r2)
  | Repeat min _ r => min * minlen r
  end.

(** A matcher is sound for [k] when it succeeds only through its
    continuation, called at an index inside the input and at least [k]
    further on. *)
Definition sound_matcher (input : jsstring) (m : Matcher) (k : nat) : Prop :=
  forall x c z, x <= length input -> m x c = Some z ->
    exists y, x + k <= y /\ y <= length input /\ c y = Some z.

(** A matcher is local when its answer only depends on the values of the
    continuation between the current index and the end of the input. *)
Definition local_matcher (input : jsstring) (m : Matcher) : Prop :=
  forall x c1 c2, x <= length input ->
    (forall y, x <= y -> y <= length input -> c1 y = c2 y) ->
    m x c1 = m x c2.

(** A match record describes a non-empty slice of the document. *)
Definition span_of (text : jsstring) (m : Match) : Prop :=
  start m < end_ m /\ end_ m <= length text /\
  firstn (end_ m - start m) (skipn (start m) text) = value m.

(** Matches in textual order, none overlapping an earlier one. *)
Definition in_order (ms : list Match) : Prop :=
  StronglySorted (fun a b => start a < start b /\ end_ a <= start b) ms.

(** The raw matches of a category: what the scan loop returns. *)
Definition raw_matches (text : jsstring) (pattern : regex) (ms : list Match)
  : Prop :=
  forall fuel, length text < fuel -> scan fuel pattern text 0 [] = Ret ms.

(** The filter [detect] applies to a category. *)
Definition filter_of (c : jsstring) (ms : list Match) : list Match :=
  if jsstring_eqb c (str "phone") then filterPhoneFalsePositives ms
  else if jsstring_eqb c (str "name") then filterNameFalsePositives ms
  else ms.

(** An object with the same keys and the values taken through [f]. *)
Definition map_values (A B : Type) (f : A -> B) (o : object A) : object B :=
  map (fun '(k, v) => (k, f v)) o.

(** What [detectAll] stores for a category: the raw matches of its pattern,
    taken through its filter. *)
Definition category_result (text c : jsstring) (ms : list Match) : Prop :=
  exists pattern raw,
    obj_get patterns c = Some pattern
    /\ raw_matches text pattern raw
    /\ ms = filter_of c raw
    /\ Forall (span_of text) raw
    /\ in_order raw
    /\ length raw <= length text.

Section SortSpec.

Variable A : Type.
Variable key : A -> nat.

(** Highest key first. *)
Definition descending (l : list A) : Prop :=
StronglySorted (fun a b => key b <= key a) l.

(** The elements with key [k], in the order they have in [l]. *)
Definition with_key (k : nat) (l : list A) : list A :=
filter (fun a => key a =? k) l.

(** [l'] holds the elements of [l], those of equal key in the same
  order. *)
Definition stable_rearrangement (l l' : list A) : Prop :=
forall k, with_key k l' = with_key k l.

End SortSpec.

(** The cross-category list of retained matches, category by category in
    catalog order, duplicates kept. *)
Definition retained (results : object (list Match)) : list TypedMatch :=
  flat_map (fun '(c, ms) => map (fun m => {| base := m; type := c |}) ms)
    results.

(** The display label of a category of the catalog, [this.piiLabels[c]]. *)
Definition label (c : jsstring) : jsstring :=
  match obj_get piiLabels c with
  | Some l => l
  | None => []
  end.

(** Replacing positions [start, end) of [doc] by the placeholder of the
    category of [m]. *)
Definition redact (doc : jsstring) (m : TypedMatch) : jsstring :=
  firstn (start (base m)) doc
    ++ (str "[" ++ toUpperCase (label (type m)) ++ str "]")
    ++ skipn (end_ (base m)) doc.

Definition start_of (m : TypedMatch) : nat := start (base m).

(** Index of the first occurrence of [v] in [l]. *)
Fixpoint first_index (v : jsstring) (l : list jsstring) : nat :=
  match l with
  | [] => 0
  | x :: l' => if jsstring_eqb v x then 0 else S (first_index v l')
  end.

(** The values [Set_add] appends while it goes through [l], starting from
    the set [seen]. *)
Fixpoint added (seen l : list jsstring) : list jsstring :=
  match l with
  | [] => []
  | x :: l' =>
      if existsb (jsstring_eqb x) seen then added seen l'
      else x :: added (seen ++ [x]) l'
  end.

(** Membership in a character class, as a predicate on code units. *)
Definition in_class (items : list class_item) (c : N) : bool :=
  class_mem c items.

(** Length of the longest prefix of [s] made of code units satisfying [p]. *)
Fixpoint run_length (p : N -> bool) (s : jsstring) : nat :=
  match s with
  | [] => 0
  | c :: s' => if p c then S (run_length p s') else 0
  end.

(** The maximal runs of code units satisfying [p], left to right; [cur] is
    the run being read. *)
Fixpoint runs_from (p : N -> bool) (cur s : jsstring) : list jsstring :=
  match s with
  | [] => match cur with [] => [] | _ => [cur] end
  | c :: s' =>
      if p c then runs_from p (cur ++ [c]) s'
      else match cur with
           | [] => runs_from p [] s'
           | _ => cur :: runs_from p [] s'
           end
  end.

Definition runs (p : N -> bool) (s : jsstring) : list jsstring :=
  runs_from p [] s.

(** The pieces between maximal runs of separators: [cur] is the piece
    being read, [in_sep] tells that the previous code unit was a
    separator. *)
Fixpoint fields (sep : N -> bool) (in_sep : bool) (cur s : jsstring)
  : list jsstring :=
  match s with
  | [] => [cur]
  | c :: s' =>
      if sep c then
        if in_sep then fields sep true [] s'
        else cur :: fields sep true [] s'
      else fields sep false (cur ++ [c]) s'
  end.

(** The maximal digit runs of a string, left to right. *)
Definition digit_groups (s : jsstring) : list jsstring := runs is_digit s.

(** The maximal runs of non-whitespace code units of a string. *)
Definition ws_words (s : jsstring) : list jsstring :=
  runs (fun c => negb (is_space c)) s.

(** A document with matches of several categories, two of them equal in
    text. *)
Definition sample : jsstring :=
  str "Dr. John Smith, 123 Main Street, 555-123-4567, 555-123-4567".


(** ** Further vocabulary *)

(** The most code units a pattern can consume, when that is bounded. *)
Fixpoint maxlen (r : regex) : option nat :=
  match r with
  | Eps => Some 0
  | Class _ => Some 1
  | WordBoundary => Some 0
  | Seq r1 r2 =>
      match maxlen r1, maxlen r2 with
      | Some a, Some b => Some (a + b)
      | _, _ => None
      end
  | Alt r1 r2 =>
      match maxlen r1, maxlen r2 with
      | Some a, Some b => Some (Nat.max a b)
      | _, _ => None
      end
  | Repeat min (Some mx) r =>
      match maxlen r with
      | Some a => Some ((min + (mx - min)) * a)
      | None => None
      end
  | Repeat _ None _ => None
  end.

(** Every member of a class item lies between [lo] and [hi]. *)
Definition item_within (lo hi : N) (it : class_item) : bool :=
  match it with
  | CChar a => (N.leb lo (code a) && N.leb (code a) hi)%bool
  | CRange l h => (N.leb lo (code l) && N.leb (code h) hi)%bool
  | CDigit => (N.leb lo 48 && N.leb 57 hi)%bool
  | CSpace => (N.leb lo 9 && N.leb 65279 hi)%bool
  end.

(** A syntactic check that every match of a pattern holds a code unit
    between [lo] and [hi]. *)
Fixpoint needs (lo hi : N) (r : regex) : bool :=
  match r with
  | Eps => false
  | Class items => forallb (item_within lo hi) items
  | WordBoundary => false
  | Seq r1 r2 => (needs lo hi r1 || needs lo hi r2)%bool
  | Alt r1 r2 => (needs lo hi r1 && needs lo hi r2)%bool
  | Repeat min _ r => (Nat.ltb 0 min && needs lo hi r)%bool
  end.

(** Some code unit of [s] lies between [lo] and [hi]. *)
Definition has_unit (lo hi : N) (s : jsstring) : Prop :=
  exists ch, In ch s /\ (lo <= ch)%N /\ (ch <= hi)%N.

(** The code units of [D] from index [a] up to index [b]. *)
Definition slice (D : jsstring) (a b : nat) : jsstring :=
  firstn (b - a) (skipn a D).

(** A matcher that moves the end index by at most [k]. *)
Definition upper_matcher (m : Matcher) (k : nat) : Prop :=
  forall x c z, m x c = Some z -> exists y, y <= x + k /\ c y = Some z.

(** A matcher that passes a code unit between [lo] and [hi]. *)
Definition passing_matcher (input : jsstring) (lo hi : N) (m : Matcher)
  : Prop :=
  forall x c z, x <= length input -> m x c = Some z ->
    exists y, x <= y /\ y <= length input
              /\ has_unit lo hi (slice input x y) /\ c y = Some z.




(** What is known of the entry [detectAll] holds for a category: it is what
    [detect] returns; it is a sublist of the raw matches, each of which is a
    match of the pattern at its start index; and the raw matches cover
    every index where the pattern matches. *)
Definition entry_facts (D c : jsstring) (ms : list Match) : Prop :=
  exists pattern raw f,
    obj_get patterns c = Some pattern
    /\ raw_matches D pattern raw
    /\ ms = filter_of c raw
    /\ ms = filter f raw
    /\ (forall fuel, length D < fuel -> detect fuel D c = Ret ms)
    /\ Forall (span_of D) raw
    /\ Forall (fun m => match_at D pattern (start m) = Some (end_ m)) raw
    /\ (forall j e, j <= length D ->
          match_at D pattern j = Some e ->
          exists m, In m raw /\ start m <= j /\ j < end_ m).

Import ContentFetcher App.

(** [t] is a prefix of [s]. *)
Fixpoint starts_with (t s : jsstring) : bool :=
  match t, s with
  | [], _ => true
  | a :: t', b :: s' => (N.eqb b a && starts_with t' s')%bool
  | _ :: _, [] => false
  end.

(** All the addresses [fetchContent] can ask the network for, given the URL
    it is called with. *)
Definition requests (url : jsstring) : list jsstring :=
  let validation := validateUrl url in
  match valid_platform validation, valid_docId validation with
  | Some p, Some id =>
      if jsstring_eqb p (str "pastebin") then [transformPastebinUrl id]
      else if jsstring_eqb p (str "google_docs") then
        transformGoogleDocsUrl id
          :: match encodeURIComponent (transformGoogleDocsUrl id) with
             | Some encoded => [corsProxy ++ encoded]
             | None => []
             end
      else []
  | _, _ => []
  end.

(** The code units of a document identifier of Google Docs:
    [A-Za-z0-9_-]. *)
Definition doc_unit (c : N) : bool :=
  in_class (alnum ++ [CChar "_"; CChar "-"]) c.

(** The code units of a paste identifier: [A-Za-z0-9]. *)
Definition paste_unit (c : N) : bool := in_class alnum c.

(** The escapes of ASCII text: the unreserved code units stay, the others
    become a percent sign and two hexadecimal digits. *)
Definition escape_ascii (s : jsstring) : jsstring :=
  flat_map (fun c => if uri_unreserved c then [c] else percent c) s.

(** The number of values over all categories. *)
Definition sum_counts (o : object (list jsstring)) : nat :=
  list_sum (map (fun '(_, values) => length values) o).

(** The categories that have values, in order. *)
Definition with_values (o : object (list jsstring))
  : object (list jsstring) :=
  filter (fun '(_, values) => Nat.ltb 0 (length values)) o.

(** The unique values [getUniqueValues] computes from the entries of
    [detectAll]. *)
Definition unique_of (results : object (list Match))
  : object (list jsstring) :=
  map_values (fun ms => Set_of (map value ms)) results.

(** The text [displayContentPreview] shows for a redacted document. *)
Definition preview_of (anonymized : jsstring) : jsstring :=
  firstn 1000 anonymized
    ++ (if Nat.ltb 1000 (length anonymized) then
          [10%N; 10%N] ++ str "... (content truncated)"
        else []).

(** A document without anything the patterns need, a document with one
    email address, and two networks that serve a text: one at every
    address, one at the raw address of a paste only. *)
Definition plain_sample : jsstring := str "no data".

Definition mail_sample : jsstring := str "mail bob@example.com".

Definition serving (text : jsstring) : Fetch :=
  fun _ => Response true 200 (Text text).

Definition serving_paste (text : jsstring) : Fetch :=
  fun u =>
    if jsstring_eqb u (str "https://pastebin.com/raw/abc123") then
      Response true 200 (Text text)
    else Rejected (str "offline").

(** Two sets of unique values that differ in names and in the number of
    social security numbers only. *)
Definition advice_sample_1 : object (list jsstring) :=
  [ (str "email", [str "a@b.io"]);
    (str "name", [str "Ann Lee"; str "Bo Low"]);
    (str "ssn", [str "123-45-6789"; str "223-45-6789"]) ].

Definition advice_sample_2 : object (list jsstring) :=
  [ (str "email", [str "c@d.io"]); (str "ssn", [str "323-45-6789"]) ].

(** The report of a paste that arrived. *)
Definition paste_report (text : jsstring) : FetchReport :=
  {| success := true; content := Some text;
     report_platform := Some (str "pastebin");
     method := Some (str "direct"); error := None |}.

(** * Properties of the runtime model *)

(** ** Strings *)

Lemma jsstring_eqb_eq (a b : jsstring) : jsstring_eqb a b = true <-> a = b.
Proof.
  revert b; induction a as [|x a IH]; intros [|y b]; simpl;
    try (split; [discriminate | congruence]); try tauto.
  rewrite andb_true_iff, N.eqb_eq, IH.
  split; [intros [-> ->]; reflexivity | intros E; inversion E; auto].
Qed.

Lemma jsstring_eqb_refl (a : jsstring) : jsstring_eqb a a = true.
Proof. apply jsstring_eqb_eq; reflexivity. Qed.

Lemma jsstring_eqb_neq (a b : jsstring) : jsstring_eqb a b = false <-> a <> b.
Proof.
  rewrite <- jsstring_eqb_eq. destruct (jsstring_eqb a b); split; congruence.
Qed.

(** [substring] between ordered, in-range indices is the slice. *)
Lemma substring_slice (s : jsstring) (a b : nat) :
  a <= b -> b <= length s -> substring s a b = firstn (b - a) (skipn a s).
Proof.
  intros Hab Hb. unfold substring.
  rewrite (Nat.min_l a), (Nat.min_l b), (Nat.min_l a b), (Nat.max_r a b) by lia.
  reflexivity.
Qed.

Lemma substring_length (s : jsstring) (a b : nat) :
  a <= b -> b <= length s -> length (substring s a b) = b - a.
Proof.
  intros Hab Hb. rewrite substring_slice by assumption.
  rewrite length_firstn, length_skipn. lia.
Qed.

Lemma substring_prefix (s : jsstring) (n : nat) :
  substring s 0 n = firstn n s.
Proof.
  unfold substring. simpl. rewrite Nat.sub_0_r.
  destruct (Nat.le_ge_cases n (length s)) as [H|H].
  - rewrite Nat.min_l by assumption. reflexivity.
  - rewrite Nat.min_r by assumption.
    rewrite !firstn_all2 by lia. reflexivity.
Qed.

Lemma substring_suffix (s : jsstring) (n : nat) :
  substring_from s n = skipn n s.
Proof.
  unfold substring_from, substring.
  rewrite (Nat.min_id (length s)).
  destruct (Nat.le_ge_cases n (length s)) as [H|H].
  - rewrite (Nat.min_l n) by assumption.
    rewrite Nat.min_l, Nat.max_r by assumption.
    apply firstn_all2. rewrite length_skipn. lia.
  - rewrite (Nat.min_r n) by assumption.
    rewrite Nat.min_id, Nat.max_id, Nat.sub_diag. simpl.
    symmetry. apply skipn_all2. assumption.
Qed.

(** ** The matcher *)

Section MatcherFacts.

Variable input : jsstring.

Lemma repeat_min_sound (m : Matcher) (k : nat) :
  sound_matcher input m k -> forall n, sound_matcher input (repeat_min m n) (n * k).
Proof.
  intros Hm n; induction n as [|n IH]; intros x c z Hx H; simpl in *.
  - exists x. repeat split; [lia | assumption | assumption].
  - apply Hm in H; [|assumption]. destruct H as (y & Hy1 & Hy2 & H).
    apply IH in H; [|assumption]. destruct H as (y' & Hy1' & Hy2' & H).
    exists y'. repeat split; [lia | assumption | assumption].
Qed.

Lemma repeat_greedy_sound (m : Matcher) (k : nat) :
  sound_matcher input m k -> forall n, sound_matcher input (repeat_greedy m n) 0.
Proof.
  intros Hm n; induction n as [|n IH]; intros x c z Hx H; simpl in *.
  - exists x. repeat split; [lia | assumption | assumption].
  - destruct (m x _) as [z'|] eqn:E.
    + injection H as ->. apply Hm in E; [|assumption].
      destruct E as (y & Hy1 & Hy2 & E).
      destruct (Nat.eqb y x); [discriminate|].
      apply IH in E; [|assumption]. destruct E as (y' & Hy1' & Hy2' & E).
      exists y'. repeat split; [lia | assumption | assumption].
    + exists x. repeat split; [lia | assumption | assumption].
Qed.

Lemma matcher_sound (r : regex) : sound_matcher input (matcher input r) (minlen r).
Proof.
  induction r as [|items| |r1 IH1 r2 IH2|r1 IH1 r2 IH2|min max r IH];
    intros x c z Hx H; simpl in *.
  - exists x. repeat split; [lia | assumption | assumption].
  - destruct (nth_error input x) as [ch|] eqn:E; [|discriminate].
    destruct (class_mem ch items); [|discriminate].
    assert (x < length input) by (apply nth_error_Some; congruence).
    exists (S x). repeat split; [lia | lia | assumption].
  - destruct (xorb _ _); [|discriminate].
    exists x. repeat split; [lia | assumption | assumption].
  - apply IH1 in H; [|assumption]. destruct H as (y & Hy1 & Hy2 & H).
    apply IH2 in H; [|assumption]. destruct H as (y' & Hy1' & Hy2' & H).
    exists y'. repeat split; [lia | assumption | assumption].
  - destruct (matcher input r1 x c) as [z'|] eqn:E.
    + injection H as ->. apply IH1 in E; [|assumption].
      destruct E as (y & Hy1 & Hy2 & E).
      exists y. repeat split; [lia | assumption | assumption].
    + apply IH2 in H; [|assumption]. destruct H as (y & Hy1 & Hy2 & H).
      exists y. repeat split; [lia | assumption | assumption].
  - apply (repeat_min_sound IH) in H; [|assumption].
    destruct H as (y & Hy1 & Hy2 & H).
    apply (repeat_greedy_sound IH) in H; [|assumption].
    destruct H as (y' & Hy1' & Hy2' & H).
    exists y'. repeat split; [lia | assumption | assumption].
Qed.

Lemma repeat_min_local (m : Matcher) :
  local_matcher input m -> forall n, local_matcher input (repeat_min m n).
Proof.
  intros Hm n; induction n as [|n IH]; intros x c1 c2 Hx H; simpl.
  - apply H; [lia | assumption].
  - apply Hm; [assumption|]. intros y Hy1 Hy2.
    apply IH; [assumption|]. intros y' Hy1' Hy2'. apply H; [lia | assumption].
Qed.

Lemma repeat_greedy_local (m : Matcher) :
  local_matcher input m -> forall n, local_matcher input (repeat_greedy m n).
Proof.
  intros Hm n; induction n as [|n IH]; intros x c1 c2 Hx H; simpl.
  - apply H; [lia | assumption].
  - rewrite (H x) by lia.
    erewrite (Hm x); [reflexivity | assumption |].
    intros y Hy1 Hy2. simpl. destruct (Nat.eqb y x); [reflexivity|].
    apply IH; [assumption|]. intros y' Hy1' Hy2'. apply H; [lia | assumption].
Qed.

Lemma matcher_local (r : regex) : local_matcher input (matcher input r).
Proof.
  induction r as [|items| |r1 IH1 r2 IH2|r1 IH1 r2 IH2|min max r IH];
    intros x c1 c2 Hx H; simpl.
  - apply H; [lia | assumption].
  - destruct (nth_error input x) as [ch|] eqn:E; [|reflexivity].
    assert (x < length input) by (apply nth_error_Some; congruence).
    destruct (class_mem ch items); [|reflexivity]. apply H; lia.
  - destruct (xorb _ _); [|reflexivity]. apply H; [lia | assumption].
  - apply IH1; [assumption|]. intros y Hy1 Hy2.
    apply IH2; [assumption|]. intros y' Hy1' Hy2'. apply H; [lia | assumption].
  - rewrite (IH1 x c1 c2 Hx H), (IH2 x c1 c2 Hx H). reflexivity.
  - apply (repeat_min_local IH); [assumption|]. intros y Hy1 Hy2.
    apply (repeat_greedy_local IH); [assumption|].
    intros y' Hy1' Hy2'. apply H; [lia | assumption].
Qed.

(** Past [length input - x] iterations a greedy quantifier has nothing
    left to consume: a larger bound changes nothing.  This is why the
    unbounded quantifiers are run with that bound. *)
Lemma repeat_greedy_step (m : Matcher) (k : nat) :
  sound_matcher input m k -> local_matcher input m ->
  forall n x c, x <= length input -> length input - x <= n ->
    repeat_greedy m (S n) x c = repeat_greedy m n x c.
Proof.
  intros Hs Hl n; induction n as [|n IH]; intros x c Hx Hn.
  - simpl. destruct (m x _) as [z|] eqn:E; [|reflexivity].
    apply Hs in E; [|assumption]. destruct E as (y & Hy1 & Hy2 & E).
    assert (y = x) as -> by lia. rewrite Nat.eqb_refl in E. discriminate.
  - change (repeat_greedy m (S (S n)) x c)
      with (match m x (fun y => if Nat.eqb y x then None
                                else repeat_greedy m (S n) y c) with
            | Some z => Some z
            | None => c x
            end).
    change (repeat_greedy m (S n) x c)
      with (match m x (fun y => if Nat.eqb y x then None
                                else repeat_greedy m n y c) with
            | Some z => Some z
            | None => c x
            end).
    erewrite (Hl x); [reflexivity | assumption |].
    intros y Hy1 Hy2. simpl. destruct (Nat.eqb y x) eqn:E; [reflexivity|].
    apply Nat.eqb_neq in E. apply IH; lia.
Qed.

Lemma repeat_greedy_enough (r : regex) (n x : nat) (c : Continuation) :
  x <= length input -> length input - x <= n ->
  repeat_greedy (matcher input r) n x c
  = repeat_greedy (matcher input r) (length input - x) x c.
Proof.
  intros Hx Hn.
  replace n with ((n - (length input - x)) + (length input - x)) by lia.
  induction (n - (length input - x)) as [|d IH]; [reflexivity|].
  simpl Nat.add.
  rewrite (repeat_greedy_step (matcher_sound r) (matcher_local r))
    by lia.
  exact IH.
Qed.

(** *** [exec] *)

Lemma match_at_bounds (r : regex) (i e : nat) :
  i <= length input -> match_at input r i = Some e ->
  i + minlen r <= e /\ e <= length input.
Proof.
  intros Hi H. apply matcher_sound in H; [|assumption].
  destruct H as (y & Hy1 & Hy2 & H). injection H as <-. lia.
Qed.

Lemma search_bounds (r : regex) (n lastIndex index e : nat) :
  lastIndex + n <= S (length input) ->
  search input r n lastIndex = Some (index, e) ->
  lastIndex <= index /\ index + minlen r <= e /\ e <= length input.
Proof.
  revert lastIndex; induction n as [|n IH]; intros lastIndex Hn H; simpl in H.
  - discriminate.
  - destruct (match_at input r lastIndex) as [e'|] eqn:E.
    + injection H as <- <-.
      apply match_at_bounds in E; [lia | lia].
    + apply IH in H; [lia | lia].
Qed.

Lemma exec_bounds (r : regex) (lastIndex index e : nat) :
  exec input r lastIndex = Some (index, e) ->
  lastIndex <= index /\ index + minlen r <= e /\ e <= length input.
Proof.
  unfold exec. intros H.
  destruct (Nat.le_gt_cases lastIndex (S (length input))) as [Hl|Hl].
  - apply search_bounds in H; [assumption | lia].
  - replace (S (length input) - lastIndex) with 0 in H by lia.
    discriminate.
Qed.

(** The index reported by [exec] is one where the pattern matches, and the
    first such. *)
Lemma search_match (r : regex) (n lastIndex index e : nat) :
  search input r n lastIndex = Some (index, e) ->
  match_at input r index = Some e /\
  forall j, lastIndex <= j -> j < index -> match_at input r j = None.
Proof.
  revert lastIndex; induction n as [|n IH]; intros lastIndex H; simpl in H.
  - discriminate.
  - destruct (match_at input r lastIndex) as [e'|] eqn:E.
    + injection H as <- <-. split; [assumption | intros; lia].
    + apply IH in H. destruct H as [H1 H2]. split; [assumption|].
      intros j Hj1 Hj2.
      destruct (Nat.eq_dec j lastIndex) as [->|]; [assumption|].
      apply H2; lia.
Qed.

Lemma search_none (r : regex) (n lastIndex : nat) :
  search input r n lastIndex = None ->
  forall j, lastIndex <= j -> j < lastIndex + n -> match_at input r j = None.
Proof.
  revert lastIndex; induction n as [|n IH]; intros lastIndex H j Hj1 Hj2;
    simpl in H.
  - lia.
  - destruct (match_at input r lastIndex) as [e'|] eqn:E; [discriminate|].
    destruct (Nat.eq_dec j lastIndex) as [->|]; [assumption|].
    apply (IH _ H); lia.
Qed.

End MatcherFacts.


(** * Properties of the detector *)

(** ** The scan loop *)

Section Scan.

Variable pattern : regex.
Variable text : jsstring.
Hypothesis nonempty : 0 < minlen pattern.

(** From [lastIndex], the loop stops after at most
    [length text - lastIndex] matches and one failing [exec], whatever
    budget above that it is given. *)
Lemma scan_from (n : nat) :
  forall lastIndex matches,
    lastIndex <= length text -> length text - lastIndex <= n ->
    exists found,
      (forall fuel, n < fuel ->
         scan fuel pattern text lastIndex matches = Ret (matches ++ found))
      /\ Forall (span_of text) found
      /\ Forall (fun m => lastIndex <= start m) found
      /\ in_order found
      /\ length found <= length text - lastIndex.
Proof.
  induction n as [|n IH]; intros lastIndex matches Hl Hn.
  - exists []. rewrite app_nil_r.
    repeat split; try constructor; [|simpl; lia].
    intros [|fuel] Hf; [lia|]. simpl.
    destruct (exec text pattern lastIndex) as [[index e]|] eqn:E;
      [|reflexivity].
    apply exec_bounds in E. lia.
  - destruct (exec text pattern lastIndex) as [[index e]|] eqn:E.
    + pose proof (exec_bounds _ _ _ E) as (Hi & Hie & He).
      set (m := {| value := substring text index e;
                   start := index;
                   end_ := index + length (substring text index e) |}).
      assert (Hend : end_ m = e).
      { simpl. rewrite substring_length by lia. lia. }
      destruct (IH e (matches ++ [m])) as (found & Hrun & Hsp & Hst & Hord & Hlen);
        [assumption | lia |].
      exists (m :: found). repeat split.
      * intros [|fuel] Hf; [lia|]. simpl. rewrite E. fold m.
        rewrite Hrun by lia. rewrite <- app_assoc. reflexivity.
      * constructor; [|assumption].
        unfold span_of. rewrite Hend. simpl start. simpl value.
        repeat split; [lia | assumption |].
        symmetry. apply substring_slice; lia.
      * constructor; [simpl; lia|].
        eapply Forall_impl; [|exact Hst]. simpl; intros; lia.
      * constructor; [assumption|].
        eapply Forall_impl; [|exact Hst]. rewrite Hend. simpl; intros; lia.
      * simpl. lia.
    + exists []. rewrite app_nil_r.
      repeat split; try constructor; [|simpl; lia].
      intros [|fuel] Hf; [lia|]. simpl. rewrite E. reflexivity.
Qed.

Lemma scan_total :
  exists found,
    (forall fuel, length text < fuel ->
       scan fuel pattern text 0 [] = Ret found)
    /\ Forall (span_of text) found
    /\ in_order found
    /\ length found <= length text.
Proof.
  destruct (scan_from (n := length text) (lastIndex := 0) [])
    as (found & Hrun & Hsp & _ & Hord & Hlen); [lia | lia |].
  exists found. repeat split; try assumption; lia.
Qed.

End Scan.

(** Every pattern of the catalog consumes at least one code unit. *)
Lemma patterns_nonempty (c : jsstring) (pattern : regex) :
  obj_get patterns c = Some pattern -> 0 < minlen pattern.
Proof.
  unfold patterns. simpl.
  repeat (destruct (jsstring_eqb c _);
          [intros H; injection H as <-; vm_compute; lia|]).
  discriminate.
Qed.

(** Filtering keeps the order and the shape of the matches. *)
Lemma in_order_filter (f : Match -> bool) (ms : list Match) :
  in_order ms -> in_order (filter f ms).
Proof.
  unfold in_order. induction 1 as [|a l Hl IH Ha]; simpl; [constructor|].
  destruct (f a); [|assumption].
  constructor; [assumption|].
  apply Forall_forall. intros b Hb. apply filter_In in Hb.
  rewrite Forall_forall in Ha. apply Ha. tauto.
Qed.

(** ** [detect] on the catalog *)

Lemma filter_of_sub (c : jsstring) (ms : list Match) :
  exists f, filter_of c ms = filter f ms.
Proof.
  unfold filter_of, filterPhoneFalsePositives, filterNameFalsePositives.
  destruct (jsstring_eqb c (str "phone")); [eexists; reflexivity|].
  destruct (jsstring_eqb c (str "name")); [eexists; reflexivity|].
  exists (fun _ => true). symmetry. apply forallb_filter_id.
  induction ms; simpl; auto.
Qed.

Lemma detect_known (text c : jsstring) (pattern : regex) :
  obj_get patterns c = Some pattern ->
  exists raw,
    raw_matches text pattern raw
    /\ (forall fuel, length text < fuel ->
          detect fuel text c = Ret (filter_of c raw))
    /\ Forall (span_of text) raw
    /\ in_order raw
    /\ length raw <= length text.
Proof.
  intros Hc.
  destruct (@scan_total pattern text (patterns_nonempty _ Hc))
    as (raw & Hrun & Hsp & Hord & Hlen).
  exists raw. repeat split; try assumption.
  intros fuel Hf. unfold detect, get_property. rewrite Hc. rewrite Hrun by assumption.
  unfold bind, filter_of.
  destruct (jsstring_eqb c (str "phone")); [reflexivity|].
  destruct (jsstring_eqb c (str "name")); reflexivity.
Qed.

(** ** Objects *)

Section ObjectFacts.

Variable A : Type.

Lemma obj_get_In (o : object A) (k : jsstring) (v : A) :
  obj_get o k = Some v -> In (k, v) o.
Proof.
  induction o as [|[k' v'] o IH]; simpl; [discriminate|].
  destruct (jsstring_eqb k k') eqn:E.
  - apply jsstring_eqb_eq in E. subst k'. intros H; injection H as ->. auto.
  - auto.
Qed.

Lemma obj_get_keys (o : object A) (k : jsstring) :
  obj_get o k = None <-> ~ In k (keys o).
Proof.
  induction o as [|[k' v'] o IH]; simpl; [tauto|].
  destruct (jsstring_eqb k k') eqn:E.
  - apply jsstring_eqb_eq in E. subst k'. split; [discriminate | tauto].
  - apply jsstring_eqb_neq in E. rewrite IH. split; [|tauto].
    intros H [H'|H']; [congruence | tauto].
Qed.

Lemma obj_get_app (o o' : object A) (k : jsstring) :
  obj_get (o ++ o') k
  = match obj_get o k with Some v => Some v | None => obj_get o' k end.
Proof.
  induction o as [|[k' v'] o IH]; simpl; [reflexivity|].
  destruct (jsstring_eqb k k'); [reflexivity | exact IH].
Qed.

(** Setting a property the object does not have appends it. *)
Lemma obj_set_fresh (o : object A) (k : jsstring) (v : A) :
  obj_get o k = None -> obj_set o k v = o ++ [(k, v)].
Proof.
  induction o as [|[k' v'] o IH]; simpl; [reflexivity|].
  destruct (jsstring_eqb k k'); [discriminate|].
  intros H. rewrite IH by assumption. reflexivity.
Qed.

End ObjectFacts.

Section ForIn.

Variables A B : Type.

(** A loop [for (k in o) out[k] = f(o[k])] over an object with distinct
    keys builds the object with the same keys and the mapped values. *)
Lemma keys_map_values (f : A -> B) (o : object A) :
  keys (map_values f o) = keys o.
Proof.
  unfold keys, map_values. rewrite map_map. apply map_ext.
  intros [k v]; reflexivity.
Qed.

Lemma obj_get_map_values (f : A -> B) (o : object A) (k : jsstring) :
  obj_get (map_values f o) k = option_map f (obj_get o k).
Proof.
  induction o as [|[k' v'] o IH]; simpl; [reflexivity|].
  destruct (jsstring_eqb k k'); [reflexivity | exact IH].
Qed.

Lemma for_in_set (f : A -> B) (o : object A) :
  NoDup (keys o) ->
  forall out : object B,
    (forall k, In k (keys o) -> obj_get out k = None) ->
    fold_left (fun out '(k, v) => obj_set out k (f v)) o out
    = out ++ map_values f o.
Proof.
  induction o as [|[k v] o IH]; intros Hnd out Hout; simpl.
  - rewrite app_nil_r. reflexivity.
  - inversion Hnd as [|? ? Hk Hnd']; subst.
    rewrite obj_set_fresh by (apply Hout; simpl; auto).
    rewrite IH; [rewrite <- app_assoc; reflexivity | assumption |].
    intros k' Hk'. rewrite obj_get_app, Hout by (simpl; auto).
    simpl. destruct (jsstring_eqb k' k) eqn:E; [|reflexivity].
    apply jsstring_eqb_eq in E. subst k'. contradiction.
Qed.

End ForIn.

Lemma keys_patterns_NoDup : NoDup (keys patterns).
Proof.
  unfold keys, patterns. simpl.
  repeat (constructor; [simpl; intuition discriminate|]). constructor.
Qed.

(** ** [detectAll] *)

Lemma detectAll_loop_total (text : jsstring) (piiTypes : list jsstring) :
  NoDup piiTypes ->
  (forall c, In c piiTypes -> In c (keys patterns)) ->
  forall results,
    (forall c, In c piiTypes -> obj_get results c = None) ->
    exists more,
      (forall fuel, length text < fuel ->
         detectAll_loop fuel text piiTypes results = Ret (results ++ more))
      /\ keys more = piiTypes
      /\ Forall (fun '(c, ms) => category_result text c ms) more.
Proof.
  induction piiTypes as [|c rest IH]; intros Hnd Hin results Hfresh.
  - exists []. rewrite app_nil_r. split; [reflexivity|].
    split; [reflexivity | constructor].
  - inversion Hnd as [|? ? Hc Hnd']; subst.
    destruct (obj_get patterns c) as [pattern|] eqn:Hp.
    2:{ apply obj_get_keys in Hp. exfalso. apply Hp, Hin. simpl; auto. }
    destruct (detect_known text _ Hp) as (raw & Hraw & Hdet & Hsp & Hord & Hlen).
    destruct (IH Hnd' (fun c' H => Hin c' (or_intror H))
                (results ++ [(c, filter_of c raw)]))
      as (more & Hrun & Hkeys & Hall).
    { intros c' Hc'. rewrite obj_get_app, Hfresh by (simpl; auto).
      simpl. destruct (jsstring_eqb c' c) eqn:E; [|reflexivity].
      apply jsstring_eqb_eq in E. subst c'. contradiction. }
    exists ((c, filter_of c raw) :: more). split; [|split].
    + intros fuel Hf. simpl. rewrite Hdet by assumption. simpl.
      rewrite obj_set_fresh by (apply Hfresh; simpl; auto).
      rewrite Hrun by assumption. rewrite <- app_assoc. reflexivity.
    + simpl. rewrite Hkeys. reflexivity.
    + constructor; [|assumption].
      exists pattern, raw. repeat split; assumption.
Qed.

(** [detectAll] returns, for every document, one entry per category of the
    catalog, in catalog order, whatever budget above the length of the
    document the scan loops are given. *)
Lemma detectAll_total (text : jsstring) :
  exists results,
    (forall fuel, length text < fuel -> detectAll fuel text = Ret results)
    /\ keys results = keys patterns
    /\ Forall (fun '(c, ms) => category_result text c ms) results.
Proof.
  destruct (@detectAll_loop_total text (keys patterns) keys_patterns_NoDup
              (fun c H => H) [] (fun c H => eq_refl))
    as (more & Hrun & Hkeys & Hall).
  exists more. split; [exact Hrun|]. split; assumption.
Qed.

Lemma detectAll_entry (text : jsstring) (results : object (list Match))
  (c : jsstring) (ms : list Match) :
  Forall (fun '(c, ms) => category_result text c ms) results ->
  obj_get results c = Some ms -> category_result text c ms.
Proof.
  intros Hall Hget. apply obj_get_In in Hget.
  rewrite Forall_forall in Hall. exact (Hall _ Hget).
Qed.

(** ** Sorting by a key, descending *)

Section SortFacts.

Variable A : Type.
Variable key : A -> nat.
Variable cmp : A -> A -> Z.
Hypothesis cmp_key : forall a b, (cmp a b <=? 0)%Z = (key b <=? key a).

Lemma sort_insert_In (a b : A) (l : list A) :
  In b (sort_insert cmp a l) <-> b = a \/ In b l.
Proof.
  induction l as [|c l IH]; simpl; [intuition|].
  destruct (cmp a c <=? 0)%Z; simpl; [intuition|].
  rewrite IH. intuition.
Qed.

Lemma sort_insert_descending (a : A) (l : list A) :
  descending key l -> descending key (sort_insert cmp a l).
Proof.
  unfold descending. induction 1 as [|c l Hl IH Hc]; simpl.
  - repeat constructor.
  - destruct (cmp a c <=? 0)%Z eqn:E; rewrite cmp_key in E.
    + apply Nat.leb_le in E. constructor; [constructor; assumption|].
      constructor; [assumption|].
      eapply Forall_impl; [|exact Hc]. simpl; intros; lia.
    + apply Nat.leb_gt in E. constructor; [assumption|].
      apply Forall_forall. intros b Hb. apply sort_insert_In in Hb.
      destruct Hb as [->|Hb]; [lia|].
      rewrite Forall_forall in Hc. auto.
Qed.

Lemma sort_insert_with_key (k : nat) (a : A) (l : list A) :
  with_key key k (sort_insert cmp a l) = with_key key k (a :: l).
Proof.
  induction l as [|c l IH]; [reflexivity|].
  simpl sort_insert.
  destruct (cmp a c <=? 0)%Z eqn:E; [reflexivity|].
  rewrite cmp_key in E. apply Nat.leb_gt in E.
  unfold with_key in *. simpl in *. rewrite IH.
  destruct (key a =? k) eqn:Ea; [|reflexivity].
  apply Nat.eqb_eq in Ea.
  replace (key c =? k) with false; [reflexivity|].
  symmetry. apply Nat.eqb_neq. lia.
Qed.

Lemma Array_sort_Permutation (l : list A) :
  Permutation (Array_sort cmp l) l.
Proof.
  induction l as [|a l IH]; simpl; [constructor|].
  transitivity (a :: Array_sort cmp l); [|constructor; exact IH].
  generalize (Array_sort cmp l) as s. clear IH.
  induction s as [|b s IHs]; simpl; [reflexivity|].
  destruct (cmp a b <=? 0)%Z; [reflexivity|].
  transitivity (b :: a :: s); [constructor; exact IHs | constructor].
Qed.

Lemma Array_sort_descending (l : list A) : descending key (Array_sort cmp l).
Proof.
  induction l as [|a l IH]; simpl; [constructor|].
  apply sort_insert_descending, IH.
Qed.

Lemma Array_sort_stable (l : list A) :
  stable_rearrangement key l (Array_sort cmp l).
Proof.
  intros k. induction l as [|a l IH]; simpl; [reflexivity|].
  rewrite sort_insert_with_key. unfold with_key in *. simpl.
  rewrite IH. reflexivity.
Qed.

Lemma with_key_above (k bound : nat) (l : list A) :
  Forall (fun b => key b <= bound) l -> bound < k -> with_key key k l = [].
Proof.
  intros H Hk. induction H as [|b l Hb Hl IH]; simpl; [reflexivity|].
  replace (key b =? k) with false; [exact IH|].
  symmetry. apply Nat.eqb_neq. lia.
Qed.

(** A descending list is determined by its elements of each key. *)
Lemma descending_unique (l1 : list A) :
  forall l2, descending key l1 -> descending key l2 ->
    (forall k, with_key key k l1 = with_key key k l2) -> l1 = l2.
Proof.
  induction l1 as [|a l1 IH]; intros [|b l2] H1 H2 H.
  - reflexivity.
  - specialize (H (key b)). simpl in H. rewrite Nat.eqb_refl in H.
    discriminate.
  - specialize (H (key a)). simpl in H. rewrite Nat.eqb_refl in H.
    discriminate.
  - inversion H1 as [|? ? H1' Ha]; inversion H2 as [|? ? H2' Hb]; subst.
    assert (Hk : key a = key b).
    { destruct (Nat.lt_trichotomy (key a) (key b)) as [Hlt|[Heq|Hgt]];
        [exfalso | assumption | exfalso].
      - specialize (H (key b)). simpl in H.
        rewrite Nat.eqb_refl in H.
        replace (key a =? key b) with false in H
          by (symmetry; apply Nat.eqb_neq; lia).
        fold (with_key key (key b) l1) in H.
        rewrite (with_key_above Ha Hlt) in H. discriminate.
      - specialize (H (key a)). simpl in H.
        rewrite Nat.eqb_refl in H.
        replace (key b =? key a) with false in H
          by (symmetry; apply Nat.eqb_neq; lia).
        fold (with_key key (key a) l2) in H.
        rewrite (with_key_above Hb Hgt) in H. discriminate. }
    assert (Hab : a = b).
    { specialize (H (key a)). simpl in H.
      rewrite Hk, Nat.eqb_refl in H. congruence. }
    subst b. f_equal. apply IH; [assumption | assumption |].
    intros k. specialize (H k). simpl in H.
    destruct (key a =? k); [congruence | assumption].
Qed.

(** [Array.prototype.sort] yields the one descending stable
    rearrangement. *)
Lemma Array_sort_unique (l l' : list A) :
  descending key l' -> stable_rearrangement key l l' -> l' = Array_sort cmp l.
Proof.
  intros Hd Hs. apply descending_unique;
    [assumption | apply Array_sort_descending |].
  intros k. rewrite Hs. symmetry. apply Array_sort_stable.
Qed.

Lemma stable_rearrangement_In (l l' : list A) (a : A) :
  stable_rearrangement key l l' -> In a l' -> In a l.
Proof.
  intros Hs Ha.
  assert (H : In a (with_key key (key a) l')).
  { apply filter_In. split; [assumption | apply Nat.eqb_refl]. }
  rewrite Hs in H. apply filter_In in H. tauto.
Qed.

End SortFacts.

Lemma by_start_desc_key (a b : TypedMatch) :
  (by_start_desc a b <=? 0)%Z
  = (start (base b) <=? start (base a)).
Proof.
  unfold by_start_desc.
  destruct (start (base b) <=? start (base a)) eqn:E.
  - apply Nat.leb_le in E. apply Z.leb_le. lia.
  - apply Nat.leb_gt in E. apply Z.leb_gt. lia.
Qed.

(** ** The catalog *)

Lemma keys_of_patterns (c : jsstring) :
  In c (keys patterns) ->
  exists pattern l,
    obj_get patterns c = Some pattern
    /\ obj_get piiLabels c = Some l
    /\ label c = l.
Proof.
  unfold keys, patterns. simpl.
  intros [<-|[<-|[<-|[<-|[<-|[<-|[]]]]]]];
    eexists; eexists; repeat split; reflexivity.
Qed.

Lemma results_lookup (A : Type) (o : object A) (ks : list jsstring)
  (c : jsstring) :
  keys o = ks -> In c ks -> exists v, obj_get o c = Some v.
Proof.
  intros <- Hc. destruct (obj_get o c) as [v|] eqn:E; [eauto|].
  apply obj_get_keys in E. contradiction.
Qed.

(** ** Redaction as a fold *)

Lemma collect_retained (results : object (list Match)) :
  collect results = retained results.
Proof.
  unfold collect, retained.
  assert (Hin : forall c (ms : list Match) acc,
             fold_left
               (fun allMatches m => allMatches ++ [ {| base := m; type := c |} ])
               ms acc
             = acc ++ map (fun m => {| base := m; type := c |}) ms).
  { intros c ms. induction ms as [|m ms IH]; intros acc; simpl.
    - rewrite app_nil_r. reflexivity.
    - rewrite IH, <- app_assoc. reflexivity. }
  assert (Hout : forall acc,
             fold_left
               (fun allMatches '(piiType, ms) =>
                  fold_left
                    (fun allMatches m =>
                       allMatches ++ [ {| base := m; type := piiType |} ])
                    ms allMatches)
               results acc
             = acc ++ flat_map
                        (fun '(c, ms) =>
                           map (fun m => {| base := m; type := c |}) ms)
                        results).
  { induction results as [|[c ms] results IH]; intros acc; simpl.
    - rewrite app_nil_r. reflexivity.
    - rewrite IH, Hin, <- app_assoc. reflexivity. }
  apply (Hout []).
Qed.

Lemma retained_type (results : object (list Match)) (m : TypedMatch) :
  In m (retained results) -> In (type m) (keys results).
Proof.
  unfold retained. rewrite in_flat_map. intros [[c ms] [Hc Hm]].
  apply in_map_iff in Hm. destruct Hm as (m0 & <- & _). simpl.
  apply in_map_iff. exists (c, ms). auto.
Qed.

Lemma replace_all_fold (l : list TypedMatch) :
  (forall m, In m l -> In (type m) (keys patterns)) ->
  forall doc, replace_all l doc = Ret (fold_left redact l doc).
Proof.
  induction l as [|m l IH]; intros Hl doc; [reflexivity|].
  cbn [replace_all fold_left].
  destruct (keys_of_patterns (Hl m (or_introl eq_refl)))
    as (pattern & l0 & _ & Hlabel & Hget).
  rewrite Hlabel, IH by (intros; apply Hl; simpl; auto).
  do 2 f_equal. unfold redact.
  rewrite Hget, substring_prefix, substring_suffix. reflexivity.
Qed.

(** * The properties of the detector, one by one *)

(** C1: for every document [D], [anonymize] returns the string obtained by
    collecting the retained matches of every category (duplicates kept),
    sorting them by start offset in descending order, and folding over that
    list from [D], each step replacing positions [start, end) of the current
    string by the bracketed upper-case label of the category.  The sorted
    list is a rearrangement of the collected matches with the highest start
    first, matches of equal start staying in collection order, as the stable
    sort of the runtime leaves them; there is exactly one such list. *)
Theorem anonymize_is_fold (D : jsstring) (fuel : nat) :
  length D < fuel ->
  exists results,
    detectAll fuel D = Ret results
    /\ (exists L, Permutation L (retained results)
                  /\ descending start_of L
                  /\ stable_rearrangement start_of (retained results) L)
    /\ forall L,
         descending start_of L ->
         stable_rearrangement start_of (retained results) L ->
         anonymize fuel D = Ret (fold_left redact L D).
Proof.
  intros Hf. destruct (detectAll_total D) as (results & Hrun & Hkeys & Hall).
  exists results. split; [apply Hrun, Hf|]. split.
  - exists (Array_sort by_start_desc (retained results)). split; [|split].
    + apply Array_sort_Permutation.
    + apply Array_sort_descending, by_start_desc_key.
    + apply Array_sort_stable, by_start_desc_key.
  - intros L Hd Hs. unfold anonymize. rewrite (Hrun _ Hf). simpl.
    rewrite collect_retained.
    rewrite <- (@Array_sort_unique _ start_of by_start_desc
                  by_start_desc_key _ _ Hd Hs).
    apply replace_all_fold. intros m Hm.
    rewrite <- Hkeys. apply retained_type.
    exact (@stable_rearrangement_In _ start_of _ _ m Hs Hm).
Qed.

(** C2: for every document [D] and every category of the catalog, every
    match of [detectAll(D)] for that category has
    [0 <= start < end <= length D], and the slice of [D] from [start] to
    [end] is its [value]. *)
Theorem detectAll_spans (D : jsstring) (fuel : nat) :
  length D < fuel ->
  exists results,
    detectAll fuel D = Ret results
    /\ forall c, In c (keys patterns) ->
         exists ms,
           obj_get results c = Some ms
           /\ forall m, In m ms ->
                0 <= start m /\ start m < end_ m /\ end_ m <= length D
                /\ firstn (end_ m - start m) (skipn (start m) D) = value m.
Proof.
  intros Hf. destruct (detectAll_total D) as (results & Hrun & Hkeys & Hall).
  exists results. split; [apply Hrun, Hf|].
  intros c Hc. destruct (results_lookup results c Hkeys Hc) as [ms Hms].
  exists ms. split; [assumption|]. intros m Hm.
  destruct (@detectAll_entry D results c ms Hall Hms)
    as (pattern & raw & _ & _ & -> & Hsp & _ & _).
  destruct (filter_of_sub c raw) as [f Hfilt]. rewrite Hfilt in Hm.
  apply filter_In in Hm. destruct Hm as [Hm _].
  rewrite Forall_forall in Hsp. destruct (Hsp _ Hm) as (H1 & H2 & H3).
  repeat split; [lia | assumption | assumption | assumption].
Qed.

(** C3: for every document [D] and every category, the matches of
    [detectAll(D)] for that category are strictly increasing in [start] and
    pairwise non-overlapping: a later match starts at or after the end of
    every earlier one. *)
Theorem detectAll_in_order (D : jsstring) (fuel : nat) :
  length D < fuel ->
  exists results,
    detectAll fuel D = Ret results
    /\ forall c, In c (keys patterns) ->
         exists ms,
           obj_get results c = Some ms
           /\ StronglySorted
                (fun a b => start a < start b /\ end_ a <= start b) ms.
Proof.
  intros Hf. destruct (detectAll_total D) as (results & Hrun & Hkeys & Hall).
  exists results. split; [apply Hrun, Hf|].
  intros c Hc. destruct (results_lookup results c Hkeys Hc) as [ms Hms].
  exists ms. split; [assumption|].
  destruct (@detectAll_entry D results c ms Hall Hms)
    as (pattern & raw & _ & _ & -> & _ & Hord & _).
  destruct (filter_of_sub c raw) as [f Hfilt]. rewrite Hfilt.
  apply in_order_filter, Hord.
Qed.

(** C4: for every document [D], [getSummary(D)] has an entry for every
    category of the catalog, in catalog order, and the entry of a category is
    the number of matches [detectAll(D)] holds for it; a category without
    retained matches has the entry 0. *)
Theorem getSummary_counts (D : jsstring) (fuel : nat) :
  length D < fuel ->
  exists results summary,
    detectAll fuel D = Ret results
    /\ getSummary fuel D = Ret summary
    /\ keys summary = keys patterns
    /\ (forall c, In c (keys patterns) ->
          exists ms, obj_get results c = Some ms
                     /\ obj_get summary c = Some (length ms))
    /\ (forall c, obj_get results c = Some [] -> obj_get summary c = Some 0).
Proof.
  intros Hf. destruct (detectAll_total D) as (results & Hrun & Hkeys & Hall).
  exists results, (map_values (@length Match) results).
  assert (Hnd : NoDup (keys results))
    by (rewrite Hkeys; apply keys_patterns_NoDup).
  split; [apply Hrun, Hf|]. split; [|split; [|split]].
  - unfold getSummary. rewrite (Hrun _ Hf). simpl.
    rewrite (@for_in_set _ _ (@length Match) results Hnd []);
      reflexivity.
  - rewrite keys_map_values. assumption.
  - intros c Hc. destruct (results_lookup results c Hkeys Hc) as [ms Hms].
    exists ms. split; [assumption|].
    rewrite obj_get_map_values, Hms. reflexivity.
  - intros c Hc. rewrite obj_get_map_values, Hc. reflexivity.
Qed.

(** ** Sets of strings *)

Lemma existsb_eqb_In (v : jsstring) (l : list jsstring) :
  existsb (jsstring_eqb v) l = true <-> In v l.
Proof.
  rewrite existsb_exists. split.
  - intros (x & Hx & E). apply jsstring_eqb_eq in E. subst. assumption.
  - intros H. exists v. split; [assumption | apply jsstring_eqb_refl].
Qed.

Lemma fold_Set_add (l : list jsstring) :
  forall seen, fold_left Set_add l seen = seen ++ added seen l.
Proof.
  induction l as [|x l IH]; intros seen; simpl.
  - rewrite app_nil_r. reflexivity.
  - rewrite IH. unfold Set_add.
    destruct (existsb (jsstring_eqb x) seen); [reflexivity|].
    rewrite <- app_assoc. reflexivity.
Qed.

Lemma added_In (l : list jsstring) :
  forall seen v, In v (added seen l) <-> In v l /\ ~ In v seen.
Proof.
  induction l as [|x l IH]; intros seen v; simpl; [tauto|].
  destruct (existsb (jsstring_eqb x) seen) eqn:E.
  - apply existsb_eqb_In in E. rewrite IH. split; [tauto|].
    intros [[->|H] Hn]; [contradiction | tauto].
  - assert (Hx : ~ In x seen).
    { intros H. apply existsb_eqb_In in H. congruence. }
    simpl. rewrite IH, in_app_iff. simpl. split.
    + intros [->|[H Hn]]; [tauto|]. split; [tauto|]. intros H'; apply Hn; auto.
    + intros [[->|H] Hn]; [auto|].
      destruct (list_eq_dec N.eq_dec x v) as [->|Hne]; [auto|].
      right. split; [assumption|]. intros [H'|[H'|[]]]; auto.
Qed.

Lemma added_NoDup (l : list jsstring) : forall seen, NoDup (added seen l).
Proof.
  induction l as [|x l IH]; intros seen; simpl; [constructor|].
  destruct (existsb (jsstring_eqb x) seen); [apply IH|].
  constructor; [|apply IH].
  rewrite added_In, in_app_iff. simpl. tauto.
Qed.

Lemma StronglySorted_lt_map_S (l : list nat) :
  StronglySorted lt l -> StronglySorted lt (map S l).
Proof.
  induction 1 as [|a l Hl IH Ha]; simpl; constructor; [assumption|].
  rewrite Forall_map. eapply Forall_impl; [|exact Ha]. simpl; intros; lia.
Qed.

Lemma added_first_index (l : list jsstring) :
  forall seen,
    StronglySorted lt (map (fun v => first_index v l) (added seen l)).
Proof.
  induction l as [|x l IH]; intros seen; simpl; [constructor|].
  assert (Hshift : forall seen',
             In x seen' ->
             map (fun v => if jsstring_eqb v x then 0
                           else S (first_index v l)) (added seen' l)
             = map S (map (fun v => first_index v l) (added seen' l))).
  { intros seen' Hx. rewrite map_map. apply map_ext_in. intros v Hv.
    apply added_In in Hv. destruct (jsstring_eqb v x) eqn:E; [|reflexivity].
    apply jsstring_eqb_eq in E. subst v. tauto. }
  destruct (existsb (jsstring_eqb x) seen) eqn:E.
  - apply existsb_eqb_In in E. rewrite Hshift by assumption.
    apply StronglySorted_lt_map_S, IH.
  - simpl. rewrite jsstring_eqb_refl.
    rewrite Hshift by (apply in_app_iff; simpl; auto).
    constructor; [apply StronglySorted_lt_map_S, IH|].
    rewrite Forall_map, Forall_map. apply Forall_forall. intros; lia.
Qed.

(** [new Set(l)] spread into an array: each distinct string once, in order
    of first occurrence. *)
Lemma Set_of_spec (l : list jsstring) :
  NoDup (Set_of l)
  /\ (forall v, In v (Set_of l) <-> In v l)
  /\ StronglySorted lt (map (fun v => first_index v l) (Set_of l)).
Proof.
  unfold Set_of. rewrite fold_Set_add. simpl. split; [|split].
  - apply added_NoDup.
  - intros v. rewrite added_In. simpl. tauto.
  - apply added_first_index.
Qed.

(** C7: for every document [D] and every category, [getUniqueValues(D)]
    holds for the category each distinct [value] string found among the
    matches of [detectAll(D)] for that category, exactly once, in order of
    first occurrence. *)
Theorem getUniqueValues_distinct (D : jsstring) (fuel : nat) :
  length D < fuel ->
  exists results unique,
    detectAll fuel D = Ret results
    /\ getUniqueValues fuel D = Ret unique
    /\ keys unique = keys patterns
    /\ forall c, In c (keys patterns) ->
         exists ms u,
           obj_get results c = Some ms
           /\ obj_get unique c = Some u
           /\ NoDup u
           /\ (forall v, In v u <-> In v (map value ms))
           /\ StronglySorted lt
                (map (fun v => first_index v (map value ms)) u).
Proof.
  intros Hf. destruct (detectAll_total D) as (results & Hrun & Hkeys & Hall).
  exists results,
    (map_values (fun ms => Set_of (map value ms)) results).
  assert (Hnd : NoDup (keys results))
    by (rewrite Hkeys; apply keys_patterns_NoDup).
  split; [apply Hrun, Hf|]. split; [|split].
  - unfold getUniqueValues. rewrite (Hrun _ Hf). simpl.
    rewrite (@for_in_set _ _ (fun ms => Set_of (map value ms)) results Hnd []);
      reflexivity.
  - rewrite keys_map_values. assumption.
  - intros c Hc. destruct (results_lookup results c Hkeys Hc) as [ms Hms].
    exists ms, (Set_of (map value ms)).
    split; [assumption|]. split.
    + rewrite obj_get_map_values, Hms. reflexivity.
    + apply Set_of_spec.
Qed.

(** C9, on the code: a type name that the patterns object inherits from
    [Object.prototype], such as [constructor], passes the guard of [detect]
    and makes it throw, for every document. *)
Theorem detect_inherited_name_throws (D : jsstring) (fuel : nat) :
  detect fuel D (str "constructor") = Throw.
Proof. reflexivity. Qed.

(** What the guard of [detect] does catch: a type name that is neither in
    the catalog nor on [Object.prototype] gives the empty array. *)
Lemma detect_unknown (D t : jsstring) (fuel : nat) :
  ~ In t (keys patterns) -> ~ In t Object_prototype ->
  detect fuel D t = Ret [].
Proof.
  intros Hk Hp. unfold detect, get_property.
  apply obj_get_keys in Hk. rewrite Hk.
  destruct (existsb (jsstring_eqb t) Object_prototype) eqn:E; [|reflexivity].
  apply existsb_eqb_In in E. contradiction.
Qed.

Lemma detect_inherited (D t : jsstring) (fuel : nat) :
  In t Object_prototype -> detect fuel D t = Throw.
Proof.
  intros Hp. unfold detect, get_property.
  assert (Hk : obj_get patterns t = None).
  { apply obj_get_keys. unfold Object_prototype in Hp. simpl in Hp.
    unfold keys, patterns. simpl.
    intuition (subst; discriminate). }
  rewrite Hk. apply existsb_eqb_In in Hp. rewrite Hp. reflexivity.
Qed.

(** A pattern that can match the empty string keeps the loop of [detect]
    running: no budget is enough. *)
Lemma scan_empty_match_runs_on (fuel : nat) (matches : list Match) :
  scan fuel (star digit) (str "a") 0 matches = Timeout.
Proof.
  revert matches; induction fuel as [|fuel IH]; intros matches;
    [reflexivity|].
  change (scan (S fuel) (star digit) (str "a") 0 matches)
    with (scan fuel (star digit) (str "a") 0
            (matches ++ [ {| value := []; start := 0; end_ := 0 |} ])).
  apply IH.
Qed.

(** C10: every pattern of the catalog matches only non-empty substrings, so
    each match found by [exec] ends strictly after the index the search
    resumed from, and the scan loop of [detect] returns for every document,
    after at most [length D] matches. *)
Theorem scan_terminates (c : jsstring) (pattern : regex) :
  obj_get patterns c = Some pattern ->
  (forall D lastIndex index e,
     exec D pattern lastIndex = Some (index, e) ->
     lastIndex <= index /\ index < e /\ e <= length D)
  /\ (forall D, exists raw,
        (forall fuel, length D < fuel ->
           scan fuel pattern D 0 [] = Ret raw)
        /\ length raw <= length D).
Proof.
  intros Hc. pose proof (patterns_nonempty _ Hc) as Hne. split.
  - intros D lastIndex index e H. apply exec_bounds in H. lia.
  - intros D. destruct (@scan_total pattern D Hne) as (raw & Hrun & _ & _ & Hlen).
    exists raw. split; assumption.
Qed.

(** ** Patterns of the form [[class]+] *)

Lemma skipn_nth_error_cons (A : Type) (s : list A) (i : nat) (c : A) :
  nth_error s i = Some c -> skipn i s = c :: skipn (S i) s.
Proof.
  revert i; induction s as [|x s IH]; intros [|i] H; simpl in *;
    try discriminate.
  - injection H as ->. reflexivity.
  - apply IH. assumption.
Qed.

Lemma skipn_nth_error_nil (A : Type) (s : list A) (i : nat) :
  nth_error s i = None -> skipn i s = [].
Proof.
  intros H. apply skipn_all2. apply nth_error_None. assumption.
Qed.

Lemma run_length_le (p : N -> bool) (s : jsstring) :
  run_length p s <= length s.
Proof.
  induction s as [|c s IH]; simpl; [lia|]. destruct (p c); simpl; lia.
Qed.

(** Reading a run to its end. *)
Lemma runs_from_run (p : N -> bool) (s : jsstring) :
  forall cur,
    runs_from p cur s
    = match cur ++ firstn (run_length p s) s with
      | [] => match skipn (run_length p s) s with
              | [] => []
              | _ :: rest => runs_from p [] rest
              end
      | word => match skipn (run_length p s) s with
                | [] => [word]
                | _ :: rest => word :: runs_from p [] rest
                end
      end.
Proof.
  induction s as [|c s IH]; intros cur; simpl.
  - rewrite app_nil_r. destruct cur; reflexivity.
  - destruct (p c) eqn:E; simpl.
    + rewrite IH. rewrite <- app_assoc. reflexivity.
    + rewrite app_nil_r. destruct cur; reflexivity.
Qed.

(** The unfolding of [runs] at a position: skip one code unit outside the
    class, or take the run that starts here. *)
Lemma runs_step (p : N -> bool) (s : jsstring) :
  runs p s
  = match s with
    | [] => []
    | c :: s' =>
        if p c then
          firstn (run_length p s) s :: runs p (skipn (run_length p s) s)
        else runs p s'
    end.
Proof.
  destruct s as [|c s]; [reflexivity|].
  unfold runs at 1. simpl. destruct (p c) eqn:E; [|reflexivity].
  rewrite runs_from_run. simpl.
  destruct (skipn (run_length p s) s) as [|d rest] eqn:Es.
  - reflexivity.
  - f_equal. unfold runs. simpl.
    assert (Hd : p d = false).
    { clear -Es. revert Es. induction s as [|x s IH]; simpl; [discriminate|].
      destruct (p x) eqn:Ex; simpl; [exact IH|].
      intros H; injection H as <- _. assumption. }
    rewrite Hd. reflexivity.
Qed.

Section ClassPlus.

Variable input : jsstring.
Variable items : list class_item.

Local Abbreviation p := (in_class items).

Lemma greedy_class (n : nat) :
  forall x, x <= length input -> length input - x <= n ->
    repeat_greedy (matcher input (Class items)) n x (fun y => Some y)
    = Some (x + run_length p (skipn x input)).
Proof.
  induction n as [|n IH]; intros x Hx Hn.
  - cbn [repeat_greedy]. rewrite skipn_all2 by lia. simpl. f_equal. lia.
  - cbn [repeat_greedy matcher].
    destruct (nth_error input x) as [ch|] eqn:E.
    + rewrite (skipn_nth_error_cons _ _ E). cbn [run_length]. fold (p ch).
      assert (x < length input) by (apply nth_error_Some; congruence).
      destruct (p ch); [|f_equal; lia].
      replace (Nat.eqb (S x) x) with false
        by (symmetry; apply Nat.eqb_neq; lia).
      rewrite IH by lia. f_equal. lia.
    + rewrite (skipn_nth_error_nil _ _ E). simpl. f_equal. lia.
Qed.

(** [[class]+] tried at [i] takes the whole run of class members that
    starts at [i], and fails when there is none. *)
Lemma plus_class_at (i : nat) :
  i <= length input ->
  match_at input (plus (Class items)) i
  = match run_length p (skipn i input) with
    | 0 => None
    | n => Some (i + n)
    end.
Proof.
  intros Hi. unfold match_at, plus. cbn [matcher repeat_min].
  destruct (nth_error input i) as [ch|] eqn:E.
  - rewrite (skipn_nth_error_cons _ _ E). cbn [run_length]. fold (p ch).
    assert (i < length input) by (apply nth_error_Some; congruence).
    destruct (p ch); [|reflexivity].
    rewrite greedy_class by lia. f_equal. lia.
  - rewrite (skipn_nth_error_nil _ _ E). reflexivity.
Qed.

(** [exec] looks for the first class member at or after [lastIndex]. *)
Lemma plus_class_exec (lastIndex : nat) :
  lastIndex <= length input ->
  exec input (plus (Class items)) lastIndex
  = match skipn lastIndex input with
    | [] => None
    | c :: _ =>
        if p c then
          Some (lastIndex,
                lastIndex + run_length p (skipn lastIndex input))
        else exec input (plus (Class items)) (S lastIndex)
    end.
Proof.
  intros Hl. unfold exec.
  replace (S (length input) - lastIndex)
    with (S (length input - lastIndex)) by lia.
  cbn [search]. rewrite plus_class_at by assumption.
  destruct (skipn lastIndex input) as [|c rest] eqn:E.
  - simpl.
    assert (length input <= lastIndex).
    { rewrite <- (firstn_skipn lastIndex input), E, app_nil_r.
      rewrite length_firstn. lia. }
    replace (length input - lastIndex) with 0 by lia. reflexivity.
  - simpl. destruct (p c); [reflexivity|].
    replace (S (length input) - S lastIndex)
      with (length input - lastIndex) by lia.
    reflexivity.
Qed.

(** [input.match(/[class]+/g)] collects the maximal runs of class
    members. *)
Lemma match_loop_runs (n : nat) :
  forall lastIndex A fuel,
    lastIndex <= length input -> length input - lastIndex <= n ->
    length input - lastIndex < fuel ->
    match_loop fuel (plus (Class items)) input lastIndex A
    = A ++ runs p (skipn lastIndex input).
Proof.
  induction n as [|n IH]; intros lastIndex A [|fuel] Hl Hn Hf; try lia.
  - cbn [match_loop]. rewrite plus_class_exec by assumption.
    rewrite skipn_all2 by lia. rewrite app_nil_r. reflexivity.
  - cbn [match_loop]. rewrite plus_class_exec by assumption.
    rewrite (runs_step p (skipn lastIndex input)).
    destruct (skipn lastIndex input) as [|c rest] eqn:E.
    + rewrite app_nil_r. reflexivity.
    + assert (Hlt : lastIndex < length input).
      { destruct (Nat.lt_ge_cases lastIndex (length input)); [assumption|].
        rewrite skipn_all2 in E by assumption. discriminate. }
      assert (Hrest : rest = skipn (S lastIndex) input).
      { replace (S lastIndex) with (1 + lastIndex) by lia.
        rewrite <- skipn_skipn, E. reflexivity. }
      destruct (p c) eqn:Ec.
      * assert (Hrun : run_length p (c :: rest)
                       <= length input - lastIndex).
        { rewrite <- length_skipn, E. apply run_length_le. }
        assert (Hpos : 0 < run_length p (c :: rest))
          by (simpl; rewrite Ec; lia).
        set (k := run_length p (c :: rest)) in *.
        replace (Nat.eqb (lastIndex + k) lastIndex) with false
          by (symmetry; apply Nat.eqb_neq; lia).
        rewrite IH by lia.
        rewrite substring_slice by lia.
        replace (lastIndex + k - lastIndex) with k by lia.
        rewrite E, <- app_assoc. simpl.
        rewrite <- E, skipn_skipn.
        replace (k + lastIndex) with (lastIndex + k) by lia.
        reflexivity.
      * subst rest.
        change (match exec input (plus (Class items)) (S lastIndex) with
                | Some (index, e) =>
                    match_loop fuel (plus (Class items)) input
                      (if Nat.eqb e index then S e else e)
                      (A ++ [substring input index e])
                | None => A
                end)
          with (match_loop (S fuel) (plus (Class items)) input
                  (S lastIndex) A).
        apply IH; lia.
Qed.

Lemma String_match_runs :
  String_match input (plus (Class items))
  = match runs p input with
    | [] => None
    | A => Some A
    end.
Proof.
  unfold String_match.
  rewrite (@match_loop_runs (length input) 0 [] (S (S (length input))))
    by lia.
  reflexivity.
Qed.

End ClassPlus.

(** ** Splitting at [[class]+] *)

Lemma run_length_stop (p : N -> bool) (s : jsstring) :
  match skipn (run_length p s) s with
  | [] => True
  | d :: _ => p d = false
  end.
Proof.
  induction s as [|c s IH]; simpl; [exact I|].
  destruct (p c) eqn:E; simpl; assumption.
Qed.

Lemma fields_skip (sep : N -> bool) (s : jsstring) :
  fields sep true [] s = fields sep false [] (skipn (run_length sep s) s).
Proof.
  induction s as [|c s IH]; simpl; [reflexivity|].
  destruct (sep c) eqn:E; simpl; [exact IH|].
  rewrite E. reflexivity.
Qed.

Lemma runs_from_ext (p q : N -> bool) (s : jsstring) :
  (forall c, p c = q c) -> forall cur, runs_from p cur s = runs_from q cur s.
Proof.
  intros H. induction s as [|c s IH]; intros cur; simpl; [reflexivity|].
  rewrite H, !IH. reflexivity.
Qed.

(** The non-empty pieces are the maximal runs of non-separators. *)
Lemma fields_runs (sep : N -> bool) (s : jsstring) :
  forall in_sep cur w,
    (in_sep = true -> cur = []) -> w <> [] ->
    (In w (fields sep in_sep cur s)
     <-> In w (runs_from (fun c => negb (sep c)) cur s)).
Proof.
  induction s as [|c s IH]; intros in_sep cur w Hsep Hw; simpl.
  - destruct cur; simpl; [|tauto]. split; [intros [<-|[]]; congruence | tauto].
  - destruct (sep c); simpl.
    + destruct in_sep.
      * rewrite (Hsep eq_refl). apply IH; auto.
      * simpl. rewrite (IH true [] w (fun _ => eq_refl) Hw).
        destruct cur; simpl; [|tauto].
        split; [intros [<-|H]; [congruence | assumption] | tauto].
    + apply IH; [discriminate | assumption].
Qed.

Lemma slice_snoc (s : jsstring) (a b : nat) (c : N) :
  a <= b -> nth_error s b = Some c ->
  substring s a (S b) = substring s a b ++ [c].
Proof.
  intros Hab Hc.
  assert (b < length s) by (apply nth_error_Some; congruence).
  rewrite !substring_slice by lia.
  replace (S b - a) with ((b - a) + 1) by lia.
  rewrite <- (firstn_skipn (b - a) (skipn a s)) at 1.
  rewrite firstn_app, firstn_firstn, length_firstn, length_skipn.
  replace (Nat.min (b - a + 1) (b - a)) with (b - a) by lia.
  replace (b - a + 1 - Nat.min (b - a) (length s - a)) with 1 by lia.
  rewrite skipn_skipn. replace (b - a + a) with b by lia.
  rewrite (skipn_nth_error_cons _ _ Hc). reflexivity.
Qed.

Section ClassSplit.

Variable input : jsstring.
Variable items : list class_item.

Local Abbreviation sep := (in_class items).

Lemma split_loop_fields (n : nat) :
  forall p q A fuel,
    p <= q -> q <= length input -> length input - q <= n ->
    length input - q < fuel ->
    split_loop fuel (plus (Class items)) input p q A
    = A ++ fields sep false (substring input p q) (skipn q input).
Proof.
  induction n as [|n IH]; intros p q A [|fuel] Hpq Hq Hn Hf; try lia;
    cbn [split_loop];
    destruct (Nat.ltb q (length input)) eqn:Elt;
    try (apply Nat.ltb_lt in Elt; lia);
    try (apply Nat.ltb_ge in Elt;
         assert (q = length input) as -> by lia;
         rewrite skipn_all; reflexivity).
  apply Nat.ltb_lt in Elt.
  rewrite plus_class_at by assumption.
  destruct (nth_error input q) as [c|] eqn:Ec;
    [|apply nth_error_None in Ec; lia].
  rewrite (skipn_nth_error_cons _ _ Ec). cbn [run_length fields].
  fold (sep c). destruct (sep c) eqn:Es.
  - set (k := run_length sep (skipn (S q) input)).
    assert (Hk : k <= length input - S q).
    { unfold k. rewrite <- length_skipn. apply run_length_le. }
    rewrite Nat.min_l by lia.
    replace (Nat.eqb (q + S k) p) with false
      by (symmetry; apply Nat.eqb_neq; lia).
    rewrite IH by lia.
    rewrite <- app_assoc. cbn [app]. f_equal. f_equal.
    rewrite (fields_skip sep (skipn (S q) input)).
    change (run_length sep (skipn (S q) input)) with k.
    rewrite skipn_skipn.
    replace (k + S q) with (q + S k) by lia.
    rewrite substring_slice by lia.
    rewrite Nat.sub_diag. reflexivity.
  - rewrite IH by lia. rewrite (slice_snoc _ Hpq Ec). reflexivity.
Qed.

(** [input.split(/[class]+/)] is the list of pieces between the maximal
    runs of class members. *)
Lemma String_split_fields :
  String_split input (plus (Class items)) = fields sep false [] input.
Proof.
  unfold String_split. destruct input as [|c s] eqn:E; [reflexivity|].
  rewrite <- E.
  rewrite (@split_loop_fields (length input)) by (subst; simpl; lia).
  reflexivity.
Qed.

End ClassSplit.

(** ** The false-positive filters *)

Lemma class_digit (c : N) : in_class [CDigit] c = is_digit c.
Proof. unfold in_class, class_mem. simpl. apply orb_false_r. Qed.

Lemma class_space (c : N) : in_class [CSpace] c = is_space c.
Proof. unfold in_class, class_mem. simpl. apply orb_false_r. Qed.

(** [value.match(/\d+/g)] is the list of digit groups, or [null]. *)
Lemma match_digits (s : jsstring) :
  String_match s (plus digit)
  = match digit_groups s with
    | [] => None
    | A => Some A
    end.
Proof.
  unfold digit. rewrite String_match_runs. unfold digit_groups, runs.
  rewrite (runs_from_ext _ is_digit s class_digit). reflexivity.
Qed.

(** The non-empty pieces of [value.split(/\s+/)] are the whitespace-separated
    words. *)
Lemma split_words (s w : jsstring) :
  w <> [] -> (In w (String_split s (plus space)) <-> In w (ws_words s)).
Proof.
  intros Hw. unfold space. rewrite String_split_fields.
  rewrite fields_runs by (discriminate || assumption).
  unfold ws_words, runs.
  rewrite (runs_from_ext _ (fun c => negb (is_space c)) s);
    [reflexivity|].
  intros c. rewrite class_space. reflexivity.
Qed.

(** C5: the phone filter discards a match exactly when the maximal digit
    groups of its [value] number three, the first is at most 12 and the
    second at most 31; every other match is kept as it is. *)
Theorem phone_filter_discards_dates (matches : list Match) (m : Match) :
  (phone_keep m = false
   <-> length (digit_groups (value m)) = 3
       /\ (parseInt (nth 0 (digit_groups (value m)) []) <= 12)%N
       /\ (parseInt (nth 1 (digit_groups (value m)) []) <= 31)%N)
  /\ (In m (filterPhoneFalsePositives matches)
      <-> In m matches
          /\ ~ (length (digit_groups (value m)) = 3
                /\ (parseInt (nth 0 (digit_groups (value m)) []) <= 12)%N
                /\ (parseInt (nth 1 (digit_groups (value m)) []) <= 31)%N)).
Proof.
  assert (Hkeep :
    phone_keep m = false
    <-> length (digit_groups (value m)) = 3
        /\ (parseInt (nth 0 (digit_groups (value m)) []) <= 12)%N
        /\ (parseInt (nth 1 (digit_groups (value m)) []) <= 31)%N).
  { unfold phone_keep. rewrite match_digits.
    destruct (digit_groups (value m)) as [|g gs] eqn:E.
    - simpl. split; [discriminate | intros [H _]; discriminate].
    - destruct (Nat.eqb (length (g :: gs)) 3) eqn:El.
      + apply Nat.eqb_eq in El.
        destruct (N.leb (parseInt (nth 0 (g :: gs) [])) 12) eqn:E1;
          destruct (N.leb (parseInt (nth 1 (g :: gs) [])) 31) eqn:E2;
          cbn [andb];
          try apply N.leb_le in E1; try apply N.leb_le in E2;
          try apply N.leb_gt in E1; try apply N.leb_gt in E2;
          (split; [try discriminate; intros _; auto
                  | try reflexivity; intros (_ & H1 & H2); lia]).
      + apply Nat.eqb_neq in El.
        split; [discriminate | intros [H _]; contradiction]. }
  split; [exact Hkeep|].
  unfold filterPhoneFalsePositives. rewrite filter_In, <- Hkeep.
  destruct (phone_keep m); intuition congruence.
Qed.

Lemma commonWords_has_In (w : jsstring) :
  commonWords_has w = true <-> In w commonWords.
Proof. apply existsb_eqb_In. Qed.

Lemma name_keep_words (m : Match) :
  name_keep m = false
  <-> exists w, In w (ws_words (value m)) /\ In w commonWords.
Proof.
  unfold name_keep. cbv zeta. rewrite negb_false_iff, existsb_exists.
  split; intros (w & Hw & Hc).
  - apply commonWords_has_In in Hc.
    assert (Hne : w <> []).
    { intros ->. revert Hc. unfold commonWords. simpl.
      intuition discriminate. }
    exists w. split; [apply split_words; assumption | assumption].
  - assert (Hne : w <> []).
    { intros ->. revert Hc. unfold commonWords. simpl.
      intuition discriminate. }
    exists w. split; [apply split_words; assumption|].
    apply commonWords_has_In. assumption.
Qed.

(** C6: the name filter discards a match exactly when one of the
    whitespace-separated words of its [value] is a member of the stoplist,
    and keeps every other match; and for the document
    "The meeting is in June", [detectAll] holds no name match. *)
Theorem name_filter_discards_stoplist (matches : list Match) (m : Match) :
  (name_keep m = false
   <-> exists w,
         In w (ws_words (value m))
         /\ In w (map str [ "The"; "This"; "That"; "Will"; "May"; "June";
                            "July"; "August"; "March"; "April"; "January";
                            "February" ]%string))
  /\ (In m (filterNameFalsePositives matches)
      <-> In m matches
          /\ ~ exists w,
                 In w (ws_words (value m))
                 /\ In w (map str [ "The"; "This"; "That"; "Will"; "May";
                                    "June"; "July"; "August"; "March";
                                    "April"; "January"; "February" ]%string))
  /\ (forall fuel, length (str "The meeting is in June") < fuel ->
        exists results,
          detectAll fuel (str "The meeting is in June") = Ret results
          /\ obj_get results (str "name") = Some []).
Proof.
  fold commonWords. split; [apply name_keep_words|]. split.
  - unfold filterNameFalsePositives.
    rewrite filter_In, <- name_keep_words.
    destruct (name_keep m); intuition congruence.
  - intros fuel Hf.
    destruct (detectAll_total (str "The meeting is in June"))
      as (results & Hrun & _ & _).
    exists results. split; [apply Hrun, Hf|].
    specialize (Hrun 23 ltac:(vm_compute; lia)).
    vm_compute in Hrun. injection Hrun as <-. reflexivity.
Qed.

(** ** Redacting twice *)

Lemma retained_nil (results : object (list Match)) :
  (forall c ms, In (c, ms) results -> ms = []) -> retained results = [].
Proof.
  induction results as [|[c ms] results IH]; intros H; [reflexivity|].
  unfold retained in *. simpl.
  rewrite (H c ms) by (simpl; auto). simpl.
  apply IH. intros c' ms' H'. apply (H c'). simpl; auto.
Qed.

(** C8: no category pattern matches anywhere in a placeholder, so
    redacting a placeholder leaves it as it is; and whenever the redacted
    document holds no retained match, redacting it again returns it
    unchanged. *)
Theorem anonymize_idempotent_when_clean :
  (forall c label c' pattern,
     In (c, label) piiLabels -> In (c', pattern) patterns ->
     exec (placeholder label) pattern 0 = None)
  /\ (forall c label fuel,
        In (c, label) piiLabels -> 0 < fuel ->
        anonymize fuel (placeholder label) = Ret (placeholder label))
  /\ (forall D fuel X fuel' results,
        anonymize fuel D = Ret X ->
        detectAll fuel' X = Ret results ->
        (forall c ms, In (c, ms) results -> ms = []) ->
        (X' <- anonymize fuel D ;; anonymize fuel' X') = anonymize fuel D).
Proof.
  split; [|split].
  - intros c label c' pattern Hl Hp.
    unfold piiLabels in Hl. unfold patterns in Hp. simpl in Hl, Hp.
    destruct Hl as [Hl|[Hl|[Hl|[Hl|[Hl|[Hl|[]]]]]]];
      injection Hl as <- <-;
      destruct Hp as [Hp|[Hp|[Hp|[Hp|[Hp|[Hp|[]]]]]]];
      injection Hp as <- <-; vm_compute; reflexivity.
  - intros c label [|fuel] Hl Hf; [lia|].
    unfold piiLabels in Hl. simpl in Hl.
    destruct Hl as [Hl|[Hl|[Hl|[Hl|[Hl|[Hl|[]]]]]]];
      injection Hl as <- <-; vm_compute; reflexivity.
  - intros D fuel X fuel' results HX Hres Hclean.
    rewrite HX. simpl. unfold anonymize. rewrite Hres. simpl.
    rewrite collect_retained, retained_nil by assumption. reflexivity.
Qed.

(** * Further properties of the detector *)

(** ** What the scan loop finds *)

Section ScanExact.

Variable pattern : regex.
Variable text : jsstring.
Hypothesis nonempty : 0 < minlen pattern.

(** Each match the loop records is a match of the pattern at its start
    index, and every index at or after [lastIndex] where the pattern
    matches lies inside a recorded match. *)
Lemma scan_from_exact (n : nat) :
  forall lastIndex matches,
    lastIndex <= length text -> length text - lastIndex <= n ->
    exists found,
      (forall fuel, n < fuel ->
         scan fuel pattern text lastIndex matches = Ret (matches ++ found))
      /\ Forall (fun m => match_at text pattern (start m) = Some (end_ m))
           found
      /\ (forall j e, lastIndex <= j -> j <= length text ->
            match_at text pattern j = Some e ->
            exists m, In m found /\ start m <= j /\ j < end_ m).
Proof.
  induction n as [|n IH]; intros lastIndex matches Hl Hn.
  - exists []. rewrite app_nil_r. split; [|split; [constructor|]].
    + intros [|fuel] Hf; [lia|]. simpl.
      destruct (exec text pattern lastIndex) as [[index e]|] eqn:E;
        [|reflexivity].
      apply exec_bounds in E. lia.
    + intros j e Hj1 Hj2 H. apply match_at_bounds in H; lia.
  - destruct (exec text pattern lastIndex) as [[index e]|] eqn:E.
    + pose proof (exec_bounds _ _ _ E) as (Hi & Hie & He).
      pose proof E as Es. unfold exec in Es. apply search_match in Es.
      destruct Es as [Hat Hfirst].
      set (m := {| value := substring text index e;
                   start := index;
                   end_ := index + length (substring text index e) |}).
      assert (Hend : end_ m = e).
      { simpl. rewrite substring_length by lia. lia. }
      destruct (IH e (matches ++ [m])) as (found & Hrun & Hex & Hcov);
        [assumption | lia |].
      exists (m :: found). split; [|split].
      * intros [|fuel] Hf; [lia|]. simpl. rewrite E. fold m.
        rewrite Hrun by lia. rewrite <- app_assoc. reflexivity.
      * constructor; [rewrite Hend; exact Hat | exact Hex].
      * intros j e0 Hj1 Hj2 H.
        destruct (Nat.lt_ge_cases j index) as [Hlt|Hge].
        { rewrite (Hfirst j) in H by lia. discriminate. }
        destruct (Nat.lt_ge_cases j e) as [Hlt|Hge'].
        { exists m. split; [left; reflexivity|]. rewrite Hend. simpl. lia. }
        destruct (Hcov j e0 Hge' Hj2 H) as (m' & Hm' & Hs).
        exists m'. split; [right; assumption | assumption].
    + exists []. rewrite app_nil_r. split; [|split; [constructor|]].
      * intros [|fuel] Hf; [lia|]. simpl. rewrite E. reflexivity.
      * intros j e Hj1 Hj2 H. unfold exec in E.
        rewrite (@search_none text pattern _ _ E j) in H by lia. discriminate.
Qed.

Lemma raw_matches_exact (raw : list Match) :
  raw_matches text pattern raw ->
  Forall (fun m => match_at text pattern (start m) = Some (end_ m)) raw
  /\ (forall j e, j <= length text ->
        match_at text pattern j = Some e ->
        exists m, In m raw /\ start m <= j /\ j < end_ m).
Proof.
  intros Hraw.
  destruct (@scan_from_exact (length text) 0 [])
    as (found & Hrun & Hex & Hcov); [lia | lia |].
  specialize (Hrun (S (length text)) (Nat.lt_succ_diag_r _)).
  rewrite (Hraw (S (length text)) (Nat.lt_succ_diag_r _)) in Hrun.
  injection Hrun as ->. split; [exact Hex|].
  intros j e Hj H. apply (Hcov j e); [lia | assumption | assumption].
Qed.

End ScanExact.

(** ** Upper bounds and required code units of a match *)

Lemma In_slice (D : jsstring) (a b : nat) (ch : N) :
  In ch (slice D a b)
  <-> exists i, a <= i /\ i < b /\ nth_error D i = Some ch.
Proof.
  unfold slice. split.
  - intros H. apply In_nth_error in H. destruct H as [k Hk].
    assert (Hlt : k < b - a).
    { assert (k < length (firstn (b - a) (skipn a D)))
        by (apply nth_error_Some; congruence).
      rewrite length_firstn in H. lia. }
    rewrite nth_error_firstn in Hk.
    destruct (Nat.ltb_spec k (b - a)); [|lia].
    rewrite nth_error_skipn in Hk.
    exists (a + k). repeat split; [lia | lia | assumption].
  - intros (i & Ha & Hb & Hi).
    apply (nth_error_In _ (i - a)).
    rewrite nth_error_firstn.
    destruct (Nat.ltb_spec (i - a) (b - a)); [|lia].
    rewrite nth_error_skipn. replace (a + (i - a)) with i by lia.
    assumption.
Qed.

Lemma class_mem_within (lo hi ch : N) (items : list class_item) :
  forallb (item_within lo hi) items = true ->
  class_mem ch items = true -> (lo <= ch)%N /\ (ch <= hi)%N.
Proof.
  unfold class_mem. rewrite forallb_forall, existsb_exists.
  intros Hall (it & Hin & Hmem). specialize (Hall it Hin).
  destruct it as [a|l h| |]; simpl in Hall, Hmem.
  - apply andb_true_iff in Hall. destruct Hall as [H1 H2].
    apply N.leb_le in H1, H2. apply N.eqb_eq in Hmem. subst. split; assumption.
  - apply andb_true_iff in Hall, Hmem.
    destruct Hall as [H1 H2]. destruct Hmem as [H3 H4].
    apply N.leb_le in H1, H2, H3, H4. split; lia.
  - unfold is_digit in Hmem. apply andb_true_iff in Hall, Hmem.
    destruct Hall as [H1 H2]. destruct Hmem as [H3 H4].
    apply N.leb_le in H1, H2, H3, H4. split; lia.
  - apply andb_true_iff in Hall. destruct Hall as [H1 H2].
    apply N.leb_le in H1, H2. unfold is_space in Hmem.
    repeat rewrite orb_true_iff in Hmem.
    repeat rewrite andb_true_iff in Hmem.
    repeat rewrite N.leb_le in Hmem. repeat rewrite N.eqb_eq in Hmem.
    split; lia.
Qed.

Section MatcherBounds.

Variable input : jsstring.

Local Abbreviation upper := upper_matcher.

Lemma repeat_min_upper (m : Matcher) (k : nat) :
  upper m k -> forall n, upper (repeat_min m n) (n * k).
Proof.
  intros Hm n; induction n as [|n IH]; intros x c z H; simpl in *.
  - exists x. split; [lia | assumption].
  - apply Hm in H. destruct H as (y & Hy & H).
    apply IH in H. destruct H as (y' & Hy' & H).
    exists y'. split; [lia | assumption].
Qed.

Lemma repeat_greedy_upper (m : Matcher) (k : nat) :
  upper m k -> forall n, upper (repeat_greedy m n) (n * k).
Proof.
  intros Hm n; induction n as [|n IH]; intros x c z H; simpl in *.
  - exists x. split; [lia | assumption].
  - destruct (m x _) as [z'|] eqn:E.
    + injection H as ->. apply Hm in E. destruct E as (y & Hy & E).
      destruct (Nat.eqb y x); [discriminate|].
      apply IH in E. destruct E as (y' & Hy' & E).
      exists y'. split; [lia | assumption].
    + exists x. split; [lia | assumption].
Qed.

Lemma matcher_upper (r : regex) :
  forall k, maxlen r = Some k -> upper (matcher input r) k.
Proof.
  induction r as [|items| |r1 IH1 r2 IH2|r1 IH1 r2 IH2|min max r IH];
    intros k Hk x c z H; simpl in *.
  - injection Hk as <-. exists x. split; [lia | assumption].
  - injection Hk as <-.
    destruct (nth_error input x) as [ch|]; [|discriminate].
    destruct (class_mem ch items); [|discriminate].
    exists (S x). split; [lia | assumption].
  - injection Hk as <-. destruct (xorb _ _); [|discriminate].
    exists x. split; [lia | assumption].
  - destruct (maxlen r1) as [a|]; [|discriminate].
    destruct (maxlen r2) as [b|]; [|discriminate]. injection Hk as <-.
    apply (IH1 a eq_refl) in H. destruct H as (y & Hy & H).
    apply (IH2 b eq_refl) in H. destruct H as (y' & Hy' & H).
    exists y'. split; [lia | assumption].
  - destruct (maxlen r1) as [a|]; [|discriminate].
    destruct (maxlen r2) as [b|]; [|discriminate]. injection Hk as <-.
    destruct (matcher input r1 x c) as [z'|] eqn:E.
    + injection H as ->. apply (IH1 a eq_refl) in E.
      destruct E as (y & Hy & E). exists y. split; [lia | assumption].
    + apply (IH2 b eq_refl) in H. destruct H as (y & Hy & H).
      exists y. split; [lia | assumption].
  - destruct max as [mx|]; [|discriminate].
    destruct (maxlen r) as [a|]; [|discriminate]. injection Hk as <-.
    apply (repeat_min_upper (IH a eq_refl)) in H.
    destruct H as (y & Hy & H).
    apply (repeat_greedy_upper (IH a eq_refl)) in H.
    destruct H as (y' & Hy' & H).
    exists y'. split; [nia | assumption].
Qed.

Lemma match_at_upper (r : regex) (k i e : nat) :
  maxlen r = Some k -> match_at input r i = Some e -> e <= i + k.
Proof.
  intros Hk H. apply (matcher_upper _ Hk) in H.
  destruct H as (y & Hy & H). injection H as <-. assumption.
Qed.

Local Abbreviation passes := (passing_matcher input).

Lemma has_unit_wider (lo hi : N) (a b a' b' : nat) :
  a' <= a -> b <= b' ->
  has_unit lo hi (slice input a b) -> has_unit lo hi (slice input a' b').
Proof.
  intros Ha Hb (ch & Hin & Hlo & Hhi). exists ch.
  split; [|split; assumption].
  apply In_slice in Hin. destruct Hin as (i & H1 & H2 & H3).
  apply In_slice. exists i. repeat split; [lia | lia | assumption].
Qed.

Lemma matcher_needs (lo hi : N) (r : regex) :
  needs lo hi r = true -> passes lo hi (matcher input r).
Proof.
  induction r as [|items| |r1 IH1 r2 IH2|r1 IH1 r2 IH2|min max r IH];
    intros Hn x c z Hx H; simpl in Hn; try discriminate.
  - simpl in H. destruct (nth_error input x) as [ch|] eqn:E; [|discriminate].
    destruct (class_mem ch items) eqn:Ec; [|discriminate].
    assert (x < length input) by (apply nth_error_Some; congruence).
    exists (S x). repeat split; [lia | lia | | assumption].
    destruct (class_mem_within _ _ _ _ Hn Ec) as [Hlo Hhi].
    exists ch. split; [|split; assumption].
    apply In_slice. exists x. repeat split; [lia | lia | assumption].
  - simpl in H. apply orb_true_iff in Hn. destruct Hn as [Hn|Hn].
    + apply (IH1 Hn) in H; [|assumption].
      destruct H as (y & Hy1 & Hy2 & Hu & H).
      apply matcher_sound in H; [|assumption].
      destruct H as (y' & Hy1' & Hy2' & H).
      exists y'. repeat split; [lia | assumption | | assumption].
      apply (has_unit_wider (a := x) (b := y)); [lia | lia | assumption].
    + apply matcher_sound in H; [|assumption].
      destruct H as (y & Hy1 & Hy2 & H).
      apply (IH2 Hn) in H; [|assumption].
      destruct H as (y' & Hy1' & Hy2' & Hu & H).
      exists y'. repeat split; [lia | assumption | | assumption].
      apply (has_unit_wider (a := y) (b := y')); [lia | lia | assumption].
  - simpl in H. apply andb_true_iff in Hn. destruct Hn as [Hn1 Hn2].
    destruct (matcher input r1 x c) as [z'|] eqn:E.
    + injection H as ->. apply (IH1 Hn1) in E; assumption.
    + apply (IH2 Hn2) in H; assumption.
  - apply andb_true_iff in Hn. destruct Hn as [Hmin Hn].
    apply Nat.ltb_lt in Hmin. destruct min as [|min]; [lia|].
    simpl in H. apply (IH Hn) in H; [|assumption].
    destruct H as (y & Hy1 & Hy2 & Hu & H).
    apply (repeat_min_sound (matcher_sound input r)) in H; [|assumption].
    destruct H as (y' & Hy1' & Hy2' & H).
    apply (repeat_greedy_sound (matcher_sound input r)) in H; [|assumption].
    destruct H as (y'' & Hy1'' & Hy2'' & H).
    exists y''. repeat split; [lia | assumption | | assumption].
    apply (has_unit_wider (a := x) (b := y)); [lia | lia | assumption].
Qed.

Lemma match_at_needs (lo hi : N) (r : regex) (i e : nat) :
  needs lo hi r = true -> i <= length input ->
  match_at input r i = Some e -> has_unit lo hi (slice input i e).
Proof.
  intros Hn Hi H. apply (matcher_needs _ _ _ Hn) in H; [|assumption].
  destruct H as (y & _ & _ & Hu & H). injection H as <-. assumption.
Qed.

End MatcherBounds.

(** ** The entries of [detectAll], in full *)

Lemma detectAll_facts (D : jsstring) :
  exists results,
    (forall fuel, length D < fuel -> detectAll fuel D = Ret results)
    /\ keys results = keys patterns
    /\ forall c ms, obj_get results c = Some ms -> entry_facts D c ms.
Proof.
  destruct (detectAll_total D) as (results & Hrun & Hkeys & Hall).
  exists results. split; [exact Hrun|]. split; [exact Hkeys|].
  intros c ms Hms.
  destruct (@detectAll_entry D results c ms Hall Hms)
    as (pattern & raw & Hp & Hraw & -> & Hsp & _ & _).
  destruct (filter_of_sub c raw) as [f Hf].
  destruct (@raw_matches_exact pattern D (patterns_nonempty _ Hp) raw Hraw)
    as [Hex Hcov].
  exists pattern, raw, f. repeat split; try assumption.
  intros fuel Hfuel. unfold detect, get_property. rewrite Hp.
  rewrite (Hraw fuel Hfuel). unfold bind, filter_of.
  destruct (jsstring_eqb c (str "phone")); [reflexivity|].
  destruct (jsstring_eqb c (str "name")); reflexivity.
Qed.

Lemma span_value_length (D : jsstring) (m : Match) :
  span_of D m -> length (value m) = end_ m - start m.
Proof.
  intros (H1 & H2 & <-). rewrite length_firstn, length_skipn. lia.
Qed.

Lemma span_value_slice (D : jsstring) (m : Match) :
  span_of D m -> value m = slice D (start m) (end_ m).
Proof. intros (_ & _ & <-). reflexivity. Qed.


(** X2: for every category of the catalog, the entry of [detectAll(D)] is
    exactly what [detect(D, category)] returns, and the entries come in
    catalog order. *)
Theorem detectAll_entry_is_detect (D c : jsstring) (fuel : nat) :
  length D < fuel -> In c (keys patterns) ->
  exists results ms,
    detectAll fuel D = Ret results
    /\ keys results = keys patterns
    /\ obj_get results c = Some ms
    /\ detect fuel D c = Ret ms.
Proof.
  intros Hf Hc. destruct (detectAll_facts D) as (results & Hrun & Hkeys & Hall).
  destruct (results_lookup results c Hkeys Hc) as [ms Hms].
  exists results, ms. split; [apply Hrun, Hf|]. split; [assumption|].
  split; [assumption|].
  destruct (Hall c ms Hms) as (pattern & raw & f & _ & _ & _ & _ & Hdet & _).
  apply Hdet, Hf.
Qed.

Lemma retained_match_length (D c : jsstring) (ms : list Match)
  (pattern : regex) (m : Match) :
  entry_facts D c ms -> obj_get patterns c = Some pattern -> In m ms ->
  span_of D m /\ match_at D pattern (start m) = Some (end_ m).
Proof.
  intros Hfacts Hp Hm.
  destruct Hfacts
    as (pattern' & raw & f & Hp' & _ & _ & -> & _ & Hsp & Hex & _).
  assert (pattern' = pattern) by congruence. subst pattern'.
  apply filter_In in Hm. destruct Hm as [Hm _].
  rewrite Forall_forall in Hsp, Hex. split; [apply Hsp | apply Hex]; assumption.
Qed.

(** X3: the length of a matched value is bounded by its pattern: an SSN
    value has exactly 11 code units, a credit card value 16 to 19, a phone
    value 10 to 17, an email value at least 6, a name or address value at
    least 5. *)
Theorem match_value_lengths (D : jsstring) (fuel : nat) :
  length D < fuel ->
  exists results,
    detectAll fuel D = Ret results
    /\ (forall ms m, obj_get results (str "ssn") = Some ms -> In m ms ->
          length (value m) = 11)
    /\ (forall ms m, obj_get results (str "credit_card") = Some ms ->
          In m ms -> 16 <= length (value m) /\ length (value m) <= 19)
    /\ (forall ms m, obj_get results (str "phone") = Some ms -> In m ms ->
          10 <= length (value m) /\ length (value m) <= 17)
    /\ (forall ms m, obj_get results (str "email") = Some ms -> In m ms ->
          6 <= length (value m))
    /\ (forall ms m, obj_get results (str "name") = Some ms -> In m ms ->
          5 <= length (value m))
    /\ (forall ms m, obj_get results (str "address") = Some ms -> In m ms ->
          5 <= length (value m)).
Proof.
  intros Hf. destruct (detectAll_facts D) as (results & Hrun & Hkeys & Hall).
  exists results. split; [apply Hrun, Hf|].
  assert (Hlen : forall c pattern ms m,
             obj_get patterns c = Some pattern ->
             obj_get results c = Some ms -> In m ms ->
             minlen pattern <= length (value m)
             /\ forall k, maxlen pattern = Some k -> length (value m) <= k).
  { intros c pattern ms m Hp Hms Hm.
    destruct (@retained_match_length D c ms pattern m (Hall c ms Hms) Hp Hm)
      as [Hsp Hat].
    rewrite (span_value_length Hsp).
    destruct Hsp as (H1 & H2 & _).
    assert (Hst : start m <= length D) by lia.
    pose proof (@match_at_bounds D pattern _ _ Hst Hat) as [Hlo _].
    split; [lia|]. intros k Hk.
    pose proof (@match_at_upper D pattern k _ _ Hk Hat). lia. }
  split; [|split; [|split; [|split; [|split]]]]; intros ms m Hms Hm.
  - destruct (Hlen (str "ssn") ssn_pattern ms m eq_refl Hms Hm) as [Hlo Hhi].
    specialize (Hhi 11 eq_refl).
    change (minlen ssn_pattern) with 11 in Hlo. lia.
  - destruct (Hlen (str "credit_card") credit_card_pattern ms m eq_refl Hms Hm)
      as [Hlo Hhi]. specialize (Hhi 19 eq_refl).
    change (minlen credit_card_pattern) with 16 in Hlo. lia.
  - destruct (Hlen (str "phone") phone_pattern ms m eq_refl Hms Hm)
      as [Hlo Hhi]. specialize (Hhi 17 eq_refl).
    change (minlen phone_pattern) with 10 in Hlo. lia.
  - destruct (Hlen (str "email") email_pattern ms m eq_refl Hms Hm)
      as [Hlo Hhi].
    change (minlen email_pattern) with 6 in Hlo. lia.
  - destruct (Hlen (str "name") name_pattern ms m eq_refl Hms Hm)
      as [Hlo Hhi].
    change (minlen name_pattern) with 5 in Hlo. lia.
  - destruct (Hlen (str "address") address_pattern ms m eq_refl Hms Hm)
      as [Hlo Hhi].
    change (minlen address_pattern) with 5 in Hlo. lia.
Qed.

Lemma In_obj_get (A : Type) (o : object A) (k : jsstring) (v : A) :
  NoDup (keys o) -> In (k, v) o -> obj_get o k = Some v.
Proof.
  induction o as [|[k' v'] o IH]; simpl; intros Hnd Hin; [contradiction|].
  inversion Hnd as [|? ? Hk Hnd']; subst.
  destruct Hin as [Hin|Hin].
  - injection Hin as -> ->. rewrite jsstring_eqb_refl. reflexivity.
  - destruct (jsstring_eqb k k') eqn:E; [|auto].
    apply jsstring_eqb_eq in E. subst k'. exfalso. apply Hk.
    apply in_map_iff. exists (k, v). auto.
Qed.

Lemma obj_get_key (A : Type) (o : object A) (k : jsstring) (v : A) :
  obj_get o k = Some v -> In k (keys o).
Proof.
  intros H. apply obj_get_In in H. apply in_map_iff. exists (k, v). auto.
Qed.

Lemma value_units (D : jsstring) (m : Match) (ch : N) :
  span_of D m -> In ch (value m) -> In ch D.
Proof.
  intros Hsp Hin. rewrite (span_value_slice Hsp) in Hin.
  apply In_slice in Hin. destruct Hin as (i & _ & _ & Hi).
  exact (nth_error_In _ _ Hi).
Qed.

Lemma retained_match_needs (D c : jsstring) (ms : list Match)
  (pattern : regex) (m : Match) (lo hi : N) :
  entry_facts D c ms -> obj_get patterns c = Some pattern ->
  needs lo hi pattern = true -> In m ms -> has_unit lo hi (value m).
Proof.
  intros Hfacts Hp Hn Hm.
  destruct (@retained_match_length D c ms pattern m Hfacts Hp Hm)
    as [Hsp Hat].
  rewrite (span_value_slice Hsp).
  apply (@match_at_needs D lo hi pattern); [assumption | | assumption].
  destruct Hsp as (H1 & H2 & _). lia.
Qed.

(** X4: what a match always holds: every phone, address, SSN and credit
    card value has a decimal digit, every email value has an at sign, every
    name value has a capital letter A-Z. *)
Theorem match_values_hold (D : jsstring) (fuel : nat) :
  length D < fuel ->
  exists results,
    detectAll fuel D = Ret results
    /\ (forall c ms m,
          In c (map str ["phone"; "address"; "ssn"; "credit_card"]%string) ->
          obj_get results c = Some ms -> In m ms ->
          exists ch, In ch (value m) /\ is_digit ch = true)
    /\ (forall ms m,
          obj_get results (str "email") = Some ms -> In m ms ->
          In (code "@") (value m))
    /\ (forall ms m,
          obj_get results (str "name") = Some ms -> In m ms ->
          exists ch, In ch (value m) /\ (65 <= ch)%N /\ (ch <= 90)%N).
Proof.
  intros Hf. destruct (detectAll_facts D) as (results & Hrun & Hkeys & Hall).
  exists results. split; [apply Hrun, Hf|]. split; [|split].
  - intros c ms m Hc Hms Hm.
    assert (H : has_unit 48 57 (value m)).
    { simpl in Hc. destruct Hc as [<-|[<-|[<-|[<-|[]]]]].
      - apply (@retained_match_needs D _ ms phone_pattern m 48 57
                 (Hall _ ms Hms) eq_refl eq_refl Hm).
      - apply (@retained_match_needs D _ ms address_pattern m 48 57
                 (Hall _ ms Hms) eq_refl eq_refl Hm).
      - apply (@retained_match_needs D _ ms ssn_pattern m 48 57
                 (Hall _ ms Hms) eq_refl eq_refl Hm).
      - apply (@retained_match_needs D _ ms credit_card_pattern m 48 57
                 (Hall _ ms Hms) eq_refl eq_refl Hm). }
    destruct H as (ch & Hin & Hlo & Hhi). exists ch. split; [assumption|].
    unfold is_digit. apply andb_true_iff. split; apply N.leb_le; assumption.
  - intros ms m Hms Hm.
    destruct (@retained_match_needs D _ ms email_pattern m 64 64
                (Hall _ ms Hms) eq_refl eq_refl Hm) as (ch & Hin & Hlo & Hhi).
    replace (code "@") with ch; [assumption|]. change (code "@") with 64%N. lia.
  - intros ms m Hms Hm.
    exact (@retained_match_needs D _ ms name_pattern m 65 90
             (Hall _ ms Hms) eq_refl eq_refl Hm).
Qed.

Lemma plain_text_nothing (D : jsstring) (fuel : nat) :
  length D < fuel ->
  (forall ch, In ch D ->
     is_digit ch = false /\ ch <> code "@" /\ ((ch < 65)%N \/ (90 < ch)%N)) ->
  detectAll fuel D = Ret (map (fun c => (c, [])) (keys patterns))
  /\ anonymize fuel D = Ret D.
Proof.
  intros Hf Hplain.
  destruct (detectAll_facts D) as (results & Hrun & Hkeys & Hall).
  assert (Hempty : forall c ms, obj_get results c = Some ms -> ms = []).
  { intros c ms Hms. destruct ms as [|m ms']; [reflexivity|]. exfalso.
    assert (Hm : In m (m :: ms')) by (left; reflexivity).
    pose proof (Hall c _ Hms) as Hfacts.
    assert (Hc : In c (keys patterns))
      by (rewrite <- Hkeys; exact (obj_get_key _ _ Hms)).
    assert (Hsp : span_of D m).
    { destruct Hfacts as (p & raw & f & _ & _ & _ & Hfil & _ & Hsp & _).
      rewrite Hfil in Hm. apply filter_In in Hm. destruct Hm as [Hm _].
      rewrite Forall_forall in Hsp. exact (Hsp _ Hm). }
    assert (Hunit : exists lo hi,
               has_unit lo hi (value m)
               /\ ((lo = 48 /\ hi = 57) \/ (lo = 64 /\ hi = 64)
                   \/ (lo = 65 /\ hi = 90))%N).
    { unfold keys, patterns in Hc. simpl in Hc.
      destruct Hc as [<-|[<-|[<-|[<-|[<-|[<-|[]]]]]]].
      - exists 64%N, 64%N. split; [|auto].
        exact (@retained_match_needs D _ _ email_pattern m 64 64
                 Hfacts eq_refl eq_refl Hm).
      - exists 48%N, 57%N. split; [|auto].
        exact (@retained_match_needs D _ _ phone_pattern m 48 57
                 Hfacts eq_refl eq_refl Hm).
      - exists 65%N, 90%N. split; [|auto].
        exact (@retained_match_needs D _ _ name_pattern m 65 90
                 Hfacts eq_refl eq_refl Hm).
      - exists 48%N, 57%N. split; [|auto].
        exact (@retained_match_needs D _ _ address_pattern m 48 57
                 Hfacts eq_refl eq_refl Hm).
      - exists 48%N, 57%N. split; [|auto].
        exact (@retained_match_needs D _ _ ssn_pattern m 48 57
                 Hfacts eq_refl eq_refl Hm).
      - exists 48%N, 57%N. split; [|auto].
        exact (@retained_match_needs D _ _ credit_card_pattern m 48 57
                 Hfacts eq_refl eq_refl Hm). }
    destruct Hunit as (lo & hi & (ch & Hin & Hlo & Hhi) & Hcase).
    destruct (Hplain ch (@value_units D m ch Hsp Hin)) as (Hd & Hat & Hup).
    unfold is_digit in Hd. apply andb_false_iff in Hd.
    rewrite !N.leb_gt in Hd. change (code "@") with 64%N in Hat.
    destruct Hcase as [[-> ->]|[[-> ->]|[-> ->]]]; lia. }
  assert (Hres : results = map (fun c => (c, [])) (keys patterns)).
  { rewrite <- Hkeys. unfold keys. rewrite map_map.
    rewrite <- (map_id results) at 1. apply map_ext_in.
    intros [c ms] Hin. simpl. f_equal. apply (Hempty c).
    apply In_obj_get; [|assumption].
    fold (keys results). rewrite Hkeys. apply keys_patterns_NoDup. }
  split; [rewrite <- Hres; apply Hrun, Hf|].
  - unfold anonymize. rewrite (Hrun _ Hf). simpl.
    rewrite collect_retained, retained_nil; [reflexivity|].
    intros c ms Hin. apply (Hempty c).
    apply In_obj_get; [|assumption].
    rewrite Hkeys. apply keys_patterns_NoDup.
Qed.

(** X5: a document without decimal digits, at signs and capital letters A-Z
    has no match in any category, and [anonymize] returns it unchanged. *)
Theorem anonymize_plain_text (D : jsstring) (fuel : nat) :
  length D < fuel ->
  (forall ch, In ch D ->
     is_digit ch = false /\ ch <> code "@" /\ ((ch < 65)%N \/ (90 < ch)%N)) ->
  exists results,
    detectAll fuel D = Ret results
    /\ (forall c, In c (keys patterns) -> obj_get results c = Some [])
    /\ anonymize fuel D = Ret D.
Proof.
  intros Hf Hplain.
  destruct (plain_text_nothing D Hf Hplain) as [Hres Hanon].
  eexists. split; [exact Hres|]. split; [|exact Hanon].
  unfold keys, patterns. simpl.
  intros c [<-|[<-|[<-|[<-|[<-|[<-|[]]]]]]]; reflexivity.
Qed.

(** X6: for every category the number of unique values reported by
    [getUniqueValues] is at most the count reported by [getSummary], and
    the one is zero exactly when the other is. *)
Theorem unique_values_within_counts (D : jsstring) (fuel : nat) :
  length D < fuel ->
  exists summary unique,
    getSummary fuel D = Ret summary
    /\ getUniqueValues fuel D = Ret unique
    /\ forall c, In c (keys patterns) ->
         exists n u,
           obj_get summary c = Some n
           /\ obj_get unique c = Some u
           /\ length u <= n
           /\ (u = [] <-> n = 0).
Proof.
  intros Hf. destruct (detectAll_total D) as (results & Hrun & Hkeys & Hall).
  assert (Hnd : NoDup (keys results))
    by (rewrite Hkeys; apply keys_patterns_NoDup).
  exists (map_values (@length Match) results),
    (map_values (fun ms => Set_of (map value ms)) results).
  split; [|split].
  - unfold getSummary. rewrite (Hrun _ Hf). simpl.
    rewrite (@for_in_set _ _ (@length Match) results Hnd []); reflexivity.
  - unfold getUniqueValues. rewrite (Hrun _ Hf). simpl.
    rewrite (@for_in_set _ _ (fun ms => Set_of (map value ms)) results Hnd []);
      reflexivity.
  - intros c Hc. destruct (results_lookup results c Hkeys Hc) as [ms Hms].
    exists (length ms), (Set_of (map value ms)).
    rewrite !obj_get_map_values, Hms. split; [reflexivity|].
    split; [reflexivity|].
    destruct (Set_of_spec (map value ms)) as (Hnodup & Hmem & _).
    split.
    + rewrite <- (length_map value ms).
      apply NoDup_incl_length; [assumption|].
      intros v Hv. apply Hmem. assumption.
    + split.
      * intros Hu. destruct ms as [|m ms']; [reflexivity|]. exfalso.
        assert (Hv : In (value m) (Set_of (map value (m :: ms'))))
          by (apply Hmem; left; reflexivity).
        rewrite Hu in Hv. contradiction.
      * intros Hn. destruct ms; [reflexivity | discriminate].
Qed.

(** ** What [anonymize] leaves and what it writes *)

Lemma retained_In (results : object (list Match)) (m : TypedMatch) :
  In m (retained results) <->
  exists ms, In (type m, ms) results /\ In (base m) ms.
Proof.
  unfold retained. rewrite in_flat_map. split.
  - intros [[c ms] [Hc Hm]]. apply in_map_iff in Hm.
    destruct Hm as (m0 & <- & Hm0). exists ms. simpl. auto.
  - intros (ms & Hc & Hm). exists (type m, ms). split; [assumption|].
    apply in_map_iff. exists (base m). split; [|assumption].
    destruct m; reflexivity.
Qed.

Lemma retained_spans (D : jsstring) (results : object (list Match)) :
  keys results = keys patterns ->
  (forall c ms, obj_get results c = Some ms -> entry_facts D c ms) ->
  forall m, In m (retained results) ->
    In (type m) (keys patterns) /\ span_of D (base m).
Proof.
  intros Hkeys Hall m Hm. apply retained_In in Hm.
  destruct Hm as (ms & Hc & Hm).
  assert (Hms : obj_get results (type m) = Some ms).
  { apply In_obj_get; [|assumption]. rewrite Hkeys.
    apply keys_patterns_NoDup. }
  split; [rewrite <- Hkeys; exact (obj_get_key _ _ Hms)|].
  destruct (Hall _ _ Hms) as (p & raw & f & _ & _ & _ & Hfil & _ & Hsp & _).
  rewrite Hfil in Hm. apply filter_In in Hm. destruct Hm as [Hm _].
  rewrite Forall_forall in Hsp. exact (Hsp _ Hm).
Qed.



Section Rewriting.

Variable D : jsstring.





(** Whatever the spans, the text in front of the span replaced last is
    the original text, and the placeholder of that span follows it. *)
Lemma fold_redact_front (L : list TypedMatch) :
  forall cur p d,
    descending start_of L -> L <> [] ->
    (forall m, In m L -> start (base m) <= p) ->
    firstn p cur = firstn p D -> p <= length D ->
    exists rest,
      fold_left redact L cur
      = firstn (start (base (last L d))) D
          ++ (str "[" ++ toUpperCase (label (type (last L d))) ++ str "]")
          ++ rest.
Proof.
  induction L as [|m L IH]; intros cur p d Hd Hne Hin Hcur Hp;
    [contradiction|].
  assert (Hs : start (base m) <= p) by (apply Hin; left; reflexivity).
  assert (Hfront : firstn (start (base m)) cur
                   = firstn (start (base m)) D).
  { rewrite <- (Nat.min_l _ _ Hs), <- !firstn_firstn, Hcur. reflexivity. }
  destruct L as [|m' L'].
  - cbn [fold_left last]. unfold redact. rewrite Hfront.
    eexists. reflexivity.
  - inversion Hd as [|? ? Hd' Hm]; subst. rewrite Forall_forall in Hm.
    change (fold_left redact (m :: m' :: L') cur)
      with (fold_left redact (m' :: L') (redact cur m)).
    change (last (m :: m' :: L') d) with (last (m' :: L') d).
    apply (IH (redact cur m) (start (base m)) d);
      [assumption | discriminate | | | lia].
    + intros x Hx. apply Hm. assumption.
    + unfold redact. rewrite Hfront.
      rewrite firstn_app, firstn_firstn, Nat.min_id.
      rewrite length_firstn.
      replace (start (base m) - Nat.min (start (base m)) (length D))
        with 0 by lia.
      simpl. rewrite app_nil_r. reflexivity.
Qed.

End Rewriting.

Lemma last_In (A : Type) (l : list A) (d : A) : l <> [] -> In (last l d) l.
Proof.
  intros H. destruct (exists_last H) as (l0 & x & ->).
  rewrite last_last. apply in_or_app. right. left. reflexivity.
Qed.

Lemma descending_last (A : Type) (key : A -> nat) (l : list A) (d a : A) :
  descending key l -> In a l -> key (last l d) <= key a.
Proof.
  unfold descending. intros Hd. revert a.
  induction Hd as [|b l Hl IH Hb]; intros a Ha; [contradiction|].
  rewrite Forall_forall in Hb.
  destruct l as [|c l'].
  - destruct Ha as [<-|[]]. simpl. lia.
  - change (last (b :: c :: l') d) with (last (c :: l') d).
    destruct Ha as [<-|Ha]; [|apply IH; assumption].
    apply Hb. apply last_In. discriminate.
Qed.


(** X8: whether or not matches overlap, [anonymize] never touches the text
    in front of the earliest retained match, and writes a placeholder right
    there: the result is the document up to the lowest start offset, then
    the placeholder of a match that starts there, then the rest. *)
Theorem anonymize_keeps_front (D : jsstring) (fuel : nat) :
  length D < fuel ->
  exists results,
    detectAll fuel D = Ret results
    /\ forall m0,
         In m0 (retained results) ->
         (forall m, In m (retained results) ->
            start (base m0) <= start (base m)) ->
         exists m1 rest,
           In m1 (retained results)
           /\ start (base m1) = start (base m0)
           /\ anonymize fuel D
              = Ret (firstn (start (base m0)) D
                       ++ (str "[" ++ toUpperCase (label (type m1)) ++ str "]")
                       ++ rest).
Proof.
  intros Hf. destruct (detectAll_facts D) as (results & Hrun & Hkeys & Hall).
  exists results. split; [apply Hrun, Hf|].
  intros m0 Hm0 Hmin.
  set (L := Array_sort by_start_desc (retained results)).
  assert (Hperm : Permutation L (retained results))
    by apply Array_sort_Permutation.
  assert (Hdesc : descending start_of L)
    by (apply Array_sort_descending, by_start_desc_key).
  assert (Hne : L <> []).
  { intros E. rewrite E in Hperm. apply Permutation_nil in Hperm.
    rewrite Hperm in Hm0. contradiction. }
  assert (Hspans : forall m, In m L ->
             In (type m) (keys patterns) /\ span_of D (base m)).
  { intros m Hm. apply (@retained_spans D results Hkeys Hall).
    exact (Permutation_in _ Hperm Hm). }
  destruct (@fold_redact_front D L D (length D) m0 Hdesc Hne) as [rest Hrest];
    [| reflexivity | lia |].
  { intros m Hm. destruct (Hspans m Hm) as [_ (H1 & H2 & _)]. lia. }
  pose proof (@last_In _ L m0 Hne) as Hlast.
  exists (last L m0), rest. split; [|split].
  - exact (Permutation_in _ Hperm Hlast).
  - apply Nat.le_antisymm.
    + apply (@descending_last _ start_of L m0 m0 Hdesc).
      exact (Permutation_in _ (Permutation_sym Hperm) Hm0).
    + apply Hmin. exact (Permutation_in _ Hperm Hlast).
  - unfold anonymize. rewrite (Hrun _ Hf). simpl.
    rewrite collect_retained. fold L.
    rewrite replace_all_fold by (intros m Hm; apply Hspans; assumption).
    rewrite Hrest. f_equal. f_equal.
    f_equal. apply Nat.le_antisymm.
    + apply (@descending_last _ start_of L m0 m0 Hdesc).
      exact (Permutation_in _ (Permutation_sym Hperm) Hm0).
    + apply Hmin. exact (Permutation_in _ Hperm Hlast).
Qed.

(** ** Literals and capture groups *)

Lemma starts_with_app (t s rest : jsstring) :
  starts_with t s = true -> exists tail, s = t ++ tail.
Proof.
  revert s; induction t as [|a t IH]; intros s H; simpl in *.
  - exists s. reflexivity.
  - destruct s as [|b s]; [discriminate|].
    apply andb_true_iff in H. destruct H as [Hb H].
    apply N.eqb_eq in Hb. subst b.
    destruct (IH s H) as [tail ->]. exists tail. reflexivity.
Qed.

Lemma starts_with_refl (t tail : jsstring) : starts_with t (t ++ tail) = true.
Proof.
  induction t as [|a t IH]; simpl; [reflexivity|].
  rewrite N.eqb_refl, IH. reflexivity.
Qed.

Lemma skipn_split (A : Type) (s : list A) (i : nat) (tail : list A) :
  skipn i s = tail -> i <= length s -> s = firstn i s ++ tail.
Proof. intros <- _. symmetry. apply firstn_skipn. Qed.

Section CaptureFacts.

Variable input : jsstring.
Variable R : Type.

(** A literal matches where the input goes on with it, and nowhere
    else. *)
Lemma lit_matcherR (s : string) :
  forall x (c : nat -> option R),
    matcherR input (lit s) x c
    = if starts_with (str s) (skipn x input)
      then c (x + length (str s)) else None.
Proof.
  induction s as [|a s IH]; intros x c.
  - simpl. rewrite Nat.add_0_r. reflexivity.
  - assert (Hone : forall k : nat -> option R,
               matcherR input (chr a) x k
               = match skipn x input with
                 | b :: _ => if N.eqb b (code a) then k (S x) else None
                 | [] => None
                 end).
    { intros k. unfold chr. cbn [matcherR].
      destruct (nth_error input x) as [ch|] eqn:E.
      - rewrite (skipn_nth_error_cons _ _ E).
        unfold class_mem. simpl. rewrite orb_false_r. reflexivity.
      - rewrite (skipn_nth_error_nil _ _ E). reflexivity. }
    destruct s as [|b s].
    + change (lit (String a EmptyString)) with (chr a). rewrite Hone.
      simpl. destruct (skipn x input) as [|ch rest]; [reflexivity|].
      rewrite andb_true_r. replace (x + 1) with (S x) by lia. reflexivity.
    + change (lit (String a (String b s)))
        with (Seq (chr a) (lit (String b s))).
      cbn [matcherR]. rewrite Hone.
      change (str (String a (String b s)))
        with (code a :: str (String b s)).
      cbn [starts_with length].
      destruct (skipn x input) as [|ch rest] eqn:E; [reflexivity|].
      destruct (N.eqb ch (code a)); [|reflexivity].
      rewrite IH. cbn [andb].
      replace (skipn (S x) input) with rest.
      * replace (S x + length (str (String b s)))
          with (x + S (length (str (String b s)))) by lia.
        reflexivity.
      * replace (S x) with (1 + x) by lia.
        rewrite <- skipn_skipn, E. reflexivity.
Qed.

Variable items : list class_item.

Local Abbreviation p := (in_class items).

Lemma class_matcherR (x : nat) (k : nat -> option R) :
  matcherR input (Class items) x k
  = match nth_error input x with
    | Some ch => if p ch then k (S x) else None
    | None => None
    end.
Proof. reflexivity. Qed.

(** A greedy run of class members whose continuation accepts the longest
    run takes it. *)
Lemma greedy_classR (c : nat -> option R) (z : R) (n : nat) :
  forall x,
    x <= length input -> length input - x <= n ->
    c (x + run_length p (skipn x input)) = Some z ->
    repeat_greedyR (matcherR input (Class items)) n x c = Some z.
Proof.
  induction n as [|n IH]; intros x Hx Hn Hc.
  - cbn [repeat_greedyR]. rewrite skipn_all2 in Hc by lia.
    simpl in Hc. rewrite Nat.add_0_r in Hc. assumption.
  - cbn [repeat_greedyR]. rewrite class_matcherR.
    destruct (nth_error input x) as [ch|] eqn:E.
    + rewrite (skipn_nth_error_cons _ _ E) in Hc. cbn [run_length] in Hc.
      destruct (p ch).
      * assert (x < length input) by (apply nth_error_Some; congruence).
        replace (Nat.eqb (S x) x) with false
          by (symmetry; apply Nat.eqb_neq; lia).
        rewrite (IH (S x)); [reflexivity | lia | lia |].
        rewrite <- Hc. f_equal. lia.
      * rewrite Nat.add_0_r in Hc. assumption.
    + rewrite (skipn_nth_error_nil _ _ E) in Hc. simpl in Hc.
      rewrite Nat.add_0_r in Hc. assumption.
Qed.

Lemma plus_class_unfold (c : nat -> option R) (x : nat) :
  matcherR input (plus (Class items)) x c
  = matcherR input (Class items) x
      (fun y => repeat_greedyR (matcherR input (Class items))
                  (length input - y) y c).
Proof. reflexivity. Qed.

Lemma plus_classR_outside (c : nat -> option R) (x : nat) :
  length input <= x -> matcherR input (plus (Class items)) x c = None.
Proof.
  intros Hx. rewrite plus_class_unfold, class_matcherR.
  replace (nth_error input x) with (@None N); [reflexivity|].
  symmetry. apply nth_error_None. assumption.
Qed.

Lemma plus_classR (c : nat -> option R) (x : nat) :
  x <= length input ->
  (forall y, c y <> None) ->
  matcherR input (plus (Class items)) x c
  = match run_length p (skipn x input) with
    | 0 => None
    | n => c (x + n)
    end.
Proof.
  intros Hx Hc. rewrite plus_class_unfold, class_matcherR.
  destruct (nth_error input x) as [ch|] eqn:E.
  - rewrite (skipn_nth_error_cons _ _ E). cbn [run_length].
    assert (x < length input) by (apply nth_error_Some; congruence).
    destruct (p ch); [|reflexivity].
    destruct (c (x + S (run_length p (skipn (S x) input)))) as [z|] eqn:Ez;
      [|exfalso; exact (Hc _ Ez)].
    apply greedy_classR; [lia | lia |].
    rewrite <- Ez. f_equal. lia.
  - rewrite (skipn_nth_error_nil _ _ E). reflexivity.
Qed.

End CaptureFacts.

Section GroupFacts.

Variable input : jsstring.
Variable s : string.
Variable items : list class_item.

Local Abbreviation p := (in_class items).

(** The pattern [literal(class+)] tried at [i]: the literal must stand
    there, and the group takes the whole run of class members after it. *)
Lemma lit_group_at (i : nat) :
  match_group_at input (lit s) (plus (Class items)) i
  = if starts_with (str s) (skipn i input) then
      match run_length p (skipn (i + length (str s)) input) with
      | 0 => None
      | n => Some (i + length (str s), i + length (str s) + n)
      end
    else None.
Proof.
  unfold match_group_at. rewrite lit_matcherR.
  destruct (starts_with (str s) (skipn i input)) eqn:E; [|reflexivity].
  destruct (Nat.le_gt_cases (i + length (str s)) (length input)) as [H|H].
  - apply plus_classR; [assumption | discriminate].
  - rewrite (skipn_all2 input) by lia. simpl.
    apply plus_classR_outside. lia.
Qed.

Lemma search_group_found (pre grp : regex) (n : nat) :
  forall i index x y,
    search_group input pre grp n i = Some (index, x, y) ->
    i <= index /\ index < i + n
    /\ match_group_at input pre grp index = Some (x, y)
    /\ forall j, i <= j -> j < index ->
         match_group_at input pre grp j = None.
Proof.
  induction n as [|n IH]; intros i index x y H; simpl in H;
    [discriminate|].
  destruct (match_group_at input pre grp i) as [[x' y']|] eqn:E.
  - injection H as <- <- <-. repeat split; [lia | lia | assumption |].
    intros; lia.
  - apply IH in H. destruct H as (H1 & H2 & H3 & H4).
    repeat split; [lia | lia | assumption |].
    intros j Hj1 Hj2. destruct (Nat.eq_dec j i) as [->|]; [assumption|].
    apply H4; lia.
Qed.

Lemma search_group_none (pre grp : regex) (n : nat) :
  forall i, search_group input pre grp n i = None ->
    forall j, i <= j -> j < i + n ->
      match_group_at input pre grp j = None.
Proof.
  induction n as [|n IH]; intros i H j Hj1 Hj2; simpl in H; [lia|].
  destruct (match_group_at input pre grp i) as [[x' y']|] eqn:E;
    [discriminate|].
  destruct (Nat.eq_dec j i) as [->|]; [assumption|].
  apply (IH _ H); lia.
Qed.

Lemma search_group_first (pre grp : regex) (n : nat) :
  forall i index x y,
    i <= index -> index < i + n ->
    (forall j, i <= j -> j < index ->
       match_group_at input pre grp j = None) ->
    match_group_at input pre grp index = Some (x, y) ->
    search_group input pre grp n i = Some (index, x, y).
Proof.
  induction n as [|n IH]; intros i index x y Hi Hn Hnone Hat; [lia|].
  simpl. destruct (Nat.eq_dec i index) as [->|Hne].
  - rewrite Hat. reflexivity.
  - rewrite (Hnone i) by lia. apply IH; [lia | lia | | assumption].
    intros j Hj1 Hj2. apply Hnone; lia.
Qed.

(** [input.match(/literal(class+)/)]: the match is the first place where
    the literal stands with a class member after it; the group is the
    run of class members that follows the literal. *)
Lemma String_match_group_some (m0 g : jsstring) :
  String_match_group input (lit s) (plus (Class items)) = Some (m0, g) ->
  exists before after,
    input = before ++ str s ++ g ++ after
    /\ m0 = str s ++ g
    /\ g <> []
    /\ Forall (fun ch => p ch = true) g
    /\ run_length p after = 0.
Proof.
  unfold String_match_group.
  destruct (search_group _ _ _ _ _) as [[[index x] y]|] eqn:E;
    [|discriminate].
  intros H. injection H as <- <-.
  apply search_group_found in E. destruct E as (_ & Hlt & Hat & _).
  rewrite lit_group_at in Hat.
  destruct (starts_with (str s) (skipn index input)) eqn:Es;
    [|discriminate].
  destruct (starts_with_app _ _ [] Es) as [tail Htail].
  assert (Hskip : skipn (index + length (str s)) input = tail).
  { rewrite Nat.add_comm, <- skipn_skipn, Htail.
    rewrite skipn_app, Nat.sub_diag, skipn_all. reflexivity. }
  rewrite Hskip in Hat.
  destruct (run_length p tail) as [|k] eqn:Ek; [discriminate|].
  injection Hat as <- <-.
  pose proof (run_length_le p tail) as Hk. rewrite Ek in Hk.
  assert (Hlen : length input = index + length (str s) + length tail).
  { rewrite <- (firstn_skipn index input) at 1.
    rewrite Htail, !length_app, length_firstn. simpl in Hlt. lia. }
  exists (firstn index input), (skipn (S k) tail).
  assert (Hg : substring input (index + length (str s))
                 (index + length (str s) + S k)
               = firstn (S k) tail).
  { rewrite substring_slice by lia. rewrite Hskip. f_equal. lia. }
  assert (Hm0 : substring input index (index + length (str s) + S k)
                = str s ++ firstn (S k) tail).
  { rewrite substring_slice by lia. rewrite Htail.
    replace (index + length (str s) + S k - index)
      with (length (str s) + S k) by lia.
    rewrite firstn_app, firstn_all2 by lia.
    replace (length (str s) + S k - length (str s)) with (S k) by lia.
    reflexivity. }
  rewrite Hg, Hm0. split; [|split; [|split; [|split]]].
  - rewrite <- (firstn_skipn index input) at 1. rewrite Htail.
    rewrite firstn_skipn. reflexivity.
  - reflexivity.
  - intros Hnil. apply (f_equal (@length N)) in Hnil.
    rewrite length_firstn in Hnil. cbn [length] in Hnil. lia.
  - rewrite <- Ek. clear. induction tail as [|c t IH]; simpl; [constructor|].
    destruct (p c) eqn:E; simpl; [|constructor].
    constructor; assumption.
  - rewrite <- Ek. pose proof (run_length_stop p tail) as Hstop.
    destruct (skipn (run_length p tail) tail) as [|d rest] eqn:Ed;
      [reflexivity|].
    simpl. rewrite Hstop. reflexivity.
Qed.

(** The pattern is found wherever the literal is followed by a class
    member. *)
Lemma String_match_group_complete (before after : jsstring) (ch : N) :
  input = before ++ str s ++ ch :: after -> p ch = true ->
  String_match_group input (lit s) (plus (Class items)) <> None.
Proof.
  intros Hin Hch. unfold String_match_group.
  destruct (search_group _ _ _ _ _) as [[[index x] y]|] eqn:E;
    [discriminate|].
  exfalso.
  pose proof (@search_group_none (lit s) (plus (Class items)) _ _ E
                (length before) (Nat.le_0_l _)) as Hnone.
  rewrite lit_group_at in Hnone.
  assert (Hskip : skipn (length before) input = str s ++ ch :: after).
  { rewrite Hin, skipn_app, Nat.sub_diag, skipn_all. reflexivity. }
  rewrite Hskip, starts_with_refl in Hnone.
  assert (Hskip2 : skipn (length before + length (str s)) input
                   = ch :: after).
  { rewrite Nat.add_comm, <- skipn_skipn, Hskip.
    rewrite skipn_app, Nat.sub_diag, skipn_all. reflexivity. }
  rewrite Hskip2 in Hnone. simpl in Hnone. rewrite Hch in Hnone.
  assert (length before < 0 + S (length input)).
  { rewrite Hin, length_app. lia. }
  specialize (Hnone H). discriminate.
Qed.

End GroupFacts.

(** * Properties of the content fetcher *)

Lemma run_length_0 (p : N -> bool) (s : jsstring) :
  run_length p s = 0 <-> forall ch rest, s = ch :: rest -> p ch = false.
Proof.
  destruct s as [|c s]; simpl.
  - split; [intros _ ch rest H; discriminate | reflexivity].
  - destruct (p c) eqn:E; split.
    + discriminate.
    + intros H. specialize (H c s eq_refl). congruence.
    + intros _ ch rest H. injection H as <- <-. assumption.
    + reflexivity.
Qed.

Lemma trimStart_nil (s : jsstring) :
  trimStart s = [] <-> Forall (fun c => is_space c = true) s.
Proof.
  induction s as [|c s IH]; simpl.
  - split; [constructor | reflexivity].
  - destruct (is_space c) eqn:E.
    + rewrite IH. split; [constructor; assumption|].
      intros H. inversion H. assumption.
    + split; [discriminate|]. intros H. inversion H. congruence.
Qed.

Lemma trimStart_spaces (s : jsstring) :
  Forall (fun c => is_space c = true) (trimStart s) -> trimStart s = [].
Proof.
  induction s as [|c s IH]; simpl; [reflexivity|].
  destruct (is_space c) eqn:E; [exact IH|].
  intros H. inversion H. congruence.
Qed.

(** [trim] leaves nothing exactly when the string is all white space. *)
Lemma trim_nil (s : jsstring) :
  trim s = [] <-> Forall (fun c => is_space c = true) s.
Proof.
  unfold trim. split.
  - intros H. apply (f_equal (@rev N)) in H. rewrite rev_involutive in H.
    simpl in H. apply trimStart_nil in H.
    apply Forall_rev in H. rewrite rev_involutive in H.
    apply trimStart_nil, trimStart_spaces. assumption.
  - intros H. apply trimStart_nil in H. rewrite H. reflexivity.
Qed.

Lemma validateUrl_blank (url : jsstring) :
  Forall (fun c => is_space c = true) url ->
  validateUrl url = invalid (str "Empty URL").
Proof.
  intros H. apply trim_nil in H. unfold validateUrl.
  destruct url as [|c url]; [reflexivity|]. rewrite H. reflexivity.
Qed.

Lemma validateUrl_not_blank (url : jsstring) :
  ~ Forall (fun c => is_space c = true) url ->
  validateUrl url
  = let info := detectPlatform url in
    if jsstring_eqb (platform info) (str "unknown") then
      invalid (str "Unsupported platform. Supported: Pastebin, Google Docs")
    else
      match docId info with
      | None | Some [] =>
          invalid (str "Could not extract document ID from " ++ platform info)
      | Some id =>
          {| valid := true;
             message := str "Valid " ++ platform info ++ str " URL";
             valid_platform := Some (platform info);
             valid_docId := Some id |}
      end.
Proof.
  intros H. unfold validateUrl.
  destruct url as [|c url]; [exfalso; apply H; constructor|].
  destruct (trim (c :: url)) eqn:E; [|reflexivity].
  apply trim_nil in E. contradiction.
Qed.

(** What [detectPlatform] answers.  Either the URL holds
    "pastebin.com/" followed by a letter or digit, and the answer is
    pastebin with the whole run of letters and digits found there; or it
    holds no such place but holds "docs.google.com/document/d/" followed by
    a letter, digit, underscore or hyphen, and the answer is google_docs
    with the run found there; or it holds neither, and the answer is
    unknown with no identifier. *)
Lemma detectPlatform_spec (url : jsstring) :
  (exists id before after,
     detectPlatform url
     = {| platform := str "pastebin"; docId := Some id |}
     /\ url = before ++ str "pastebin.com/" ++ id ++ after
     /\ id <> []
     /\ Forall (fun ch => paste_unit ch = true) id
     /\ (forall ch rest, after = ch :: rest -> paste_unit ch = false))
  \/ (exists id before after,
        detectPlatform url
        = {| platform := str "google_docs"; docId := Some id |}
        /\ url = before ++ str "docs.google.com/document/d/" ++ id ++ after
        /\ id <> []
        /\ Forall (fun ch => doc_unit ch = true) id
        /\ (forall ch rest, after = ch :: rest -> doc_unit ch = false)
        /\ (forall b a ch,
              url = b ++ str "pastebin.com/" ++ ch :: a ->
              paste_unit ch = false))
  \/ (detectPlatform url = {| platform := str "unknown"; docId := None |}
      /\ (forall b a ch,
            url = b ++ str "pastebin.com/" ++ ch :: a ->
            paste_unit ch = false)
      /\ (forall b a ch,
            url = b ++ str "docs.google.com/document/d/" ++ ch :: a ->
            doc_unit ch = false)).
Proof.
  unfold detectPlatform, platformPatterns, pastebin_pattern,
    google_docs_pattern.
  cbn [detectPlatform_loop].
  destruct (String_match_group url (lit "pastebin.com/") (plus (Class alnum)))
    as [[m0 g]|] eqn:E1.
  { left. apply String_match_group_some in E1.
    destruct E1 as (before & after & Hurl & _ & Hne & Hall & Hstop).
    exists g, before, after. repeat split; try assumption.
    apply run_length_0. assumption. }
  assert (Hno1 : forall b a ch,
             url = b ++ str "pastebin.com/" ++ ch :: a ->
             paste_unit ch = false).
  { intros b a ch Hurl. destruct (paste_unit ch) eqn:Ech; [|reflexivity].
    exfalso.
    exact (@String_match_group_complete url "pastebin.com/" alnum b a ch
             Hurl Ech E1). }
  right.
  destruct (String_match_group url (lit "docs.google.com/document/d/")
              (plus (Class (alnum ++ [CChar "_"; CChar "-"]))))
    as [[m0 g]|] eqn:E2.
  { left. apply String_match_group_some in E2.
    destruct E2 as (before & after & Hurl & _ & Hne & Hall & Hstop).
    exists g, before, after. repeat split; try assumption.
    apply run_length_0. assumption. }
  right. repeat split; [assumption|].
  intros b a ch Hurl. destruct (doc_unit ch) eqn:Ech; [|reflexivity].
  exfalso.
  exact (@String_match_group_complete url "docs.google.com/document/d/"
           (alnum ++ [CChar "_"; CChar "-"]) b a ch Hurl Ech E2).
Qed.

Lemma detectPlatform_not_blank (url : jsstring) :
  platform (detectPlatform url) <> str "unknown" ->
  ~ Forall (fun c => is_space c = true) url.
Proof.
  intros Hp Hblank.
  destruct (detectPlatform_spec url)
    as [(id & b & a & _ & Hurl & _)|[(id & b & a & _ & Hurl & _)|(H & _)]].
  - rewrite Hurl in Hblank. apply Forall_app in Hblank.
    destruct Hblank as [_ Hblank]. simpl in Hblank.
    inversion Hblank as [|? ? Hc _]. discriminate.
  - rewrite Hurl in Hblank. apply Forall_app in Hblank.
    destruct Hblank as [_ Hblank]. simpl in Hblank.
    inversion Hblank as [|? ? Hc _]. discriminate.
  - rewrite H in Hp. apply Hp. reflexivity.
Qed.

(** [validateUrl] accepts a URL exactly when [detectPlatform] knows
    its platform; it then hands on the platform, pastebin or google_docs,
    and a non-empty identifier.  A refused URL gets one of two messages:
    the message about a missing identifier is never given. *)
Lemma validateUrl_spec (url : jsstring) :
  (valid (validateUrl url) = true
   <-> platform (detectPlatform url) <> str "unknown")
  /\ ((exists p id,
         validateUrl url
         = {| valid := true; message := str "Valid " ++ p ++ str " URL";
              valid_platform := Some p; valid_docId := Some id |}
         /\ detectPlatform url = {| platform := p; docId := Some id |}
         /\ id <> []
         /\ (p = str "pastebin" \/ p = str "google_docs"))
      \/ validateUrl url = invalid (str "Empty URL")
      \/ validateUrl url
         = invalid
             (str "Unsupported platform. Supported: Pastebin, Google Docs")).
Proof.
  assert (Hcases :
    (exists p id,
        detectPlatform url = {| platform := p; docId := Some id |}
        /\ id <> [] /\ (p = str "pastebin" \/ p = str "google_docs"))
    \/ detectPlatform url = {| platform := str "unknown"; docId := None |}).
  { destruct (detectPlatform_spec url)
      as [(id & b & a & H & _ & Hne & _)
         |[(id & b & a & H & _ & Hne & _)|(H & _)]].
    - left. exists (str "pastebin"), id. auto.
    - left. exists (str "google_docs"), id. auto.
    - right. assumption. }
  destruct Hcases as [(p & id & Hd & Hne & Hp)|Hd].
  - assert (Hknown : platform (detectPlatform url) <> str "unknown").
    { rewrite Hd. simpl. destruct Hp as [->| ->]; discriminate. }
    assert (Hv : validateUrl url
                 = {| valid := true;
                      message := str "Valid " ++ p ++ str " URL";
                      valid_platform := Some p; valid_docId := Some id |}).
    { rewrite (validateUrl_not_blank (detectPlatform_not_blank Hknown)).
      rewrite Hd. cbv zeta. cbn [platform docId].
      destruct Hp as [->| ->]; cbn [jsstring_eqb str N.eqb];
        destruct id; [contradiction | reflexivity
                     | contradiction | reflexivity]. }
    split.
    + rewrite Hv. simpl. split; [intros _; assumption | reflexivity].
    + left. exists p, id. auto.
  - assert (Hv : validateUrl url = invalid (str "Empty URL")
                 \/ validateUrl url
                    = invalid (str "Unsupported platform. Supported: Pastebin, Google Docs")).
    { destruct (Forall_dec (fun c => is_space c = true)
                  (fun c => bool_dec (is_space c) true) url) as [Hb|Hb].
      - left. apply validateUrl_blank. assumption.
      - right. rewrite (validateUrl_not_blank Hb), Hd. reflexivity. }
    split.
    + rewrite Hd. simpl.
      destruct Hv as [-> | ->]; simpl;
        (split; [discriminate | intros H; exfalso; apply H; reflexivity]).
    + right. assumption.
Qed.

(** X9: what [detectPlatform] answers, for every URL.  Either the URL holds
    "pastebin.com/" followed by a letter or digit, and the answer is
    pastebin with the whole run of letters and digits found there; or it
    holds no such place but holds "docs.google.com/document/d/" followed by
    a letter, digit, underscore or hyphen, and the answer is google_docs
    with the run found there; or it holds neither, and the answer is
    unknown with no identifier.  The identifier is never empty. *)
Theorem detectPlatform_cases (url : jsstring) :
  (exists id before after,
     detectPlatform url
     = {| platform := str "pastebin"; docId := Some id |}
     /\ url = before ++ str "pastebin.com/" ++ id ++ after
     /\ id <> []
     /\ Forall (fun ch => paste_unit ch = true) id
     /\ (forall ch rest, after = ch :: rest -> paste_unit ch = false))
  \/ (exists id before after,
        detectPlatform url
        = {| platform := str "google_docs"; docId := Some id |}
        /\ url = before ++ str "docs.google.com/document/d/" ++ id ++ after
        /\ id <> []
        /\ Forall (fun ch => doc_unit ch = true) id
        /\ (forall ch rest, after = ch :: rest -> doc_unit ch = false)
        /\ (forall b a ch,
              url = b ++ str "pastebin.com/" ++ ch :: a ->
              paste_unit ch = false))
  \/ (detectPlatform url = {| platform := str "unknown"; docId := None |}
      /\ (forall b a ch,
            url = b ++ str "pastebin.com/" ++ ch :: a ->
            paste_unit ch = false)
      /\ (forall b a ch,
            url = b ++ str "docs.google.com/document/d/" ++ ch :: a ->
            doc_unit ch = false)).
Proof. exact (detectPlatform_spec url). Qed.

(** X10: [validateUrl] accepts a URL exactly when [detectPlatform] knows its
    platform; it then hands on the platform, pastebin or google_docs, and
    the non-empty identifier [detectPlatform] found.  A refused URL gets one
    of two messages: the branch with the message about an identifier that
    could not be extracted is never taken. *)
Theorem validateUrl_cases (url : jsstring) :
  (valid (validateUrl url) = true
   <-> platform (detectPlatform url) <> str "unknown")
  /\ ((exists p id,
         validateUrl url
         = {| valid := true; message := str "Valid " ++ p ++ str " URL";
              valid_platform := Some p; valid_docId := Some id |}
         /\ detectPlatform url = {| platform := p; docId := Some id |}
         /\ id <> []
         /\ (p = str "pastebin" \/ p = str "google_docs"))
      \/ validateUrl url = invalid (str "Empty URL")
      \/ validateUrl url
         = invalid
             (str "Unsupported platform. Supported: Pastebin, Google Docs")).
Proof. exact (validateUrl_spec url). Qed.

(** ** Round trips through the two address builders *)

Lemma run_length_app (p : N -> bool) (a rest : jsstring) :
  Forall (fun ch => p ch = true) a ->
  run_length p (a ++ rest) = length a + run_length p rest.
Proof.
  induction 1 as [|c a Hc Ha IH]; simpl; [reflexivity|].
  rewrite Hc, IH. reflexivity.
Qed.

Lemma doc_unit_not_dot (id : jsstring) (k : nat) :
  Forall (fun ch => doc_unit ch = true) id ->
  nth_error id k <> Some (code ".").
Proof.
  intros Hall H. apply nth_error_In in H.
  rewrite Forall_forall in Hall. apply Hall in H. discriminate.
Qed.

(** The export address of a document holds no pastebin address. *)
Lemma export_url_no_pastebin (id : jsstring) :
  Forall (fun ch => doc_unit ch = true) id ->
  String_match_group (transformGoogleDocsUrl id) (lit "pastebin.com/")
    (plus (Class alnum)) = None.
Proof.
  intros Hall.
  destruct (String_match_group _ _ _) as [[m0 g]|] eqn:E; [|reflexivity].
  exfalso. apply String_match_group_some in E.
  destruct E as (before & after & Hurl & _).
  assert (Hp : nth_error (transformGoogleDocsUrl id) (length before)
               = Some (code "p")).
  { rewrite Hurl, nth_error_app2, Nat.sub_diag by lia. reflexivity. }
  assert (Hdot : nth_error (transformGoogleDocsUrl id) (length before + 8)
                 = Some (code ".")).
  { rewrite Hurl, nth_error_app2 by lia.
    replace (length before + 8 - length before) with 8 by lia. reflexivity. }
  unfold transformGoogleDocsUrl in Hp, Hdot.
  set (P := str "https://docs.google.com/document/d/") in *.
  destruct (Nat.lt_ge_cases (length before + 8) (length P)) as [Hlt|Hge].
  - rewrite nth_error_app1 in Hdot by assumption.
    rewrite nth_error_app1 in Hp by lia.
    change (length P) with 35 in Hlt.
    assert (Hb : length before < 27) by lia.
    revert Hp Hdot. generalize (length before) Hb. clear.
    intros n Hn.
    do 27 (destruct n as [|n]; [simpl; intros; discriminate|]).
    lia.
  - rewrite nth_error_app2 in Hdot by assumption.
    destruct (Nat.lt_ge_cases (length before + 8 - length P) (length id))
      as [Hlt|Hge'].
    + rewrite nth_error_app1 in Hdot by assumption.
      exact (doc_unit_not_dot _ Hall Hdot).
    + rewrite nth_error_app2 in Hdot by assumption.
      apply nth_error_In in Hdot. simpl in Hdot.
      repeat (destruct Hdot as [Hdot|Hdot]; [discriminate|]).
      contradiction.
Qed.

Lemma transformGoogleDocsUrl_found (id : jsstring) :
  id <> [] -> Forall (fun ch => doc_unit ch = true) id ->
  detectPlatform (transformGoogleDocsUrl id)
  = {| platform := str "google_docs"; docId := Some id |}.
Proof.
  intros Hne Hall.
  unfold detectPlatform, platformPatterns, pastebin_pattern,
    google_docs_pattern.
  cbn [detectPlatform_loop].
  rewrite (export_url_no_pastebin Hall).
  unfold String_match_group.
  set (url := transformGoogleDocsUrl id).
  assert (Hlen : length url = 35 + length id + 18).
  { unfold url, transformGoogleDocsUrl. rewrite !length_app. reflexivity. }
  assert (Hskip : skipn 35 url = id ++ str "/export?format=txt").
  { unfold url, transformGoogleDocsUrl. reflexivity. }
  rewrite (@search_group_first url (lit "docs.google.com/document/d/")
             (plus (Class (alnum ++ [CChar "_"; CChar "-"])))
             (S (length url)) 0 8 35 (35 + length id)).
  - f_equal. f_equal. rewrite substring_slice by lia.
    rewrite Hskip. replace (35 + length id - 35) with (length id) by lia.
    rewrite firstn_app, Nat.sub_diag, firstn_all. simpl. apply app_nil_r.
  - lia.
  - lia.
  - intros j _ Hj. rewrite lit_group_at.
    do 8 (destruct j as [|j]; [reflexivity|]). lia.
  - rewrite lit_group_at.
    replace (starts_with (str "docs.google.com/document/d/") (skipn 8 url))
      with true by reflexivity.
    change (8 + length (str "docs.google.com/document/d/")) with 35.
    rewrite Hskip. rewrite (run_length_app _ _ Hall).
    replace (run_length (in_class (alnum ++ [CChar "_"; CChar "-"]))
               (str "/export?format=txt")) with 0 by reflexivity.
    destruct id as [|c id']; [contradiction|].
    simpl length. rewrite Nat.add_0_r. reflexivity.
Qed.

Lemma transformPastebinUrl_found (pasteId : jsstring) :
  detectPlatform (transformPastebinUrl pasteId)
  = {| platform := str "pastebin"; docId := Some (str "raw") |}.
Proof.
  unfold detectPlatform, platformPatterns, pastebin_pattern.
  cbn [detectPlatform_loop]. unfold String_match_group.
  set (url := transformPastebinUrl pasteId).
  assert (Hlen : length url = 25 + length pasteId).
  { unfold url, transformPastebinUrl. rewrite length_app. reflexivity. }
  rewrite (@search_group_first url (lit "pastebin.com/") (plus (Class alnum))
             (S (length url)) 0 8 21 24).
  - reflexivity.
  - lia.
  - lia.
  - intros j _ Hj. rewrite lit_group_at.
    do 8 (destruct j as [|j]; [reflexivity|]). lia.
  - rewrite lit_group_at. reflexivity.
Qed.

(** X11: the export address built for a document identifier is recognised
    again as a Google Docs address with that very identifier, for every
    non-empty identifier made of letters, digits, underscores and hyphens;
    and [validateUrl] accepts it. *)
Theorem google_docs_round_trip (id : jsstring) :
  id <> [] -> Forall (fun ch => doc_unit ch = true) id ->
  detectPlatform (transformGoogleDocsUrl id)
  = {| platform := str "google_docs"; docId := Some id |}
  /\ validateUrl (transformGoogleDocsUrl id)
     = {| valid := true; message := str "Valid google_docs URL";
          valid_platform := Some (str "google_docs");
          valid_docId := Some id |}.
Proof.
  intros Hne Hall. pose proof (transformGoogleDocsUrl_found Hne Hall) as Hd.
  split; [exact Hd|].
  rewrite validateUrl_not_blank.
  - rewrite Hd. cbv zeta. cbn [platform docId].
    destruct id; [contradiction | reflexivity].
  - intros Hblank. unfold transformGoogleDocsUrl in Hblank. simpl in Hblank.
    inversion Hblank. discriminate.
Qed.

(** X12: the raw address built for a paste is not recognised with the
    identifier it was built from: whatever the paste identifier,
    [detectPlatform] and [validateUrl] read the identifier "raw" out of
    it. *)
Theorem pastebin_raw_url_identifier (pasteId : jsstring) :
  detectPlatform (transformPastebinUrl pasteId)
  = {| platform := str "pastebin"; docId := Some (str "raw") |}
  /\ validateUrl (transformPastebinUrl pasteId)
     = {| valid := true; message := str "Valid pastebin URL";
          valid_platform := Some (str "pastebin");
          valid_docId := Some (str "raw") |}.
Proof.
  pose proof (transformPastebinUrl_found pasteId) as Hd.
  split; [exact Hd|].
  rewrite validateUrl_not_blank.
  - rewrite Hd. reflexivity.
  - intros Hblank. unfold transformPastebinUrl in Hblank. simpl in Hblank.
    inversion Hblank. discriminate.
Qed.

(** ** The proxy address and the requests *)

Lemma doc_unit_unreserved (c : N) :
  doc_unit c = true -> uri_unreserved c = true.
Proof.
  intros H.
  assert (Hb : (45 <= c)%N /\ (c <= 122)%N).
  { apply (@class_mem_within 45 122 c (alnum ++ [CChar "_"; CChar "-"]));
      [reflexivity | exact H]. }
  assert (Htable : forallb
                     (fun n => implb (doc_unit (N.of_nat n))
                                 (uri_unreserved (N.of_nat n)))
                     (seq 0 123) = true) by (vm_compute; reflexivity).
  rewrite forallb_forall in Htable.
  specialize (Htable (N.to_nat c)).
  rewrite N2Nat.id, H in Htable. apply Htable.
  apply in_seq. lia.
Qed.

(** On ASCII text [encodeURIComponent] never fails, and works code unit by
    code unit. *)
Lemma encode_ascii (a rest : jsstring) :
  Forall (fun c => (c < 128)%N) a ->
  encodeURIComponent (a ++ rest)
  = option_map (app (escape_ascii a)) (encodeURIComponent rest).
Proof.
  induction 1 as [|c a Hc Ha IH].
  - simpl. destruct (encodeURIComponent rest); reflexivity.
  - change ((c :: a) ++ rest) with (c :: (a ++ rest)).
    cbn [encodeURIComponent]. rewrite IH.
    unfold escape_ascii. cbn [flat_map].
    destruct (uri_unreserved c).
    + destruct (encodeURIComponent rest); reflexivity.
    + assert (Hlow : is_low_surrogate c = false).
      { unfold is_low_surrogate. apply andb_false_iff. left.
        apply N.leb_gt. lia. }
      assert (Hhigh : is_high_surrogate c = false).
      { unfold is_high_surrogate. apply andb_false_iff. left.
        apply N.leb_gt. lia. }
      rewrite Hlow, Hhigh. unfold utf8.
      replace (N.ltb c 128) with true by (symmetry; apply N.ltb_lt; lia).
      cbn [flat_map]. rewrite app_nil_r.
      destruct (encodeURIComponent rest); [|reflexivity].
      cbn [option_map]. rewrite <- app_assoc. reflexivity.
Qed.

Lemma escape_unreserved (a : jsstring) :
  Forall (fun ch => uri_unreserved ch = true) a -> escape_ascii a = a.
Proof.
  unfold escape_ascii. induction 1 as [|c a Hc Ha IH]; simpl; [reflexivity|].
  rewrite Hc, IH. reflexivity.
Qed.

Lemma below_128 (s : jsstring) :
  forallb (fun c => N.ltb c 128) s = true -> Forall (fun c => (c < 128)%N) s.
Proof.
  rewrite forallb_forall, Forall_forall. intros H c Hc.
  apply N.ltb_lt, H, Hc.
Qed.

Lemma encode_export_url (id : jsstring) :
  Forall (fun ch => doc_unit ch = true) id ->
  encodeURIComponent (transformGoogleDocsUrl id)
  = Some (str "https%3A%2F%2Fdocs.google.com%2Fdocument%2Fd%2F" ++ id
            ++ str "%2Fexport%3Fformat%3Dtxt").
Proof.
  intros Hall.
  assert (Hun : Forall (fun ch => uri_unreserved ch = true) id).
  { eapply Forall_impl; [|exact Hall]. apply doc_unit_unreserved. }
  assert (Hid : Forall (fun c => (c < 128)%N) id).
  { eapply Forall_impl; [|exact Hall]. intros c Hc.
    destruct (@class_mem_within 45 122 c (alnum ++ [CChar "_"; CChar "-"])
                eq_refl Hc). lia. }
  rewrite <- (app_nil_r (transformGoogleDocsUrl id)).
  rewrite encode_ascii.
  - cbn [encodeURIComponent option_map]. rewrite app_nil_r.
    unfold transformGoogleDocsUrl, escape_ascii.
    rewrite !flat_map_app. fold (escape_ascii id).
    rewrite (escape_unreserved Hun).
    reflexivity.
  - unfold transformGoogleDocsUrl.
    apply Forall_app. split; [apply below_128; vm_compute; reflexivity|].
    apply Forall_app. split; [assumption|].
    apply below_128. vm_compute. reflexivity.
Qed.

(** X13: the address asked of the proxy.  For an identifier made of
    letters, digits, underscores and hyphens, [encodeURIComponent] of the
    export address succeeds, and escapes exactly the colon, the slashes,
    the question mark and the equals sign; the identifier is left as it
    is. *)
Theorem proxy_address (id : jsstring) :
  Forall (fun ch => doc_unit ch = true) id ->
  option_map (app corsProxy) (encodeURIComponent (transformGoogleDocsUrl id))
  = Some (str "https://api.allorigins.win/raw?url=https%3A%2F%2Fdocs.google.com%2Fdocument%2Fd%2F"
            ++ id ++ str "%2Fexport%3Fformat%3Dtxt").
Proof.
  intros Hall. rewrite (encode_export_url Hall). reflexivity.
Qed.

(** What [validateUrl] hands on when it accepts. *)
Lemma validateUrl_accepts (url : jsstring) :
  valid (validateUrl url) = true ->
  exists p id,
    valid_platform (validateUrl url) = Some p
    /\ valid_docId (validateUrl url) = Some id
    /\ id <> []
    /\ ((p = str "pastebin" /\ Forall (fun ch => paste_unit ch = true) id)
        \/ (p = str "google_docs"
            /\ Forall (fun ch => doc_unit ch = true) id)).
Proof.
  intros Hv.
  destruct (validateUrl_spec url) as [_ [Hok|[Hbad|Hbad]]];
    [|rewrite Hbad in Hv; discriminate | rewrite Hbad in Hv; discriminate].
  destruct Hok as (p & id & Hval & Hd & Hne & Hp).
  exists p, id. rewrite Hval. simpl. repeat split; try assumption.
  destruct (detectPlatform_spec url)
    as [(id' & b & a & H & _ & _ & Hall & _)
       |[(id' & b & a & H & _ & _ & Hall & _)|(H & _)]];
    rewrite H in Hd; inversion Hd; subst; auto.
Qed.

Lemma validateUrl_refuses (url : jsstring) :
  valid (validateUrl url) = false ->
  valid_platform (validateUrl url) = None
  /\ valid_docId (validateUrl url) = None
  /\ (message (validateUrl url) = str "Empty URL"
      \/ message (validateUrl url)
         = str "Unsupported platform. Supported: Pastebin, Google Docs").
Proof.
  intros Hv.
  destruct (validateUrl_spec url) as [_ [Hok|[Hbad|Hbad]]].
  - destruct Hok as (p & id & Hval & _). rewrite Hval in Hv. discriminate.
  - rewrite Hbad. simpl. auto.
  - rewrite Hbad. simpl. auto.
Qed.

(** X14: [fetchContent] only ever asks the network for the addresses
    listed by [requests]: none at all for a URL that [validateUrl] refuses,
    the raw address for a paste, the export address and the proxy address
    for a document.  Two networks that answer alike at those addresses give
    the same result. *)
Theorem fetchContent_requests (url : jsstring) (fetch1 fetch2 : Fetch) :
  (valid (validateUrl url) = false -> requests url = [])
  /\ ((forall u, In u (requests url) -> fetch1 u = fetch2 u) ->
      fetchContent fetch1 url = fetchContent fetch2 url).
Proof.
  split.
  - intros Hv. destruct (validateUrl_refuses url Hv) as (Hp & _).
    unfold requests. rewrite Hp. reflexivity.
  - unfold requests, fetchContent.
    destruct (valid (validateUrl url)); cbn [negb]; [|reflexivity].
    destruct (valid_platform (validateUrl url)) as [p|]; [|reflexivity].
    destruct (valid_docId (validateUrl url)) as [id|]; [|reflexivity].
    destruct (jsstring_eqb p (str "pastebin")).
    + intros H. unfold fetchPastebin.
      rewrite (H (transformPastebinUrl id)) by (left; reflexivity).
      reflexivity.
    + destruct (jsstring_eqb p (str "google_docs")); [|reflexivity].
      intros H. unfold fetchGoogleDocs.
      rewrite (H (transformGoogleDocsUrl id)) by (left; reflexivity).
      destruct (fetched_text (fetch2 (transformGoogleDocsUrl id)));
        [reflexivity|].
      destruct (encodeURIComponent (transformGoogleDocsUrl id)) as [enc|];
        [|reflexivity].
      rewrite (H (corsProxy ++ enc)) by (right; left; reflexivity).
      reflexivity.
Qed.

(** The shape of a report: success with content and a method, or failure
    with an error message. *)
Lemma fetchContent_report (fetch : Fetch) (url : jsstring) :
  exists report,
    fetchContent fetch url = Ret report
    /\ ((success report = true
         /\ (exists text, content report = Some text)
         /\ error report = None
         /\ (method report = Some (str "direct")
             \/ method report = Some (str "proxy")))
        \/ (success report = false
            /\ content report = None
            /\ method report = None
            /\ exists e, error report = Some e)).
Proof.
  unfold fetchContent.
  destruct (valid (validateUrl url)) eqn:Hv; cbn [negb].
  2:{ eexists. split; [reflexivity|]. right. cbn. eauto. }
  destruct (validateUrl_accepts url Hv) as (p & id & -> & -> & Hne & Hp).
  destruct Hp as [[-> Hall]|[-> Hall]].
  - cbn [jsstring_eqb str N.eqb andb]. eexists. split; [reflexivity|].
    unfold fetchPastebin.
    destruct (fetch (transformPastebinUrl id)) as [msg|ok status body].
    + right. simpl. eauto.
    + destruct ok; simpl; [|right; simpl; eauto].
      destruct body; [left | right]; simpl; eauto 6.
  - replace (jsstring_eqb (str "google_docs") (str "pastebin")) with false
      by reflexivity.
    replace (jsstring_eqb (str "google_docs") (str "google_docs")) with true
      by reflexivity.
    unfold fetchGoogleDocs.
    destruct (fetched_text (fetch (transformGoogleDocsUrl id))).
    + eexists. split; [reflexivity|]. left. simpl. eauto 6.
    + rewrite (encode_export_url Hall).
      destruct (fetched_text (fetch _)).
      * eexists. split; [reflexivity|]. left. simpl. eauto 6.
      * eexists. split; [reflexivity|]. right. simpl. eauto.
Qed.

(** X15: [fetchContent] always returns a report, it never throws, whatever
    the network does; a report is either a success, with the content, no
    error message and the method direct or proxy, or a failure, with no
    content, no method and an error message. *)
Theorem fetchContent_reports (fetch : Fetch) (url : jsstring) :
  exists report,
    fetchContent fetch url = Ret report
    /\ ((success report = true
         /\ (exists text, content report = Some text)
         /\ error report = None
         /\ (method report = Some (str "direct")
             \/ method report = Some (str "proxy")))
        \/ (success report = false
            /\ content report = None
            /\ method report = None
            /\ exists e, error report = Some e)).
Proof. exact (fetchContent_report fetch url). Qed.

(** * Properties of the page logic *)

(** ** The detector never throws on the catalog *)

Lemma scan_not_Throw (pattern : regex) (text : jsstring) (fuel : nat) :
  forall lastIndex matches,
    scan fuel pattern text lastIndex matches <> Throw.
Proof.
  induction fuel as [|fuel IH]; intros lastIndex matches; cbn [scan];
    [discriminate|].
  destruct (exec text pattern lastIndex) as [[index e]|];
    [apply IH | discriminate].
Qed.

Lemma detect_not_Throw (fuel : nat) (text c : jsstring) :
  In c (keys patterns) -> detect fuel text c <> Throw.
Proof.
  intros Hc. destruct (keys_of_patterns Hc) as (pattern & l & Hp & _).
  unfold detect, get_property. rewrite Hp.
  destruct (scan fuel pattern text 0 []) as [raw| |] eqn:E; unfold bind.
  - destruct (jsstring_eqb c (str "phone")); [discriminate|].
    destruct (jsstring_eqb c (str "name")); discriminate.
  - exfalso. exact (scan_not_Throw _ _ _ _ _ E).
  - discriminate.
Qed.

Lemma keys_obj_set (A : Type) (o : object A) (c k : jsstring) (v : A) :
  In k (keys (obj_set o c v)) -> In k (keys o) \/ k = c.
Proof.
  induction o as [|[k' v'] o IH]; simpl.
  - intros [<-|[]]. auto.
  - destruct (jsstring_eqb c k'); simpl; [tauto|].
    intros [H|H]; [auto|]. destruct (IH H); auto.
Qed.

Lemma detectAll_loop_keys (fuel : nat) (text : jsstring)
  (piiTypes : list jsstring) :
  (forall c, In c piiTypes -> In c (keys patterns)) ->
  forall results,
    detectAll_loop fuel text piiTypes results <> Throw
    /\ forall out,
         detectAll_loop fuel text piiTypes results = Ret out ->
         forall k, In k (keys out) -> In k (keys results) \/ In k piiTypes.
Proof.
  induction piiTypes as [|c rest IH]; intros Hin results;
    cbn [detectAll_loop].
  - split; [discriminate|]. intros out H. injection H as <-. auto.
  - destruct (detect fuel text c) as [ms| |] eqn:E; unfold bind.
    + destruct (IH (fun c' H => Hin c' (or_intror H))
                  (obj_set results c ms)) as [Hnt Hk].
      split; [exact Hnt|]. intros out Hout k Hkin.
      destruct (Hk out Hout k Hkin) as [H|H]; [|simpl; auto].
      destruct (keys_obj_set _ _ _ _ H) as [H'|H']; [auto|].
      subst k. simpl; auto.
    + exfalso. exact (@detect_not_Throw fuel text c
                        (Hin c (or_introl eq_refl)) E).
    + split; discriminate.
Qed.

Lemma detectAll_not_Throw (fuel : nat) (text : jsstring) :
  detectAll fuel text <> Throw.
Proof.
  apply (@detectAll_loop_keys fuel text (keys patterns) (fun c H => H) []).
Qed.

Lemma detectAll_keys_within (fuel : nat) (text : jsstring)
  (results : object (list Match)) :
  detectAll fuel text = Ret results ->
  forall k, In k (keys results) -> In k (keys patterns).
Proof.
  intros H k Hk.
  destruct (@detectAll_loop_keys fuel text (keys patterns) (fun c H => H) [])
    as [_ Hkeys].
  destruct (Hkeys results H k Hk) as [[]|H']. exact H'.
Qed.

(** Once [detectAll] has returned, [anonymize] returns too. *)
Lemma anonymize_returns (fuel : nat) (text : jsstring)
  (results : object (list Match)) :
  detectAll fuel text = Ret results ->
  anonymize fuel text
  = Ret (fold_left redact (Array_sort by_start_desc (retained results)) text).
Proof.
  intros H. unfold anonymize. rewrite H. unfold bind.
  rewrite collect_retained. apply replace_all_fold. intros m Hm.
  apply (detectAll_keys_within _ _ H). apply retained_type.
  exact (Permutation_in _ (Array_sort_Permutation by_start_desc _) Hm).
Qed.

Lemma anonymize_not_Throw (fuel : nat) (text : jsstring) :
  anonymize fuel text <> Throw.
Proof.
  destruct (detectAll fuel text) as [results| |] eqn:E.
  - rewrite (anonymize_returns _ _ E). discriminate.
  - exfalso. exact (detectAll_not_Throw _ _ E).
  - unfold anonymize. rewrite E. discriminate.
Qed.

(** ** The summary figures *)

Lemma sum_counts_cons (c : jsstring) (values : list jsstring)
  (o : object (list jsstring)) :
  sum_counts ((c, values) :: o) = length values + sum_counts o.
Proof. reflexivity. Qed.

Lemma with_values_cons (c : jsstring) (values : list jsstring)
  (o : object (list jsstring)) :
  with_values ((c, values) :: o)
  = if Nat.ltb 0 (length values) then (c, values) :: with_values o
    else with_values o.
Proof. reflexivity. Qed.

Lemma totals_counts (o : object (list jsstring)) :
  totals o = (sum_counts o, length (with_values o)).
Proof.
  unfold totals.
  match goal with |- fold_left ?F _ _ = _ => set (f := F) end.
  assert (H : forall total types,
             fold_left f o (total, types)
             = (total + sum_counts o, types + length (with_values o))).
  { induction o as [|[c values] o IH]; intros total types.
    - unfold sum_counts. simpl. f_equal; lia.
    - cbn [fold_left]. unfold f at 2. cbv zeta.
      rewrite sum_counts_cons, with_values_cons.
      destruct (Nat.ltb 0 (length values)) eqn:E.
      + rewrite IH. cbn [length]. f_equal; lia.
      + apply Nat.ltb_ge in E. rewrite IH. f_equal; lia. }
  exact (H 0 0).
Qed.

Lemma with_values_counts (o : object (list jsstring)) :
  length (with_values o) <= sum_counts o
  /\ (length (with_values o) = 0 <-> sum_counts o = 0)
  /\ length (with_values o) <= length o.
Proof.
  induction o as [|[c values] o (IH1 & IH2 & IH3)].
  - unfold sum_counts. simpl. repeat split; lia.
  - rewrite sum_counts_cons, with_values_cons.
    destruct (Nat.ltb 0 (length values)) eqn:E; cbn [length].
    + apply Nat.ltb_lt in E. repeat split; lia.
    + apply Nat.ltb_ge in E. repeat split; lia.
Qed.

(** ** The breakdown *)

Lemma breakdown_items (o : object (list jsstring)) :
  displayPIIBreakdown o
  = match with_values o with
    | [] => Message no_pii_message
    | _ =>
        Items (map (fun '(c, values) =>
                      {| title := item_title c (length values);
                         tags := value_tags values |})
                 (with_values o))
    end.
Proof.
  unfold displayPIIBreakdown. cbv zeta.
  match goal with |- context [fold_left ?F _ _] => set (f := F) end.
  assert (H : forall acc,
             fold_left f o acc
             = acc ++ map (fun '(c, values) =>
                             {| title := item_title c (length values);
                                tags := value_tags values |})
                        (with_values o)).
  { induction o as [|[c values] o IH]; intros acc.
    - simpl. rewrite app_nil_r. reflexivity.
    - cbn [fold_left]. unfold f at 2.
      rewrite with_values_cons.
      destruct (length values) as [|n] eqn:E.
      + cbn [Nat.eqb Nat.ltb Nat.leb]. apply IH.
      + cbn [Nat.eqb Nat.ltb Nat.leb]. rewrite IH. cbn [map].
        rewrite <- app_assoc, E. reflexivity. }
  rewrite (H []). cbn [app].
  destruct (with_values o) as [|[c values] rest]; reflexivity.
Qed.

(** ** The recommendations *)

Lemma has_values_count (o : object (list jsstring)) (name : string) :
  has_values o name = Nat.ltb 0 (count_of o name).
Proof.
  unfold has_values, count_of.
  destruct (obj_get o (str name)); reflexivity.
Qed.

Lemma recommendations_length (o : object (list jsstring)) (total : nat) :
  total <> 0 ->
  4 <= length (displayRecommendations o total) <= 8.
Proof.
  intros H. unfold displayRecommendations.
  destruct (Nat.eqb_spec total 0) as [E|_]; [contradiction|].
  rewrite !length_app.
  destruct (has_values o "email"), (has_values o "phone"),
    (has_values o "ssn"), (has_values o "credit_card");
    cbn [length]; lia.
Qed.

(** ** The preview *)

Lemma preview_of_length (anonymized : jsstring) :
  length (preview_of anonymized) <= 1025
  /\ (length anonymized <= 1000 -> preview_of anonymized = anonymized)
  /\ (1000 < length anonymized ->
      preview_of anonymized
      = firstn 1000 anonymized ++ [10%N; 10%N]
          ++ str "... (content truncated)").
Proof.
  unfold preview_of.
  destruct (Nat.ltb 1000 (length anonymized)) eqn:E.
  - apply Nat.ltb_lt in E. split; [|split].
    + rewrite length_app, length_firstn.
      change (length ([10%N; 10%N] ++ str "... (content truncated)"))
        with 25. lia.
    + lia.
    + reflexivity.
  - apply Nat.ltb_ge in E. split; [|split].
    + rewrite app_nil_r, length_firstn. lia.
    + intros _. rewrite app_nil_r. apply firstn_all2. assumption.
    + lia.
Qed.

Lemma displayContentPreview_of (fuel : nat) (content : jsstring) :
  displayContentPreview fuel content
  = match anonymize fuel content with
    | Ret anonymized => Ret (preview_of anonymized)
    | Throw => Throw
    | Timeout => Timeout
    end.
Proof.
  unfold displayContentPreview, bind.
  destruct (anonymize fuel content) as [a| |]; [|reflexivity..].
  rewrite substring_prefix. reflexivity.
Qed.

(** ** The page *)

(** The risk level and the class of the risk card for a total. *)
Lemma displayResults_fields (fuel : nat) (piiResults : object (list jsstring))
  (content : jsstring) :
  match displayResults fuel piiResults content with
  | Ret page =>
      exists anonymized,
        anonymize fuel content = Ret anonymized
        /\ total_pii page = sum_counts piiResults
        /\ pii_types page = length (with_values piiResults)
        /\ (risk_level page, risk_card_class page)
           = (if Nat.ltb 20 (sum_counts piiResults) then
                (str "HIGH", str "stat-card risk-level risk-high")
              else if Nat.ltb 5 (sum_counts piiResults) then
                (str "MEDIUM", str "stat-card risk-level risk-medium")
              else (str "LOW", str "stat-card risk-level "))
        /\ pii_details page = displayPIIBreakdown piiResults
        /\ content_display page = preview_of anonymized
        /\ recommendations_list page
           = displayRecommendations piiResults (sum_counts piiResults)
  | Throw => False
  | Timeout => anonymize fuel content = Timeout
  end.
Proof.
  unfold displayResults. rewrite totals_counts.
  rewrite displayContentPreview_of.
  destruct (anonymize fuel content) as [a| |] eqn:E.
  - destruct (Nat.ltb 20 (sum_counts piiResults));
      [|destruct (Nat.ltb 5 (sum_counts piiResults))];
      unfold bind; exists a; repeat split; reflexivity.
  - exfalso. exact (anonymize_not_Throw _ _ E).
  - destruct (Nat.ltb 20 (sum_counts piiResults));
      [|destruct (Nat.ltb 5 (sum_counts piiResults))]; reflexivity.
Qed.

Lemma keys_nothing :
  keys (map (fun c : jsstring => (c, @nil Match)) (keys patterns))
  = keys patterns.
Proof. reflexivity. Qed.

(** ** What the page shows *)

(** X16: the parts of the page written by [displayResults] agree with one
    another.  The number of categories shown is at most the total and at
    most the number of categories given; both figures are zero together;
    the breakdown holds the message that nothing was found exactly when the
    total is zero, and otherwise one item per category counted; the single
    recommendation that the document is safe is given exactly when the
    total is zero; the risk level is LOW up to five values and HIGH above
    twenty. *)
Theorem page_is_consistent (fuel : nat) (piiResults : object (list jsstring))
  (content : jsstring) (page : Page) :
  displayResults fuel piiResults content = Ret page ->
  pii_types page <= total_pii page
  /\ pii_types page <= length piiResults
  /\ (pii_types page = 0 <-> total_pii page = 0)
  /\ (total_pii page = 0 <-> pii_details page = Message no_pii_message)
  /\ (forall items,
        pii_details page = Items items -> length items = pii_types page)
  /\ (total_pii page = 0
      <-> recommendations_list page
          = [ str "No PII detected. This document appears safe for public sharing." ])
  /\ (total_pii page <= 5 <-> risk_level page = str "LOW")
  /\ (20 < total_pii page <-> risk_level page = str "HIGH").
Proof.
  intros H. pose proof (displayResults_fields fuel piiResults content) as F.
  rewrite H in F.
  destruct F as (a & _ & Ht & Hn & Hrisk & Hd & _ & Hr).
  destruct (with_values_counts piiResults) as (Hle & Hzero & Hlen).
  rewrite Ht, Hn, Hd, Hr, breakdown_items.
  split; [exact Hle|]. split; [exact Hlen|]. split; [exact Hzero|].
  split; [|split; [|split; [|split]]].
  - rewrite <- Hzero.
    destruct (with_values piiResults) as [|x rest]; simpl; split;
      try reflexivity; discriminate.
  - intros items.
    destruct (with_values piiResults) as [|x rest]; [discriminate|].
    intros Hi. injection Hi as <-. cbn [map length].
    rewrite length_map. reflexivity.
  - split.
    + intros E. rewrite E. reflexivity.
    + intros E. destruct (Nat.eq_dec (sum_counts piiResults) 0) as [|Hne];
        [assumption|].
      pose proof (recommendations_length piiResults Hne) as Hl.
      rewrite E in Hl. simpl in Hl. lia.
  - destruct (Nat.ltb 20 (sum_counts piiResults)) eqn:E20;
      [|destruct (Nat.ltb 5 (sum_counts piiResults)) eqn:E5];
      injection Hrisk as -> _.
    + apply Nat.ltb_lt in E20. split; [lia | discriminate].
    + apply Nat.ltb_lt in E5. split; [lia | discriminate].
    + apply Nat.ltb_ge in E5. split; [reflexivity | intros _; exact E5].
  - destruct (Nat.ltb 20 (sum_counts piiResults)) eqn:E20;
      [|destruct (Nat.ltb 5 (sum_counts piiResults)) eqn:E5];
      injection Hrisk as -> _.
    + apply Nat.ltb_lt in E20. split; [reflexivity | intros _; exact E20].
    + apply Nat.ltb_ge in E20. split; [lia | discriminate].
    + apply Nat.ltb_ge in E20. split; [lia | discriminate].
Qed.

(** X17: the recommendations depend on the results only through whether the
    total is zero, the numbers of email addresses and phone numbers, and
    whether there is a social security number and a credit card number:
    names and street addresses, and the number of the critical values,
    change nothing.  With a total above zero there are between four and
    eight recommendations. *)
Theorem recommendations_depend_on (r1 r2 : object (list jsstring))
  (total1 total2 : nat) :
  (total1 = 0 <-> total2 = 0) ->
  count_of r1 "email" = count_of r2 "email" ->
  count_of r1 "phone" = count_of r2 "phone" ->
  has_values r1 "ssn" = has_values r2 "ssn" ->
  has_values r1 "credit_card" = has_values r2 "credit_card" ->
  displayRecommendations r1 total1 = displayRecommendations r2 total2
  /\ (total1 <> 0 -> 4 <= length (displayRecommendations r1 total1) <= 8).
Proof.
  intros H0 He Hp Hs Hc. split; [|apply recommendations_length].
  unfold displayRecommendations.
  rewrite !has_values_count, He, Hp, <- !has_values_count, Hs, Hc.
  destruct (Nat.eqb_spec total1 0) as [E1|E1],
    (Nat.eqb_spec total2 0) as [E2|E2]; try reflexivity; tauto.
Qed.

(** X18: the preview shows the redacted document, cut after 1000 code
    units: it is the redacted document itself when that has at most 1000
    code units, and otherwise its first 1000 code units, two line feeds and
    the notice; it never has more than 1025 code units. *)
Theorem preview_is_bounded (fuel : nat) (content text : jsstring) :
  displayContentPreview fuel content = Ret text ->
  exists anonymized,
    anonymize fuel content = Ret anonymized
    /\ length text <= 1025
    /\ firstn 1000 text = firstn 1000 anonymized
    /\ (length anonymized <= 1000 -> text = anonymized)
    /\ (1000 < length anonymized ->
        text = firstn 1000 anonymized ++ [10%N; 10%N]
                 ++ str "... (content truncated)").
Proof.
  rewrite displayContentPreview_of.
  destruct (anonymize fuel content) as [a| |]; [|discriminate..].
  intros H. injection H as <-. exists a.
  destruct (preview_of_length a) as (Hlen & Hshort & Hlong).
  split; [reflexivity|]. split; [exact Hlen|]. split; [|split; assumption].
  destruct (Nat.le_gt_cases (length a) 1000) as [Hle|Hgt].
  - rewrite (Hshort Hle). reflexivity.
  - rewrite (Hlong Hgt), firstn_app, length_firstn, firstn_firstn.
    rewrite Nat.min_id, (Nat.min_l 1000) by lia.
    rewrite Nat.sub_diag. cbn [firstn]. apply app_nil_r.
Qed.

(** ** [handleAnalyze] *)

Lemma trimStart_head (s : jsstring) (c : N) (rest : jsstring) :
  trimStart s = c :: rest -> is_space c = false.
Proof.
  induction s as [|x s IH]; simpl; [discriminate|].
  destruct (is_space x) eqn:E; [exact IH|].
  intros H. injection H as <- _. exact E.
Qed.

(** What [trim] leaves is not all white space. *)
Lemma trim_not_blank (s : jsstring) :
  trim s <> [] -> ~ Forall (fun c => is_space c = true) (trim s).
Proof.
  unfold trim.
  destruct (trimStart (rev (trimStart s))) as [|c rest] eqn:E;
    [intros H; contradiction H; reflexivity|].
  intros _ Hall. apply trimStart_head in E.
  rewrite Forall_forall in Hall.
  specialize (Hall c). rewrite Hall in E; [discriminate|].
  apply in_rev. rewrite rev_involutive. left. reflexivity.
Qed.

Lemma fetchContent_empty (fetch : Fetch) :
  fetchContent fetch []
  = Ret {| success := false; content := None; report_platform := None;
           method := None; error := Some (str "Empty URL") |}.
Proof. reflexivity. Qed.

(** [handleAnalyze] once the content has arrived. *)
Lemma handleAnalyze_fetched (fuel : nat) (fetch : Fetch)
  (urlInput : jsstring) (report : FetchReport) (text : jsstring) :
  fetchContent fetch (trim urlInput) = Ret report ->
  content report = Some text ->
  handleAnalyze fuel fetch urlInput
  = match (piiResults <- getUniqueValues fuel text ;;
           displayResults fuel piiResults text) with
    | Ret page => Ret (Results page)
    | Throw => Ret AlertRuntimeError
    | Timeout => Timeout
    end.
Proof.
  intros Hr Hc. unfold handleAnalyze. cbv zeta.
  destruct (trim urlInput) as [|c url].
  - rewrite fetchContent_empty in Hr. injection Hr as <-. discriminate.
  - rewrite Hr.
    destruct (fetchContent_report fetch (c :: url)) as (report' & Hr' & Hcases).
    rewrite Hr in Hr'. injection Hr' as <-.
    destruct Hcases as [(Hs & _)|(_ & Hnone & _)];
      [|rewrite Hnone in Hc; discriminate].
    rewrite Hs. cbn [negb]. rewrite Hc. reflexivity.
Qed.

Lemma getUniqueValues_of (fuel : nat) (text : jsstring)
  (results : object (list Match)) :
  detectAll fuel text = Ret results ->
  NoDup (keys results) ->
  getUniqueValues fuel text = Ret (unique_of results).
Proof.
  intros H Hnd. unfold getUniqueValues. rewrite H. unfold bind.
  rewrite (@for_in_set _ _ (fun ms => Set_of (map value ms)) results Hnd []);
    reflexivity.
Qed.

Lemma getLabel_catalog (c : jsstring) :
  In c (keys patterns) -> getLabel c = LabelString (label c).
Proof.
  unfold keys, patterns. simpl.
  intros [<-|[<-|[<-|[<-|[<-|[<-|[]]]]]]]; reflexivity.
Qed.

Lemma items_of_breakdown (A : Type) (f : A -> Item) (w : list A)
  (items : list Item) :
  match w with
  | [] => Message no_pii_message
  | _ :: _ => Items (map f w)
  end = Items items ->
  items = map f w.
Proof.
  destruct w as [|x rest]; [discriminate|].
  intros H. injection H as <-. reflexivity.
Qed.

(** X19: what [handleAnalyze] can end in, whatever the URL field holds and
    whatever the network does, the elements of the page being there.  The
    code between fetching and showing never throws: an alert is either the
    request to enter a URL, for a field that is blank, or the word Error
    with a message that is not empty, after a fetch that failed.  The scan
    loops run out of budget only when the budget is at most the length of
    the fetched text. *)
Theorem handleAnalyze_outcomes (fuel : nat) (fetch : Fetch)
  (urlInput : jsstring) :
  match handleAnalyze fuel fetch urlInput with
  | Ret (Alert m) =>
      (m = str "Please enter a URL"
       /\ Forall (fun c => is_space c = true) urlInput)
      \/ (exists report e,
            fetchContent fetch (trim urlInput) = Ret report
            /\ success report = false
            /\ e <> []
            /\ m = str "Error: " ++ e)
  | Ret AlertRuntimeError => False
  | Ret (Results page) =>
      exists report text,
        fetchContent fetch (trim urlInput) = Ret report
        /\ success report = true
        /\ content report = Some text
  | Throw => False
  | Timeout =>
      exists report text,
        fetchContent fetch (trim urlInput) = Ret report
        /\ content report = Some text
        /\ fuel <= length text
  end.
Proof.
  destruct (trim urlInput) as [|c url] eqn:Et.
  { unfold handleAnalyze. rewrite Et. left. split; [reflexivity|].
    apply trim_nil. exact Et. }
  destruct (fetchContent_report fetch (c :: url)) as (report & Hr & Hcases).
  destruct Hcases as [(Hs & (text & Hc) & _)|(Hs & _ & _ & e & He)].
  - rewrite <- Et in Hr.
    rewrite (handleAnalyze_fetched fuel _ _ Hr Hc). rewrite Et in Hr.
    unfold getUniqueValues.
    destruct (detectAll fuel text) as [results| |] eqn:Ed; unfold bind.
    + match goal with
      | |- context [displayResults fuel ?u text] =>
          pose proof (displayResults_fields fuel u text) as F;
          destruct (displayResults fuel u text) as [page| |]
      end.
      * exists report, text. auto.
      * exact F.
      * rewrite (anonymize_returns _ _ Ed) in F. discriminate.
    + exact (detectAll_not_Throw _ _ Ed).
    + exists report, text. split; [exact Hr|]. split; [exact Hc|].
      destruct (Nat.le_gt_cases fuel (length text)) as [Hle|Hgt];
        [exact Hle|].
      destruct (detectAll_total text) as (results & Hrun & _).
      rewrite (Hrun _ Hgt) in Ed. discriminate.
  - unfold handleAnalyze. rewrite Et. cbv zeta. rewrite Hr, Hs. cbn [negb].
    rewrite He. right. exists report.
    destruct e as [|x e].
    + exists (str "Failed to fetch content"). repeat split; auto.
      discriminate.
    + exists (x :: e). repeat split; auto. discriminate.
Qed.

(** X20: [handleAnalyze] answers a blank URL field and a URL of no known
    platform without asking the network: the alerts are the same for every
    network.  The message of [validateUrl] for an empty URL is never
    shown. *)
Theorem handleAnalyze_refusals (fuel : nat) (fetch : Fetch)
  (urlInput : jsstring) :
  (Forall (fun c => is_space c = true) urlInput ->
   handleAnalyze fuel fetch urlInput = Ret (Alert (str "Please enter a URL")))
  /\ (~ Forall (fun c => is_space c = true) urlInput ->
      platform (detectPlatform (trim urlInput)) = str "unknown" ->
      handleAnalyze fuel fetch urlInput
      = Ret (Alert (str "Error: Unsupported platform. Supported: Pastebin, Google Docs"))).
Proof.
  split.
  - intros H. apply trim_nil in H. unfold handleAnalyze. rewrite H.
    reflexivity.
  - intros Hnb Hp.
    assert (Hne : trim urlInput <> [])
      by (intros E; apply Hnb, trim_nil, E).
    pose proof (@trim_not_blank urlInput Hne) as Hnb'.
    assert (Hv : validateUrl (trim urlInput)
                 = invalid (str "Unsupported platform. Supported: Pastebin, Google Docs")).
    { rewrite (@validateUrl_not_blank (trim urlInput) Hnb'). cbv zeta. rewrite Hp.
      reflexivity. }
    unfold handleAnalyze. cbv zeta.
    destruct (trim urlInput) as [|c url]; [contradiction Hne; reflexivity|].
    unfold fetchContent. rewrite Hv. reflexivity.
Qed.

(** X21: when the content arrives and the budget of the scan loops is above
    its length, [handleAnalyze] shows the results: the total is the number
    of unique values over all categories of [detectAll], at most six
    categories are counted, the preview is cut from the result of
    [anonymize], and the breakdown has, for each category with values, in
    catalog order, the heading made of the label of the catalog and the
    number of unique values, and the tags of these values. *)
Theorem analysis_page (fuel : nat) (fetch : Fetch) (urlInput : jsstring)
  (report : FetchReport) (text : jsstring) :
  fetchContent fetch (trim urlInput) = Ret report ->
  content report = Some text ->
  length text < fuel ->
  exists results anonymized page,
    detectAll fuel text = Ret results
    /\ anonymize fuel text = Ret anonymized
    /\ handleAnalyze fuel fetch urlInput = Ret (Results page)
    /\ total_pii page = sum_counts (unique_of results)
    /\ pii_types page = length (with_values (unique_of results))
    /\ pii_types page <= 6
    /\ content_display page = preview_of anonymized
    /\ forall items,
         pii_details page = Items items ->
         items
         = map (fun '(c, values) =>
                  {| title := Some (label c ++ str " ("
                                      ++ Number_toString (length values)
                                      ++ str " found)");
                     tags := value_tags values |})
             (with_values (unique_of results)).
Proof.
  intros Hr Hc Hf.
  destruct (detectAll_total text) as (results & Hrun & Hkeys & _).
  assert (Hnd : NoDup (keys results))
    by (rewrite Hkeys; apply keys_patterns_NoDup).
  pose proof (Hrun _ Hf) as Hd.
  rewrite (handleAnalyze_fetched fuel _ _ Hr Hc).
  rewrite (@getUniqueValues_of fuel text results Hd Hnd). unfold bind.
  pose proof (displayResults_fields fuel (unique_of results) text) as F.
  rewrite (anonymize_returns _ _ Hd) in F.
  destruct (displayResults fuel (unique_of results) text) as [page| |];
    [|contradiction | discriminate].
  destruct F as (a & Ha & Ht & Hn & _ & Hdet & Hprev & _).
  exists results, a, page.
  split; [exact Hd|]. split; [rewrite (anonymize_returns _ _ Hd); exact Ha|].
  split; [reflexivity|]. split; [exact Ht|]. split; [exact Hn|].
  split; [|split; [exact Hprev|]].
  - rewrite Hn.
    destruct (with_values_counts (unique_of results)) as (_ & _ & Hl).
    unfold unique_of, map_values in Hl. rewrite length_map in Hl.
    rewrite <- (length_map fst results) in Hl. fold (keys results) in Hl.
    rewrite Hkeys in Hl. exact Hl.
  - intros items Hi. rewrite Hdet, breakdown_items in Hi.
    apply items_of_breakdown in Hi. rewrite Hi. apply map_ext_in.
    intros [c values] Hin. f_equal. unfold item_title.
    rewrite getLabel_catalog; [reflexivity|].
    rewrite <- Hkeys, <- (keys_map_values (fun ms => Set_of (map value ms))).
    fold (unique_of results).
    unfold with_values in Hin. apply filter_In in Hin.
    apply in_map_iff. exists (c, values). split; [reflexivity | tauto].
Qed.

(** X22: a fetched text without decimal digits, at signs and capital
    letters A-Z gives the page of a clean document: both figures zero, risk
    LOW, the message that nothing was found, the text itself in the
    preview, cut after 1000 code units, and the one recommendation that the
    document is safe. *)
Theorem plain_document_page (fuel : nat) (fetch : Fetch)
  (urlInput : jsstring) (report : FetchReport) (text : jsstring) :
  fetchContent fetch (trim urlInput) = Ret report ->
  content report = Some text ->
  length text < fuel ->
  (forall ch, In ch text ->
     is_digit ch = false /\ ch <> code "@" /\ ((ch < 65)%N \/ (90 < ch)%N)) ->
  handleAnalyze fuel fetch urlInput
  = Ret (Results
           {| total_pii := 0;
              pii_types := 0;
              risk_level := str "LOW";
              risk_card_class := str "stat-card risk-level ";
              pii_details := Message no_pii_message;
              content_display := preview_of text;
              recommendations_list :=
                [ str "No PII detected. This document appears safe for public sharing." ] |}).
Proof.
  intros Hr Hc Hf Hplain.
  destruct (plain_text_nothing text Hf Hplain) as [Hd Ha].
  rewrite (handleAnalyze_fetched fuel _ _ Hr Hc).
  rewrite (@getUniqueValues_of fuel text _ Hd)
    by (rewrite keys_nothing; apply keys_patterns_NoDup).
  unfold bind, displayResults.
  rewrite displayContentPreview_of, Ha. reflexivity.
Qed.

(** * The scenarios of the specification, run on the model *)

(** Scenario A. *)
Example scenario_email :
  anonymize 40 (str "Contact: alice.j@example.com")
  = Ret (str "Contact: [EMAIL ADDRESSES]").
Proof. vm_compute. reflexivity. Qed.

(** Scenario B: a phone number is kept, a date-shaped one is dropped. *)
Example scenario_phone :
  detect 40 (str "Call 555-123-4567 or 012-031-4567") (str "phone")
  = Ret [ {| value := str "555-123-4567"; start := 5; end_ := 17 |} ].
Proof. vm_compute. reflexivity. Qed.

(** Scenario C. *)
Example scenario_counts :
  getSummary 60 (str "SSN: 123-45-6789, Card: 4111-1111-1111-1111")
  = Ret [ (str "email", 0); (str "phone", 0); (str "name", 0);
          (str "address", 0); (str "ssn", 1); (str "credit_card", 1) ].
Proof. vm_compute. reflexivity. Qed.

(** Scenario E. *)
Example scenario_empty :
  anonymize 1 [] = Ret []
  /\ getSummary 1 []
     = Ret [ (str "email", 0); (str "phone", 0); (str "name", 0);
             (str "address", 0); (str "ssn", 0); (str "credit_card", 0) ].
Proof. split; vm_compute; reflexivity. Qed.

(** Matches of two categories that overlap are both replaced at their
    original offsets, and the second replacement eats into the text after
    the first. *)
Example overlap_corrupts :
  anonymize 40 (str "at 123 Main Street, call")
  = Ret (str "at [STREET ADDRESSES]ll").
Proof. vm_compute. reflexivity. Qed.

(** Two matches that start at the same offset: the result depends on which
    is replaced first, and the runtime replaces them in collection order. *)
Example equal_starts_in_collection_order :
  anonymize 40 (str "1234 5678 9012 3456 St")
  = Ret (str "[CREDIT CARD NUMBERS]")
  /\ fold_left redact
       [ {| base := {| value := str "1234 5678 9012 3456";
                       start := 0; end_ := 19 |};
            type := str "credit_card" |};
         {| base := {| value := str "1234 5678 9012 3456 St";
                       start := 0; end_ := 22 |};
            type := str "address" |} ]
       (str "1234 5678 9012 3456 St")
     = str "[STREET ADDRESSES]St".
Proof. split; vm_compute; reflexivity. Qed.

(** * Instances *)

Lemma anonymize_is_fold_witness :
  length sample < 80
  /\ exists results,
       detectAll 80 sample = Ret results
       /\ (exists L, Permutation L (retained results)
                     /\ descending start_of L
                     /\ stable_rearrangement start_of (retained results) L)
       /\ forall L,
            descending start_of L ->
            stable_rearrangement start_of (retained results) L ->
            anonymize 80 sample = Ret (fold_left redact L sample).
Proof.
  assert (H : length sample < 80) by (vm_compute; lia).
  split; [exact H | exact (anonymize_is_fold sample H)].
Defined.

Lemma detectAll_spans_witness :
  length sample < 80
  /\ exists results,
       detectAll 80 sample = Ret results
       /\ forall c, In c (keys patterns) ->
            exists ms,
              obj_get results c = Some ms
              /\ forall m, In m ms ->
                   0 <= start m /\ start m < end_ m
                   /\ end_ m <= length sample
                   /\ firstn (end_ m - start m) (skipn (start m) sample)
                      = value m.
Proof.
  assert (H : length sample < 80) by (vm_compute; lia).
  split; [exact H | exact (detectAll_spans sample H)].
Defined.

Lemma detectAll_in_order_witness :
  length sample < 80
  /\ exists results,
       detectAll 80 sample = Ret results
       /\ forall c, In c (keys patterns) ->
            exists ms,
              obj_get results c = Some ms
              /\ StronglySorted
                   (fun a b => start a < start b /\ end_ a <= start b) ms.
Proof.
  assert (H : length sample < 80) by (vm_compute; lia).
  split; [exact H | exact (detectAll_in_order sample H)].
Defined.

Lemma getSummary_counts_witness :
  length sample < 80
  /\ exists results summary,
       detectAll 80 sample = Ret results
       /\ getSummary 80 sample = Ret summary
       /\ keys summary = keys patterns
       /\ (forall c, In c (keys patterns) ->
             exists ms, obj_get results c = Some ms
                        /\ obj_get summary c = Some (length ms))
       /\ (forall c, obj_get results c = Some [] ->
             obj_get summary c = Some 0).
Proof.
  assert (H : length sample < 80) by (vm_compute; lia).
  split; [exact H | exact (getSummary_counts sample H)].
Defined.

Lemma getUniqueValues_distinct_witness :
  length sample < 80
  /\ exists results unique,
       detectAll 80 sample = Ret results
       /\ getUniqueValues 80 sample = Ret unique
       /\ keys unique = keys patterns
       /\ forall c, In c (keys patterns) ->
            exists ms u,
              obj_get results c = Some ms
              /\ obj_get unique c = Some u
              /\ NoDup u
              /\ (forall v, In v u <-> In v (map value ms))
              /\ StronglySorted lt
                   (map (fun v => first_index v (map value ms)) u).
Proof.
  assert (H : length sample < 80) by (vm_compute; lia).
  split; [exact H | exact (getUniqueValues_distinct sample H)].
Defined.

Lemma scan_terminates_witness :
  obj_get patterns (str "ssn") = Some ssn_pattern
  /\ (forall D lastIndex index e,
        exec D ssn_pattern lastIndex = Some (index, e) ->
        lastIndex <= index /\ index < e /\ e <= length D)
  /\ (forall D, exists raw,
        (forall fuel, length D < fuel ->
           scan fuel ssn_pattern D 0 [] = Ret raw)
        /\ length raw <= length D).
Proof.
  assert (H : obj_get patterns (str "ssn") = Some ssn_pattern)
    by reflexivity.
  split; [exact H | exact (scan_terminates (str "ssn") H)].
Defined.

Lemma phone_filter_discards_dates_witness :
  phone_keep {| value := str "012-031-4567"; start := 0; end_ := 12 |}
  = false.
Proof.
  apply (proj1 (phone_filter_discards_dates []
                  {| value := str "012-031-4567"; start := 0; end_ := 12 |})).
  vm_compute. repeat split; discriminate.
Defined.

Lemma name_filter_discards_stoplist_witness :
  name_keep {| value := str "John June"; start := 0; end_ := 9 |} = false.
Proof.
  apply (proj1 (name_filter_discards_stoplist []
                  {| value := str "John June"; start := 0; end_ := 9 |})).
  exists (str "June"). split; vm_compute; tauto.
Defined.

Lemma anonymize_idempotent_when_clean_witness :
  (X' <- anonymize 40 (str "Contact: alice.j@example.com") ;;
   anonymize 40 X')
  = anonymize 40 (str "Contact: alice.j@example.com").
Proof.
  apply (proj2 (proj2 anonymize_idempotent_when_clean)
           (str "Contact: alice.j@example.com") 40
           (str "Contact: [EMAIL ADDRESSES]") 40
           [ (str "email", []); (str "phone", []); (str "name", []);
             (str "address", []); (str "ssn", []); (str "credit_card", []) ]).
  - vm_compute. reflexivity.
  - vm_compute. reflexivity.
  - intros c ms H. simpl in H.
    destruct H as [H|[H|[H|[H|[H|[H|[]]]]]]]; injection H as _ <-;
      reflexivity.
Defined.

(** * Instances of the further properties *)


Lemma detectAll_entry_is_detect_witness :
  (length sample < 80)
  /\ (In (str "phone") (keys patterns))
  /\ (exists results ms,
    detectAll 80 sample = Ret results
    /\ keys results = keys patterns
    /\ obj_get results (str "phone") = Some ms
    /\ detect 80 sample (str "phone") = Ret ms).
Proof.
  assert (H1 : length sample < 80)
    by (vm_compute; lia).
  assert (H2 : In (str "phone") (keys patterns))
    by (right; left; reflexivity).
  split; [exact H1|].
  split; [exact H2|].
  exact (@detectAll_entry_is_detect sample (str "phone") 80 H1 H2).
Defined.

Lemma match_value_lengths_witness :
  (length sample < 80)
  /\ (exists results,
    detectAll 80 sample = Ret results
    /\ (forall ms m, obj_get results (str "ssn") = Some ms -> In m ms ->
          length (value m) = 11)
    /\ (forall ms m, obj_get results (str "credit_card") = Some ms ->
          In m ms -> 16 <= length (value m) /\ length (value m) <= 19)
    /\ (forall ms m, obj_get results (str "phone") = Some ms -> In m ms ->
          10 <= length (value m) /\ length (value m) <= 17)
    /\ (forall ms m, obj_get results (str "email") = Some ms -> In m ms ->
          6 <= length (value m))
    /\ (forall ms m, obj_get results (str "name") = Some ms -> In m ms ->
          5 <= length (value m))
    /\ (forall ms m, obj_get results (str "address") = Some ms -> In m ms ->
          5 <= length (value m))).
Proof.
  assert (H1 : length sample < 80)
    by (vm_compute; lia).
  split; [exact H1|].
  exact (@match_value_lengths sample 80 H1).
Defined.

Lemma match_values_hold_witness :
  (length sample < 80)
  /\ (exists results,
    detectAll 80 sample = Ret results
    /\ (forall c ms m,
          In c (map str ["phone"; "address"; "ssn"; "credit_card"]%string) ->
          obj_get results c = Some ms -> In m ms ->
          exists ch, In ch (value m) /\ is_digit ch = true)
    /\ (forall ms m,
          obj_get results (str "email") = Some ms -> In m ms ->
          In (code "@") (value m))
    /\ (forall ms m,
          obj_get results (str "name") = Some ms -> In m ms ->
          exists ch, In ch (value m) /\ (65 <= ch)%N /\ (ch <= 90)%N)).
Proof.
  assert (H1 : length sample < 80)
    by (vm_compute; lia).
  split; [exact H1|].
  exact (@match_values_hold sample 80 H1).
Defined.

Lemma unique_values_within_counts_witness :
  (length sample < 80)
  /\ (exists summary unique,
    getSummary 80 sample = Ret summary
    /\ getUniqueValues 80 sample = Ret unique
    /\ forall c, In c (keys patterns) ->
         exists n u,
           obj_get summary c = Some n
           /\ obj_get unique c = Some u
           /\ length u <= n
           /\ (u = [] <-> n = 0)).
Proof.
  assert (H1 : length sample < 80)
    by (vm_compute; lia).
  split; [exact H1|].
  exact (@unique_values_within_counts sample 80 H1).
Defined.


Lemma anonymize_keeps_front_witness :
  (length sample < 80)
  /\ (exists results,
    detectAll 80 sample = Ret results
    /\ forall m0,
         In m0 (retained results) ->
         (forall m, In m (retained results) ->
            start (base m0) <= start (base m)) ->
         exists m1 rest,
           In m1 (retained results)
           /\ start (base m1) = start (base m0)
           /\ anonymize 80 sample
              = Ret (firstn (start (base m0)) sample
                       ++ (str "[" ++ toUpperCase (label (type m1)) ++ str "]")
                       ++ rest)).
Proof.
  assert (H1 : length sample < 80)
    by (vm_compute; lia).
  split; [exact H1|].
  exact (@anonymize_keeps_front sample 80 H1).
Defined.

Lemma anonymize_plain_text_witness :
  (length plain_sample < 20)
  /\ ((forall ch, In ch plain_sample ->
     is_digit ch = false /\ ch <> code "@" /\ ((ch < 65)%N \/ (90 < ch)%N)))
  /\ (exists results,
    detectAll 20 plain_sample = Ret results
    /\ (forall c, In c (keys patterns) -> obj_get results c = Some [])
    /\ anonymize 20 plain_sample = Ret plain_sample).
Proof.
  assert (H1 : length plain_sample < 20)
    by (vm_compute; lia).
  assert (H2 : (forall ch, In ch plain_sample ->
     is_digit ch = false /\ ch <> code "@" /\ ((ch < 65)%N \/ (90 < ch)%N)))
    by (intros ch Hin; vm_compute in Hin;
        repeat (destruct Hin as [<-|Hin];
                [split; [reflexivity|]; split;
                   [discriminate | first [left; reflexivity | right; reflexivity]]|]);
        contradiction).
  split; [exact H1|].
  split; [exact H2|].
  exact (@anonymize_plain_text plain_sample 20 H1 H2).
Defined.

Lemma google_docs_round_trip_witness :
  ((str "abc_123") <> [])
  /\ (Forall (fun ch => doc_unit ch = true) (str "abc_123"))
  /\ (detectPlatform (transformGoogleDocsUrl (str "abc_123"))
  = {| platform := str "google_docs"; docId := Some (str "abc_123") |}
  /\ validateUrl (transformGoogleDocsUrl (str "abc_123"))
     = {| valid := true; message := str "Valid google_docs URL";
          valid_platform := Some (str "google_docs");
          valid_docId := Some (str "abc_123") |}).
Proof.
  assert (H1 : (str "abc_123") <> [])
    by (discriminate).
  assert (H2 : Forall (fun ch => doc_unit ch = true) (str "abc_123"))
    by (repeat constructor).
  split; [exact H1|].
  split; [exact H2|].
  exact (@google_docs_round_trip (str "abc_123") H1 H2).
Defined.

Lemma proxy_address_witness :
  (Forall (fun ch => doc_unit ch = true) (str "abc_123"))
  /\ (option_map (app corsProxy) (encodeURIComponent (transformGoogleDocsUrl (str "abc_123")))
  = Some (str "https://api.allorigins.win/raw?url=https%3A%2F%2Fdocs.google.com%2Fdocument%2Fd%2F"
            ++ (str "abc_123") ++ str "%2Fexport%3Fformat%3Dtxt")).
Proof.
  assert (H1 : Forall (fun ch => doc_unit ch = true) (str "abc_123"))
    by (repeat constructor).
  split; [exact H1|].
  exact (@proxy_address (str "abc_123") H1).
Defined.

Lemma recommendations_depend_on_witness :
  ((5 = 0 <-> 2 = 0))
  /\ (count_of advice_sample_1 "email" = count_of advice_sample_2 "email")
  /\ (count_of advice_sample_1 "phone" = count_of advice_sample_2 "phone")
  /\ (has_values advice_sample_1 "ssn" = has_values advice_sample_2 "ssn")
  /\ (has_values advice_sample_1 "credit_card" = has_values advice_sample_2 "credit_card")
  /\ (displayRecommendations advice_sample_1 5 = displayRecommendations advice_sample_2 2
  /\ (5 <> 0 -> 4 <= length (displayRecommendations advice_sample_1 5) <= 8)).
Proof.
  assert (H1 : (5 = 0 <-> 2 = 0))
    by (split; discriminate).
  assert (H2 : count_of advice_sample_1 "email" = count_of advice_sample_2 "email")
    by (reflexivity).
  assert (H3 : count_of advice_sample_1 "phone" = count_of advice_sample_2 "phone")
    by (reflexivity).
  assert (H4 : has_values advice_sample_1 "ssn" = has_values advice_sample_2 "ssn")
    by (reflexivity).
  assert (H5 : has_values advice_sample_1 "credit_card" = has_values advice_sample_2 "credit_card")
    by (reflexivity).
  split; [exact H1|].
  split; [exact H2|].
  split; [exact H3|].
  split; [exact H4|].
  split; [exact H5|].
  exact (@recommendations_depend_on advice_sample_1 advice_sample_2 5 2 H1 H2 H3 H4 H5).
Defined.

Lemma plain_document_page_witness :
  (fetchContent (serving plain_sample) (trim (str " pastebin.com/abc123 ")) = Ret (paste_report plain_sample))
  /\ (content (paste_report plain_sample) = Some plain_sample)
  /\ (length plain_sample < 20)
  /\ ((forall ch, In ch plain_sample ->
     is_digit ch = false /\ ch <> code "@" /\ ((ch < 65)%N \/ (90 < ch)%N)))
  /\ (handleAnalyze 20 (serving plain_sample) (str " pastebin.com/abc123 ")
  = Ret (Results
           {| total_pii := 0;
              pii_types := 0;
              risk_level := str "LOW";
              risk_card_class := str "stat-card risk-level ";
              pii_details := Message no_pii_message;
              content_display := preview_of plain_sample;
              recommendations_list :=
                [ str "No PII detected. This document appears safe for public sharing." ] |})).
Proof.
  assert (H1 : fetchContent (serving plain_sample) (trim (str " pastebin.com/abc123 ")) = Ret (paste_report plain_sample))
    by (vm_compute; reflexivity).
  assert (H2 : content (paste_report plain_sample) = Some plain_sample)
    by (reflexivity).
  assert (H3 : length plain_sample < 20)
    by (vm_compute; lia).
  assert (H4 : (forall ch, In ch plain_sample ->
     is_digit ch = false /\ ch <> code "@" /\ ((ch < 65)%N \/ (90 < ch)%N)))
    by (intros ch Hin; vm_compute in Hin;
        repeat (destruct Hin as [<-|Hin];
                [split; [reflexivity|]; split;
                   [discriminate | first [left; reflexivity | right; reflexivity]]|]);
        contradiction).
  split; [exact H1|].
  split; [exact H2|].
  split; [exact H3|].
  split; [exact H4|].
  exact (@plain_document_page 20 (serving plain_sample) (str " pastebin.com/abc123 ") (paste_report plain_sample) plain_sample H1 H2 H3 H4).
Defined.

Lemma fetchContent_requests_witness :
  requests (str "https://pastebin.com/abc123")
  = [str "https://pastebin.com/raw/abc123"]
  /\ fetchContent (serving plain_sample) (str "https://pastebin.com/abc123")
     = fetchContent (serving_paste plain_sample)
         (str "https://pastebin.com/abc123").
Proof.
  assert (H : requests (str "https://pastebin.com/abc123")
              = [str "https://pastebin.com/raw/abc123"])
    by (vm_compute; reflexivity).
  split; [exact H|].
  apply (proj2 (fetchContent_requests (str "https://pastebin.com/abc123")
                  (serving plain_sample) (serving_paste plain_sample))).
  rewrite H. intros u [<-|[]]. reflexivity.
Defined.

Lemma handleAnalyze_refusals_witness :
  handleAnalyze 5 (serving plain_sample) (str "   ")
  = Ret (Alert (str "Please enter a URL"))
  /\ handleAnalyze 5 (serving plain_sample) (str " https://example.org/x ")
     = Ret (Alert (str "Error: Unsupported platform. Supported: Pastebin, Google Docs")).
Proof.
  split.
  - apply (proj1 (handleAnalyze_refusals 5 (serving plain_sample)
                    (str "   "))).
    repeat constructor.
  - apply (proj2 (handleAnalyze_refusals 5 (serving plain_sample)
                    (str " https://example.org/x "))).
    + intros H. apply trim_nil in H. vm_compute in H. discriminate.
    + vm_compute. reflexivity.
Defined.

Lemma page_is_consistent_witness :
  exists page,
    displayResults 20
      [(str "email", [str "a@b.io"]); (str "name", [])] (str "a@b.io")
    = Ret page
    /\ pii_types page <= total_pii page
    /\ pii_types page <= 2
    /\ (pii_types page = 0 <-> total_pii page = 0)
    /\ (total_pii page = 0 <-> pii_details page = Message no_pii_message)
    /\ (forall items,
          pii_details page = Items items -> length items = pii_types page)
    /\ (total_pii page = 0
        <-> recommendations_list page
            = [ str "No PII detected. This document appears safe for public sharing." ])
    /\ (total_pii page <= 5 <-> risk_level page = str "LOW")
    /\ (20 < total_pii page <-> risk_level page = str "HIGH").
Proof.
  eexists. split; [vm_compute; reflexivity|].
  apply (@page_is_consistent 20
           [(str "email", [str "a@b.io"]); (str "name", [])] (str "a@b.io")).
  vm_compute. reflexivity.
Defined.

Lemma preview_is_bounded_witness :
  exists text,
    displayContentPreview 30 mail_sample = Ret text
    /\ exists anonymized,
         anonymize 30 mail_sample = Ret anonymized
         /\ length text <= 1025
         /\ firstn 1000 text = firstn 1000 anonymized
         /\ (length anonymized <= 1000 -> text = anonymized)
         /\ (1000 < length anonymized ->
             text = firstn 1000 anonymized ++ [10%N; 10%N]
                      ++ str "... (content truncated)").
Proof.
  eexists. split; [vm_compute; reflexivity|].
  apply (@preview_is_bounded 30 mail_sample).
  vm_compute. reflexivity.
Defined.

Lemma analysis_page_witness :
  exists report,
    fetchContent (serving mail_sample)
      (trim (str " https://pastebin.com/abc123 ")) = Ret report
    /\ content report = Some mail_sample
    /\ length mail_sample < 30
    /\ exists results anonymized page,
         detectAll 30 mail_sample = Ret results
         /\ anonymize 30 mail_sample = Ret anonymized
         /\ handleAnalyze 30 (serving mail_sample)
              (str " https://pastebin.com/abc123 ") = Ret (Results page)
         /\ total_pii page = sum_counts (unique_of results)
         /\ pii_types page = length (with_values (unique_of results))
         /\ pii_types page <= 6
         /\ content_display page = preview_of anonymized
         /\ forall items,
              pii_details page = Items items ->
              items
              = map (fun '(c, values) =>
                       {| title := Some (label c ++ str " ("
                                           ++ Number_toString (length values)
                                           ++ str " found)");
                          tags := value_tags values |})
                  (with_values (unique_of results)).
Proof.
  eexists. split; [vm_compute; reflexivity|].
  split; [reflexivity|].
  assert (H : length mail_sample < 30) by (vm_compute; lia).
  split; [exact H|].
  eapply (@analysis_page 30 (serving mail_sample)
           (str " https://pastebin.com/abc123 ") _ mail_sample);
    [vm_compute; reflexivity | reflexivity | exact H].
Defined.
